(** * P2P overlay: a shallow embedding of the core and its checked properties

    The C++ sources are embedded as executable Rocq functions.

    - [uint64_t], [size_t] and [uint32_t] values are [N] with the wrap-around
      written out ([wrap64], [wrap32]); [int] values are [Z].  [size_t] is
      taken to be 64 bits wide, as [NodeID] is.
    - [std::map] is [gmap], [std::set] is [gset]; iteration over either is
      iteration over the keys in ascending order.
    - [std::chrono::system_clock::time_point] is a tick count in [Z]; each
      reading of the clock is an argument of the method that reads it.
    - Callbacks and hand-offs to the transport are recorded in traces.
    - A [std::mutex] is not re-entrant.  Where a method takes a mutex and then
      calls a method of the same object that takes it again, the model stops
      with [Faults relock_owned_mutex]; a guard taken once on a free mutex has
      no effect on the data and is transparent. *)

From stdpp Require Import gmap list sorting strings.
From Stdlib Require Import ZArith NArith Lia.
From Stdlib.Strings Require Import Byte.

Local Open Scope N_scope.
#[local] Set Warnings "-clear-no-such-hyp".

(** ** Machine integers, time and outcomes *)

Definition wrap64 (n : N) : N := n mod 2 ^ 64.
Definition wrap32 (n : N) : N := n mod 2 ^ 32.

(** [static_cast<int>] of a non-negative value: two's complement on 32 bits. *)
Definition static_cast_int (n : N) : Z :=
  ((Z.of_N n + 2 ^ 31) mod 2 ^ 32 - 2 ^ 31)%Z.

(** Ticks of [system_clock] per second (nanosecond resolution). *)
Definition ticks_per_second : Z := 1000000000%Z.

(** [duration_cast<seconds>(now - t).count()]: truncation towards zero. *)
Definition elapsed_seconds (now t : Z) : Z := ((now - t) ÷ ticks_per_second)%Z.

(** What the C++ standard leaves undefined, as far as the core can run into it. *)
Inductive fault : Set :=
  | relock_owned_mutex     (* lock() on a std::mutex the thread already owns *)
  | invalidated_iterator   (* ++it after erasing the element it points to *)
  | division_by_zero
  | out_of_bounds_read.

Inductive outcome (A : Type) : Type :=
  | Returns (a : A)
  | Faults (f : fault).
Arguments Returns {A} a.
Arguments Faults {A} f.

Definition obind {A B} (o : outcome A) (k : A → outcome B) : outcome B :=
  match o with
  | Returns a => k a
  | Faults f => Faults f
  end.

Notation "x ←! o ; k" := (obind o (fun x => k))
  (at level 20, o at level 100, k at level 200, right associativity,
   format "x  ←!  o ;  '/' k").

(** [std::lock_guard<std::mutex> lock(m)] followed by [body]; [held] tells
    whether the calling thread already owns [m]. *)
Definition lock_guard {A} (held : bool) (body : outcome A) : outcome A :=
  if held then Faults relock_owned_mutex else body.

(** Ascending iteration order of [std::set] and [std::map]. *)
Definition set_in_order (s : gset N) : list N := merge_sort N.le (elements s).

Definition keys_in_order {V} (m : gmap N V) : list N := set_in_order (dom m).

(** ** Common.h *)

Inductive MessageType : Set :=
  | JOIN_REQUEST | JOIN_RESPONSE | LEAVE_NOTIFICATION | HEARTBEAT
  | DATA_MESSAGE | TOPOLOGY_UPDATE | PEER_DISCOVERY | ROUTE_MESSAGE
  | MESSAGE_ACK | DATA_CHUNK | TRANSFER_REQUEST | TRANSFER_RESPONSE.

Definition HEARTBEAT_INTERVAL_SEC : Z := 30.
Definition NODE_TIMEOUT_SEC : Z := 90.
Definition MAX_PEERS : N := 10.

Record NetworkAddress : Type := mkAddress { host : string; port : N }.

Definition default_address : NetworkAddress := mkAddress "" 0.

Record Message : Type := mkMessage {
  type : MessageType;
  senderID : N;
  receiverID : N;
  payload : list byte;
  timestamp : N
}.

(** ** Node *)

Module Node.

Record t : Type := mk {
  nodeID_ : N;
  address_ : NetworkAddress;
  peerIDs_ : list N;
  peerAddresses_ : list NetworkAddress;
  lastSeen_ : Z
}.

Definition getID (n : t) : N := nodeID_ n.

Definition hasPeer (n : t) (peerID : N) : bool := bool_decide (peerID ∈ peerIDs_ n).

Definition getPeerCount (n : t) : N := N.of_nat (length (peerIDs_ n)).

Definition getPeerIDs (n : t) : list N := peerIDs_ n.

Definition addPeer (n : t) (peerID : N) (peerAddress : NetworkAddress) : bool * t :=
  if bool_decide (peerID ∈ peerIDs_ n) then (false, n)
  else if bool_decide (MAX_PEERS ≤ N.of_nat (length (peerIDs_ n))) then (false, n)
  else (true, mk (nodeID_ n) (address_ n) (peerIDs_ n ++ [peerID])
                 (peerAddresses_ n ++ [peerAddress]) (lastSeen_ n)).

(** [std::find]: position of the first occurrence. *)
Fixpoint find_index (peerID : N) (l : list N) : option nat :=
  match l with
  | [] => None
  | x :: r => if bool_decide (x = peerID) then Some O
              else S <$> find_index peerID r
  end.

Definition removePeer (n : t) (peerID : N) : bool * t :=
  match find_index peerID (peerIDs_ n) with
  | None => (false, n)
  | Some index =>
      (true, mk (nodeID_ n) (address_ n) (delete index (peerIDs_ n))
                (delete index (peerAddresses_ n)) (lastSeen_ n))
  end.

(** [lastSeen_ = system_clock::now()]. *)
Definition updateLastSeen (now : Z) (n : t) : t :=
  mk (nodeID_ n) (address_ n) (peerIDs_ n) (peerAddresses_ n) now.

Definition isAlive (now : Z) (timeoutSeconds : Z) (n : t) : bool :=
  bool_decide (elapsed_seconds now (lastSeen_ n) < timeoutSeconds)%Z.

Definition getAddress (n : t) : NetworkAddress := address_ n.

Definition getPeerAddresses (n : t) : list NetworkAddress := peerAddresses_ n.

End Node.

(** ** NetworkManager: the transport *)

Module NetworkManager.

(** [activeConnections_] is the key set of the socket map.  [connectable]
    tells whether a TCP connection to an address succeeds and [socketThrows]
    are the peers whose socket raises [Poco::Exception] on write: both belong
    to the network.  [handedOver] lists every call of [sendMessageToPeer] in
    order, [wire] the messages written to a socket. *)
Record t : Type := mk {
  connectable : NetworkAddress → bool;
  activeConnections_ : gset N;
  socketThrows : gset N;
  handedOver : list (N * Message);
  wire : list (N * Message);
  sentMessageCount_ : N
}.

Definition sendMessageToPeer (peerID : N) (message : Message) (nm : t) : bool * t :=
  if bool_decide (peerID ∈ activeConnections_ nm) then
    if bool_decide (peerID ∈ socketThrows nm) then
      (false, mk (connectable nm) (activeConnections_ nm) (socketThrows nm)
                 (handedOver nm ++ [(peerID, message)]) (wire nm)
                 (sentMessageCount_ nm))
    else
      (true, mk (connectable nm) (activeConnections_ nm) (socketThrows nm)
                (handedOver nm ++ [(peerID, message)])
                (wire nm ++ [(peerID, message)])
                (wrap64 (sentMessageCount_ nm + 1)))
  else
    (false, mk (connectable nm) (activeConnections_ nm) (socketThrows nm)
               (handedOver nm ++ [(peerID, message)]) (wire nm)
               (sentMessageCount_ nm)).

(** The socket of a successful [connectToPeer] is not stored. *)
Definition connectToPeer (peerAddress : NetworkAddress) (nm : t) : bool :=
  connectable nm peerAddress.

Definition disconnectFromPeer (peerID : N) (nm : t) : bool * t :=
  if bool_decide (peerID ∈ activeConnections_ nm) then
    (true, mk (connectable nm) (activeConnections_ nm ∖ {[peerID]}) (socketThrows nm)
              (handedOver nm) (wire nm) (sentMessageCount_ nm))
  else (false, nm).

Definition isConnectedTo (peerID : N) (nm : t) : bool :=
  bool_decide (peerID ∈ activeConnections_ nm).

Definition getConnectedPeers (nm : t) : list N :=
  set_in_order (activeConnections_ nm).

(** [peerIDs] is [node_->getPeerIDs()]. *)
Definition broadcastMessage (peerIDs : list N) (message : Message) (excludeID : N)
    (nm : t) : bool * t :=
  foldl (λ '(success, nm) peerID,
           if bool_decide (peerID ≠ excludeID) then
             let '(ok, nm) := sendMessageToPeer peerID message nm in
             (success && ok, nm)
           else (success, nm))
        (true, nm) peerIDs.

End NetworkManager.

(** ** TopologyManager *)

Module TopologyManager.

Record t : Type := mk {
  localID : N;                          (* localNode_->getID() *)
  nodeRegistry_ : gmap N NetworkAddress;
  adjacencyList_ : gmap N (gset N);
  bootstrapNodes_ : list NetworkAddress
}.

Definition with_adjacency (adj : gmap N (gset N)) (tm : t) : t :=
  mk (localID tm) (nodeRegistry_ tm) adj (bootstrapNodes_ tm).

Definition addNode (nodeID : N) (address : NetworkAddress) (tm : t) : bool * t :=
  if bool_decide (is_Some (nodeRegistry_ tm !! nodeID)) then (false, tm)
  else (true, mk (localID tm) (<[nodeID := address]> (nodeRegistry_ tm))
                 (<[nodeID := ∅]> (adjacencyList_ tm)) (bootstrapNodes_ tm)).

Definition removeNodeFromGraph (nodeID : N) (tm : t) : t :=
  mk (localID tm) (delete nodeID (nodeRegistry_ tm))
     ((λ s : gset N, s ∖ {[nodeID]}) <$> delete nodeID (adjacencyList_ tm))
     (bootstrapNodes_ tm).

Definition removeNode (nodeID : N) (tm : t) : bool * t :=
  if bool_decide (is_Some (nodeRegistry_ tm !! nodeID)) then
    (true, removeNodeFromGraph nodeID tm)
  else (false, tm).

Definition updateNodeAddress (nodeID : N) (newAddress : NetworkAddress) (tm : t)
    : bool * t :=
  if bool_decide (is_Some (nodeRegistry_ tm !! nodeID)) then
    (true, mk (localID tm) (<[nodeID := newAddress]> (nodeRegistry_ tm))
              (adjacencyList_ tm) (bootstrapNodes_ tm))
  else (false, tm).

Definition nodeExists (nodeID : N) (tm : t) : bool :=
  bool_decide (is_Some (nodeRegistry_ tm !! nodeID)).

Definition getNodeAddress (nodeID : N) (tm : t) : NetworkAddress :=
  default default_address (nodeRegistry_ tm !! nodeID).

Definition getAllNodeIDs (held : bool) (tm : t) : outcome (list N) :=
  lock_guard held (Returns (keys_in_order (nodeRegistry_ tm))).

Definition getNetworkSize (tm : t) : N := N.of_nat (size (nodeRegistry_ tm)).

Definition registerNode (nodeID : N) (address : NetworkAddress) (tm : t) : bool * t :=
  addNode nodeID address tm.

(** [availablePeers.resize(maxPeers)] converts [maxPeers] to [size_t]; a
    negative one asks for more than [max_size()] elements and the call leaves
    with [std::length_error]: [None]. *)
Definition discoverPeers (requestingNodeID : N) (maxPeers : Z) (tm : t)
    : option (list N) :=
  let availablePeers :=
    filter (λ id, id ≠ requestingNodeID ∧ id ≠ localID tm)
      (keys_in_order (nodeRegistry_ tm)) in
  if bool_decide (maxPeers < static_cast_int (N.of_nat (length availablePeers)))%Z then
    if bool_decide (maxPeers < 0)%Z then None
    else Some (take (Z.to_nat maxPeers) availablePeers)
  else Some availablePeers.

Definition addBootstrapNode (address : NetworkAddress) (tm : t) : t :=
  mk (localID tm) (nodeRegistry_ tm) (adjacencyList_ tm) (bootstrapNodes_ tm ++ [address]).

Definition getBootstrapNodes (tm : t) : list NetworkAddress := bootstrapNodes_ tm.

(** [adjacencyList_[from].insert(to); adjacencyList_[to].insert(from)];
    [operator[]] creates a missing entry. *)
Definition addEdge (from to : N) (tm : t) : t :=
  if bool_decide (from = to) then tm
  else
    let adj := adjacencyList_ tm in
    let adj := <[from := {[to]} ∪ default ∅ (adj !! from)]> adj in
    let adj := <[to := {[from]} ∪ default ∅ (adj !! to)]> adj in
    with_adjacency adj tm.

Definition removeEdge (from to : N) (tm : t) : t :=
  let adj := adjacencyList_ tm in
  let adj := alter (λ s : gset N, s ∖ {[to]}) from adj in
  let adj := alter (λ s : gset N, s ∖ {[from]}) to adj in
  with_adjacency adj tm.

(** *** findPath *)

Record bfs_state : Type := mkBfs {
  queue : list N;
  parent : gmap N N;
  visited : gset N
}.

(** One round of [for (NodeID neighbor : it->second)]. *)
Definition visit (current : N) (st : bfs_state) (neighbor : N) : bfs_state :=
  if bool_decide (neighbor ∈ visited st) then st
  else mkBfs (queue st ++ [neighbor])
             (<[neighbor := current]> (parent st))
             ({[neighbor]} ∪ visited st).

(** [while (node != from) { path.push_back(node); node = parent[node]; }]
    followed by [path.push_back(from)] and [std::reverse].  A missing key
    reads as 0 under [operator[]]. *)
Fixpoint reconstruct (fuel : nat) (parent : gmap N N) (from node : N)
    (path : list N) : option (list N) :=
  match fuel with
  | O => None
  | S fuel' =>
      if bool_decide (node = from) then Some (reverse (path ++ [from]))
      else reconstruct fuel' parent from (default 0 (parent !! node))
             (path ++ [node])
  end.

(** [while (!queue.empty())]; [None] only when [fuel] runs out. *)
Fixpoint bfs_loop (fuel : nat) (adj : gmap N (gset N)) (from to : N)
    (st : bfs_state) : option (list N) :=
  match fuel with
  | O => None
  | S fuel' =>
      match queue st with
      | [] => Some []
      | current :: rest =>
          if bool_decide (current = to) then
            reconstruct (S (size (parent st))) (parent st) from to []
          else
            let st := mkBfs rest (parent st) (visited st) in
            let st := match adj !! current with
                      | Some neighbors =>
                          foldl (visit current) st (set_in_order neighbors)
                      | None => st
                      end in
            bfs_loop fuel' adj from to st
      end
  end.

(** Every node that can ever enter the queue after [from]. *)
Definition universe (adj : gmap N (gset N)) : gset N :=
  ⋃ (snd <$> map_to_list adj).

Definition bfs_fuel (adj : gmap N (gset N)) : nat := S (S (size (universe adj))).

Definition bfs_start (from : N) : bfs_state :=
  mkBfs [from] {[from := from]} {[from]}.

(** The search as far as [bfs_fuel] carries it; [findPath_terminates] shows
    that this is always to its end. *)
Definition findPath_run (tm : t) (from to : N) : option (list N) :=
  bfs_loop (bfs_fuel (adjacencyList_ tm)) (adjacencyList_ tm) from to
    (bfs_start from).

Definition findPath (tm : t) (from to : N) : list N :=
  if bool_decide (from = to) then [from]
  else default [] (findPath_run tm from to).

Definition getNeighbors (nodeID : N) (tm : t) : list N :=
  match adjacencyList_ tm !! nodeID with
  | Some s => set_in_order s
  | None => []
  end.

(** *** Integrity and repair *)

(** The range-[for] of [validateTopology] erases the element its iterator
    points to and then advances that iterator. *)
Fixpoint validate_loop (keys : list N) (tm : t) : outcome t :=
  match keys with
  | [] => Returns tm
  | key :: rest =>
      if bool_decide (is_Some (nodeRegistry_ tm !! key)) then validate_loop rest tm
      else Faults invalidated_iterator
  end.

Definition validateTopology (held : bool) (tm : t) : outcome t :=
  lock_guard held (validate_loop (keys_in_order (adjacencyList_ tm)) tm).

Fixpoint hasPathDFS (fuel : nat) (adj : gmap N (gset N)) (from to : N)
    (visited : gset N) : option (bool * gset N) :=
  match fuel with
  | O => None
  | S fuel' =>
      let visited := {[from]} ∪ visited in
      if bool_decide (from = to) then Some (true, visited)
      else
        match adj !! from with
        | None => Some (false, visited)
        | Some neighbors =>
            (fix each (l : list N) (visited : gset N) : option (bool * gset N) :=
               match l with
               | [] => Some (false, visited)
               | neighbor :: l' =>
                   if bool_decide (neighbor ∈ visited) then each l' visited
                   else
                     match hasPathDFS fuel' adj neighbor to visited with
                     | None => None
                     | Some (true, visited') => Some (true, visited')
                     | Some (false, visited') => each l' visited'
                     end
               end) (set_in_order neighbors) visited
        end
  end.

Definition isTopologyConnected (held : bool) (tm : t) : outcome bool :=
  lock_guard held
    (if bool_decide (size (nodeRegistry_ tm) = 0%nat) then Returns true
     else if bool_decide (size (nodeRegistry_ tm) = 1%nat) then Returns true
     else
       match keys_in_order (nodeRegistry_ tm) with
       | [] => Returns true
       | startNode :: _ =>
           match hasPathDFS (S (size (adjacencyList_ tm))) (adjacencyList_ tm)
                   startNode startNode ∅ with
           | Some (_, visited) =>
               Returns (bool_decide (size visited = size (nodeRegistry_ tm)))
           | None => Returns false
           end
       end).

(** [updateTopology] takes the mutex and calls the empty
    [buildAdjacencyList]. *)
Definition updateTopology (tm : t) : t := tm.

Definition checkNetworkIntegrity (tm : t) : outcome (bool * t) :=
  tm ←! validateTopology false tm;
  ok ←! isTopologyConnected false tm;
  Returns (ok, tm).

(** The ring of [repairTopology]: edges [nodeIDs[i] - nodeIDs[(i+1) % n]]. *)
Definition ring_edges (nodeIDs : list N) (tm : t) : t :=
  foldl (λ tm i,
           addEdge (default 0 (nodeIDs !! i))
                   (default 0 (nodeIDs !! ((i + 1) mod length nodeIDs)%nat)) tm)
        tm (seq 0 (length nodeIDs)).

(** [repairTopology] takes [topologyMutex_] and, holding it, calls
    [validateTopology], [isTopologyConnected] and [getAllNodeIDs], each of
    which takes the same mutex. *)
Definition repairTopology (tm : t) : outcome t :=
  lock_guard false
    (tm ←! validateTopology true tm;
     connected ←! isTopologyConnected true tm;
     if negb connected then
       nodeIDs ←! getAllNodeIDs true tm;
       if bool_decide (1 < length nodeIDs)%nat
       then Returns (ring_edges nodeIDs tm) else Returns tm
     else Returns tm).

End TopologyManager.

(** ** Byte buffers *)

Definition byte_of_N (n : N) : byte := default "000"%byte (Byte.of_N (n mod 256)).

(** The object representation of an unsigned integer of [width] bytes
    (little-endian host). *)
Fixpoint le_bytes (width : nat) (n : N) : list byte :=
  match width with
  | O => []
  | S w => byte_of_N n :: le_bytes w (n / 256)
  end.

Fixpoint le_value (bs : list byte) : N :=
  match bs with
  | [] => 0
  | b :: r => Byte.to_N b + 256 * le_value r
  end.

(** [v.resize(n)] on an empty vector of bytes. *)
Definition zeros (n : N) : list byte := replicate (N.to_nat n) "000"%byte.

(** [memcpy(dst.data() + off, src, |src|)] for a range inside [dst]. *)
Definition memcpy_into (dst : list byte) (off : nat) (src : list byte) : list byte :=
  take off dst ++ src ++ drop (off + length src) dst.

(** Reading [len] bytes at [data.data() + off]. *)
Definition read_bytes (data : list byte) (off len : nat) : outcome (list byte) :=
  if bool_decide (off + len ≤ length data)%nat
  then Returns (take len (drop off data))
  else Faults out_of_bounds_read.

(** The bytes of an array of [uint64_t]. *)
Fixpoint bytes_of_words (ws : list N) : list byte :=
  match ws with
  | [] => []
  | w :: r => le_bytes 8 w ++ bytes_of_words r
  end.

(** An array of [count] [uint64_t] laid out in [bs]. *)
Fixpoint words_of_bytes (count : nat) (bs : list byte) : list N :=
  match count with
  | O => []
  | S c => le_value (take 8 bs) :: words_of_bytes c (drop 8 bs)
  end.

(** ** MessageHandler: node-list payloads *)

Module MessageHandler.

Record t : Type := mk {
  node_ : Node.t;
  networkManager_ : NetworkManager.t;
  topologyManager_ : TopologyManager.t
}.

(** [nowMs] is [getCurrentTimestamp()]. *)
Definition createHeartbeat (targetNodeID : N) (nowMs : N) (h : t) : Message :=
  mkMessage HEARTBEAT (Node.getID (node_ h)) targetNodeID [] nowMs.

(** [now] is the clock read by [Node::updateLastSeen]. *)
Definition handleHeartbeat (message : Message) (now : Z) (nowMs : N) (h : t) : t :=
  let h := mk (Node.updateLastSeen now (node_ h)) (networkManager_ h)
              (topologyManager_ h) in
  let heartbeat := createHeartbeat (senderID message) nowMs h in
  mk (node_ h)
     (NetworkManager.sendMessageToPeer (senderID message) heartbeat
        (networkManager_ h)).2
     (topologyManager_ h).

Definition serializeNodeList (nodes : list N) : list byte :=
  let count := wrap32 (N.of_nat (length nodes)) in
  let data := zeros (wrap64 (4 + count * 8)) in
  let data := memcpy_into data 0 (le_bytes 4 count) in
  if bool_decide (nodes = []) then data
  else memcpy_into data 4
         (bytes_of_words (take (N.to_nat count) nodes)).

Definition deserializeNodeList (data : list byte) : outcome (list N) :=
  if bool_decide (N.of_nat (length data) < 4) then Returns []
  else
    raw ←! read_bytes data 0 4;
    let count := le_value raw in
    let expectedSize := wrap64 (4 + count * 8) in
    if bool_decide (N.of_nat (length data) < expectedSize) then Returns []
    else if bool_decide (0 < count) then
      ids ←! read_bytes data 4 (N.to_nat (wrap64 (count * 8)));
      Returns (words_of_bytes (N.to_nat count) ids)
    else Returns (replicate (N.to_nat count) 0).

(** *** Message construction; [nowMs] is [getCurrentTimestamp()] *)

Definition createJoinRequest (targetNodeID : N) (nowMs : N) (h : t) : Message :=
  mkMessage JOIN_REQUEST (Node.getID (node_ h)) targetNodeID [] nowMs.

(** The acceptance flag is inserted in front of the serialised list. *)
Definition createJoinResponse (targetNodeID : N) (accepted : bool)
    (peerList : list N) (nowMs : N) (h : t) : Message :=
  mkMessage JOIN_RESPONSE (Node.getID (node_ h)) targetNodeID
    (byte_of_N (if accepted then 1 else 0) :: serializeNodeList peerList) nowMs.

Definition createLeaveNotification (targetNodeID : N) (nowMs : N) (h : t) : Message :=
  mkMessage LEAVE_NOTIFICATION (Node.getID (node_ h)) targetNodeID [] nowMs.

Definition createDataMessage (targetNodeID : N) (data : list byte) (nowMs : N)
    (h : t) : Message :=
  mkMessage DATA_MESSAGE (Node.getID (node_ h)) targetNodeID data nowMs.

Definition createTopologyUpdate (updatedNodes : list N) (nowMs : N) (h : t) : Message :=
  mkMessage TOPOLOGY_UPDATE (Node.getID (node_ h)) 0
    (serializeNodeList updatedNodes) nowMs.

(** The object representation of an [int] (two's complement, 4 bytes). *)
Definition int_bytes (i : Z) : list byte := le_bytes 4 (Z.to_N (i mod 2 ^ 32)).

Definition int_of_bytes (bs : list byte) : Z := static_cast_int (le_value bs).

Definition createPeerDiscoveryRequest (targetNodeID : N) (maxPeers : Z) (nowMs : N)
    (h : t) : Message :=
  mkMessage PEER_DISCOVERY (Node.getID (node_ h)) targetNodeID
    (memcpy_into (zeros 4) 0 (int_bytes maxPeers)) nowMs.

(** *** Handlers *)

Definition reply (target : N) (response : Message) (h : t) : t :=
  mk (node_ h)
     (NetworkManager.sendMessageToPeer target response (networkManager_ h)).2
     (topologyManager_ h).

(** [None]: [discoverPeers] has thrown. *)
Definition handleJoinRequest (message : Message) (nowMs : N) (h : t) : option t :=
  let accepted := bool_decide (Node.getPeerCount (node_ h) < MAX_PEERS) in
  peerList ← (if accepted
              then TopologyManager.discoverPeers (senderID message)
                     (Z.of_N MAX_PEERS) (topologyManager_ h)
              else Some []);
  Some (reply (senderID message)
          (createJoinResponse (senderID message) accepted peerList nowMs h) h).

(** The handler only calls [connectToPeer], which keeps no socket: what it
    does is the list of addresses it tries, in order. *)
Definition handleJoinResponse (message : Message) (h : t)
    : outcome (list NetworkAddress) :=
  peerList ←! deserializeNodeList (payload message);
  Returns
    (omap (λ peerID,
             if bool_decide (peerID ≠ Node.getID (node_ h))
                && negb (Node.hasPeer (node_ h) peerID)
             then
               let peerAddr :=
                 TopologyManager.getNodeAddress peerID (topologyManager_ h) in
               if bool_decide (port peerAddr ≠ 0) then Some peerAddr else None
             else None)
          peerList).

Definition handleLeaveNotification (message : Message) (nowMs : N) (h : t) : t :=
  let h := mk (Node.removePeer (node_ h) (senderID message)).2 (networkManager_ h)
              (TopologyManager.removeNode (senderID message) (topologyManager_ h)).2 in
  let update := createTopologyUpdate [senderID message] nowMs h in
  mk (node_ h)
     (NetworkManager.broadcastMessage (Node.getPeerIDs (node_ h)) update
        (senderID message) (networkManager_ h)).2
     (topologyManager_ h).

Definition handleDataMessage (message : Message) (h : t) : t := h.

Definition handleTopologyUpdate (message : Message) (h : t) : outcome t :=
  updatedNodes ←! deserializeNodeList (payload message);
  let n := foldl (λ n nodeID,
                    if TopologyManager.nodeExists nodeID (topologyManager_ h) then n
                    else (Node.removePeer n nodeID).2)
                 (node_ h) updatedNodes in
  checked ←! TopologyManager.checkNetworkIntegrity (topologyManager_ h);
  Returns (mk n (networkManager_ h) checked.2).

(** [None]: [discoverPeers] has thrown. *)
Definition handlePeerDiscovery (message : Message) (nowMs : N) (h : t) : option t :=
  let maxPeers :=
    if bool_decide (4 ≤ length (payload message))%nat
    then int_of_bytes (take 4 (payload message))
    else Z.of_N MAX_PEERS in
  peers ← TopologyManager.discoverPeers (senderID message) maxPeers
            (topologyManager_ h);
  Some (reply (senderID message)
          (createJoinResponse (senderID message) true peers nowMs h) h).

End MessageHandler.

(** ** NetworkManager: messages as bytes *)

Module NetworkCodec.

(** The numeric value of an enumerator of [MessageType]. *)
Definition type_value (t : MessageType) : N :=
  match t with
  | JOIN_REQUEST => 1 | JOIN_RESPONSE => 2 | LEAVE_NOTIFICATION => 3
  | HEARTBEAT => 4 | DATA_MESSAGE => 5 | TOPOLOGY_UPDATE => 6
  | PEER_DISCOVERY => 7 | ROUTE_MESSAGE => 8 | MESSAGE_ACK => 9
  | DATA_CHUNK => 10 | TRANSFER_REQUEST => 11 | TRANSFER_RESPONSE => 12
  end.

(** A [Message] whose [type] is any value of the underlying [uint8_t], as a
    receiver gets it from the bytes. *)
Record RawMessage : Type := mkRaw {
  rawType : N;
  rawSenderID : N;
  rawReceiverID : N;
  rawPayload : list byte;
  rawTimestamp : N
}.

Definition raw (m : Message) : RawMessage :=
  mkRaw (type_value (type m)) (senderID m) (receiverID m) (payload m) (timestamp m).

(** [sizeof(MessageType) + 2 * sizeof(NodeID) + sizeof(uint64_t)
    + sizeof(uint32_t)] *)
Definition header_size : N := 1 + 2 * 8 + 8 + 4.

Definition serializeMessage (msg : RawMessage) : bool * list byte :=
  let buffer := zeros (wrap64 (header_size + N.of_nat (length (rawPayload msg)))) in
  let buffer := memcpy_into buffer 0 (le_bytes 1 (rawType msg)) in
  let buffer := memcpy_into buffer 1 (le_bytes 8 (rawSenderID msg)) in
  let buffer := memcpy_into buffer 9 (le_bytes 8 (rawReceiverID msg)) in
  let buffer := memcpy_into buffer 17 (le_bytes 8 (rawTimestamp msg)) in
  let payloadSize := wrap32 (N.of_nat (length (rawPayload msg))) in
  let buffer := memcpy_into buffer 25 (le_bytes 4 payloadSize) in
  (true,
   if bool_decide (rawPayload msg = []) then buffer
   else memcpy_into buffer 29 (rawPayload msg)).

(** [msg] is the object the caller passes by reference. *)
Definition deserializeMessage (buffer : list byte) (msg : RawMessage)
    : outcome (bool * RawMessage) :=
  if bool_decide (N.of_nat (length buffer) < header_size) then Returns (false, msg)
  else
    type ←! read_bytes buffer 0 1;
    sender ←! read_bytes buffer 1 8;
    receiver ←! read_bytes buffer 9 8;
    stamp ←! read_bytes buffer 17 8;
    size ←! read_bytes buffer 25 4;
    let payloadSize := le_value size in
    if bool_decide (0 < payloadSize)
       && bool_decide (wrap64 (29 + payloadSize) ≤ N.of_nat (length buffer))
    then
      bytes ←! read_bytes buffer 29 (N.to_nat payloadSize);
      Returns (true, mkRaw (le_value type) (le_value sender) (le_value receiver)
                       bytes (le_value stamp))
    else
      Returns (true, mkRaw (le_value type) (le_value sender) (le_value receiver)
                       (rawPayload msg) (le_value stamp)).

(** The [char header[32]] that [sendMessageToPeer] fills and sends; [array]
    is what the array holds before. *)
Definition header_of (message : RawMessage) (array : list byte) : list byte :=
  let header := memcpy_into array 0 (le_bytes 1 (rawType message)) in
  let header := memcpy_into header 1 (le_bytes 8 (rawSenderID message)) in
  let header := memcpy_into header 9 (le_bytes 8 (rawReceiverID message)) in
  let header := memcpy_into header 17 (le_bytes 8 (rawTimestamp message)) in
  let payloadSize := wrap32 (N.of_nat (length (rawPayload message))) in
  memcpy_into header 25 (le_bytes 4 payloadSize).

(** The header parsing of [PeerConnectionHandler::run]: the fields of [msg]
    and [payloadSize], read from the 32 bytes of [header]. *)
Definition parse_header (header : list byte) : outcome (N * N * N * N * N) :=
  type ←! read_bytes header 0 1;
  sender ←! read_bytes header 1 8;
  receiver ←! read_bytes header 9 8;
  stamp ←! read_bytes header 17 8;
  size ←! read_bytes header 25 4;
  Returns (le_value type, le_value sender, le_value receiver, le_value stamp,
           le_value size).

End NetworkCodec.


(** ** DataExchange: chunked transfer *)

Module DataExchange.

Record DataChunk : Type := mkChunk {
  chunkID : N;
  sequenceNumber : N;
  totalChunks : N;
  data : list byte;
  isLastChunk : bool
}.

Inductive TransferStatus : Set :=
  | PENDING | IN_PROGRESS | COMPLETED | FAILED | CANCELLED.

Record DataTransfer : Type := mkTransfer {
  transferID : N;
  sourceID : N;
  destinationID : N;
  dataType : string;
  totalSize : N;
  transferredSize : N;
  status : TransferStatus;
  startTime : Z;
  lastUpdate : Z
}.

(** [DataTransfer()]; the two time points are value-initialised. *)
Definition default_transfer : DataTransfer :=
  mkTransfer 0 0 0 "" 0 0 PENDING 0 0.

Inductive event : Type :=
  | DataReceived (source : N) (bytes : list byte) (dataType : string)
  | TransferComplete (transfer : N) (success : bool)
  | TransferProgress (transfer : N) (transferred total : N).

(** The [onX_] fields tell whether a callback is installed; [fired] is the
    trace of callback invocations. *)
Record t : Type := mk {
  selfID : N;
  chunkSize_ : N;
  outgoingTransfers_ : gmap N DataTransfer;
  incomingTransfers_ : gmap N DataTransfer;
  receivedChunks_ : gmap N (gmap N DataChunk);
  completedData_ : gmap N (list byte);
  onDataReceived_ : bool;
  onTransferComplete_ : bool;
  onTransferProgress_ : bool;
  receivedDataSize_ : N;
  completedTransfers_ : N;
  failedTransfers_ : N;
  fired : list event
}.

(** The body of the [for] loop of [splitData], from index [i] on, for [todo]
    more rounds. *)
Fixpoint splitData_loop (todo : nat) (i chunkCount chunkSize : N)
    (bytes : list byte) (transfer : N) : outcome (list DataChunk) :=
  match todo with
  | O => Returns []
  | S todo' =>
      let totalSize := N.of_nat (length bytes) in
      let last := bool_decide (i = wrap32 (chunkCount + 2 ^ 32 - 1)) in
      let offset := wrap64 (i * chunkSize) in
      let chunkDataSize := N.min chunkSize (wrap64 (totalSize + 2 ^ 64 - offset)) in
      piece ←! read_bytes bytes (N.to_nat offset) (N.to_nat chunkDataSize);
      rest ←! splitData_loop todo' (i + 1) chunkCount chunkSize bytes transfer;
      Returns (mkChunk transfer i chunkCount piece last :: rest)
  end.

Definition splitData (chunkSize : N) (bytes : list byte) (transfer : N)
    : outcome (list DataChunk) :=
  let totalSize := N.of_nat (length bytes) in
  if bool_decide (chunkSize = 0) then Faults division_by_zero
  else
    let chunkCount := wrap32 (wrap64 (totalSize + chunkSize - 1) / chunkSize) in
    splitData_loop (N.to_nat chunkCount) 0 chunkCount chunkSize bytes transfer.

(** The reassembly loop of [reassembleData]: [None] when a chunk is missing. *)
Fixpoint reassemble_loop (todo : nat) (i : N) (chunks : gmap N DataChunk)
    (reassembled : list byte) : option (list byte) :=
  match todo with
  | O => Some reassembled
  | S todo' =>
      match chunks !! i with
      | None => None
      | Some c => reassemble_loop todo' (i + 1) chunks (reassembled ++ data c)
      end
  end.

Definition reassembleData (transfer : N) (st : t) : bool * t :=
  match receivedChunks_ st !! transfer with
  | None => (false, st)
  | Some chunks =>
      match keys_in_order chunks with
      | [] => (false, st)
      | first :: _ =>
          let expectedChunks :=
            match chunks !! first with Some c => totalChunks c | None => 0 end in
          if bool_decide (N.of_nat (size chunks) < expectedChunks) then (false, st)
          else
            match reassemble_loop (N.to_nat expectedChunks) 0 chunks [] with
            | None => (false, st)
            | Some reassembled =>
                let '(source, dtype) :=
                  match incomingTransfers_ st !! transfer with
                  | Some tr => (sourceID tr, dataType tr)
                  | None => (0, ""%string)
                  end in
                (true,
                 mk (selfID st) (chunkSize_ st) (outgoingTransfers_ st)
                    (incomingTransfers_ st) (receivedChunks_ st)
                    (<[transfer := reassembled]> (completedData_ st))
                    (onDataReceived_ st) (onTransferComplete_ st)
                    (onTransferProgress_ st) (receivedDataSize_ st)
                    (completedTransfers_ st) (failedTransfers_ st)
                    (fired st ++
                       if onDataReceived_ st && negb (bool_decide (source = 0))
                       then [DataReceived source reassembled dtype] else []))
            end
      end
  end.

Definition finish (success : bool) (now : Z) (tr : DataTransfer) : DataTransfer :=
  mkTransfer (transferID tr) (sourceID tr) (destinationID tr) (dataType tr)
    (totalSize tr) (transferredSize tr)
    (if success then COMPLETED else FAILED) (startTime tr) now.

Definition markTransferComplete (transfer : N) (success : bool) (now : Z) (st : t) : t :=
  let out := is_Some (outgoingTransfers_ st !! transfer) in
  mk (selfID st) (chunkSize_ st)
     (alter (finish success now) transfer (outgoingTransfers_ st))
     (alter (finish success now) transfer (incomingTransfers_ st))
     (receivedChunks_ st) (completedData_ st)
     (onDataReceived_ st) (onTransferComplete_ st) (onTransferProgress_ st)
     (receivedDataSize_ st)
     (if bool_decide out && success
      then wrap64 (completedTransfers_ st + 1) else completedTransfers_ st)
     (if bool_decide out && negb success
      then wrap64 (failedTransfers_ st + 1) else failedTransfers_ st)
     (fired st ++
        if bool_decide out && onTransferComplete_ st
        then [TransferComplete transfer success] else []).

(** [receivedChunks_[transferID][chunk.sequenceNumber] = chunk]. *)
Definition store_chunk (chunk : DataChunk)
    (table : gmap N (gmap N DataChunk)) : gmap N (gmap N DataChunk) :=
  <[chunkID chunk :=
      <[sequenceNumber chunk := chunk]> (default ∅ (table !! chunkID chunk))]> table.

Definition handleDataChunk (chunk : DataChunk) (source : N) (now : Z) (st : t) : t :=
  let transfer := chunkID chunk in
  let size := N.of_nat (length (data chunk)) in
  let fresh :=
    mkTransfer transfer source (selfID st) "" 0 0 IN_PROGRESS now 0 in
  let tr := default fresh (incomingTransfers_ st !! transfer) in
  let moved := wrap64 (transferredSize tr + size) in
  let tr := mkTransfer (transferID tr) (sourceID tr) (destinationID tr)
              (dataType tr)
              (if isLastChunk chunk then moved else totalSize tr)
              moved (status tr) (startTime tr) now in
  let st := mk (selfID st) (chunkSize_ st) (outgoingTransfers_ st)
               (<[transfer := tr]> (incomingTransfers_ st))
               (store_chunk chunk (receivedChunks_ st)) (completedData_ st)
               (onDataReceived_ st) (onTransferComplete_ st)
               (onTransferProgress_ st) (wrap64 (receivedDataSize_ st + size))
               (completedTransfers_ st) (failedTransfers_ st) (fired st) in
  let '(complete, st) := reassembleData transfer st in
  let st := if complete then markTransferComplete transfer true now st else st in
  match incomingTransfers_ st !! transfer with
  | Some tr' =>
      if onTransferProgress_ st then
        mk (selfID st) (chunkSize_ st) (outgoingTransfers_ st)
           (incomingTransfers_ st) (receivedChunks_ st) (completedData_ st)
           (onDataReceived_ st) (onTransferComplete_ st)
           (onTransferProgress_ st) (receivedDataSize_ st)
           (completedTransfers_ st) (failedTransfers_ st)
           (fired st ++ [TransferProgress transfer (transferredSize tr') (totalSize tr')])
      else st
  | None => st
  end.

Definition getReceivedData (transfer : N) (st : t) : list byte :=
  default [] (completedData_ st !! transfer).

(** Chunks arriving one after the other from [source]. *)
Definition receive_chunks (chunks : list DataChunk) (source : N) (now : Z) (st : t) : t :=
  foldl (λ s c, handleDataChunk c source now s) st chunks.

End DataExchange.

(** Number of chunks [⌈n / cs⌉], without wrap-around. *)
Definition ceil_div (n cs : N) : N := (n + cs - 1) / cs.

(** ** ReliableMessaging *)

Module ReliableMessaging.

Inductive AckStatus : Set := PENDING | ACKNOWLEDGED | TIMEOUT | FAILED.

#[global] Instance AckStatus_eq_dec : EqDecision AckStatus.
Proof. solve_decision. Defined.

Record ReliableMessage : Type := mkReliable {
  messageID : N;
  message : Message;
  destinationID : N;
  ackStatus : AckStatus;
  retryCount : Z;
  sendTime : Z;
  lastRetry : Z
}.

Inductive event : Type :=
  | Delivered (id sender : N)
  | Failed (id destination : N).

Record t : Type := mk {
  networkManager_ : NetworkManager.t;
  pendingMessages_ : gmap N ReliableMessage;
  onMessageDelivered_ : bool;
  onMessageFailed_ : bool;
  sentMessages_ : N;
  acknowledgedMessages_ : N;
  failedMessages_ : N;
  fired : list event
}.

Definition with_status (s : AckStatus) (m : ReliableMessage) : ReliableMessage :=
  mkReliable (messageID m) (message m) (destinationID m) s
    (retryCount m) (sendTime m) (lastRetry m).

Definition acknowledgeMessage (id sender : N) (st : t) : bool * t :=
  match pendingMessages_ st !! id with
  | Some m =>
      (true,
       mk (networkManager_ st)
          (<[id := with_status ACKNOWLEDGED m]> (pendingMessages_ st))
          (onMessageDelivered_ st) (onMessageFailed_ st) (sentMessages_ st)
          (wrap64 (acknowledgedMessages_ st + 1)) (failedMessages_ st)
          (fired st ++ if onMessageDelivered_ st then [Delivered id sender] else []))
  | None => (false, st)
  end.

Definition isMessageAcknowledged (id : N) (st : t) : bool :=
  match pendingMessages_ st !! id with
  | Some m => bool_decide (ackStatus m = ACKNOWLEDGED)
  | None => false
  end.

Definition markMessageFailed (id : N) (st : t) : t :=
  match pendingMessages_ st !! id with
  | Some m =>
      mk (networkManager_ st) (delete id (pendingMessages_ st))
         (onMessageDelivered_ st) (onMessageFailed_ st) (sentMessages_ st)
         (acknowledgedMessages_ st) (wrap64 (failedMessages_ st + 1))
         (fired st ++ if onMessageFailed_ st then [Failed id (destinationID m)] else [])
  | None => st
  end.

Definition sendWithRetry (m : ReliableMessage) (st : t) : bool * t :=
  let '(ok, nm) :=
    NetworkManager.sendMessageToPeer (destinationID m) (message m)
      (networkManager_ st) in
  (ok, mk nm (pendingMessages_ st) (onMessageDelivered_ st) (onMessageFailed_ st)
          (sentMessages_ st) (acknowledgedMessages_ st) (failedMessages_ st)
          (fired st)).

(** [id] is the value drawn by [generateMessageID]. *)
Definition sendReliableMessage (target : N) (msg : Message) (id : N) (now : Z)
    (st : t) : N * t :=
  let record := mkReliable id msg target PENDING 0 now now in
  let '(ok, nm) :=
    NetworkManager.sendMessageToPeer target msg (networkManager_ st) in
  let st := mk nm (<[id := record]> (pendingMessages_ st))
              (onMessageDelivered_ st) (onMessageFailed_ st) (sentMessages_ st)
              (acknowledgedMessages_ st) (failedMessages_ st) (fired st) in
  if ok then
    (id, mk (networkManager_ st) (pendingMessages_ st) (onMessageDelivered_ st)
            (onMessageFailed_ st) (wrap64 (sentMessages_ st + 1))
            (acknowledgedMessages_ st) (failedMessages_ st) (fired st))
  else (0, markMessageFailed id st).

(** First block of [retryPendingMessages]: one round of the loop that fills
    [toRetry] and [toFail]. *)
Definition select_step (now timeoutSeconds maxRetries : Z)
    (pending : gmap N ReliableMessage) (acc : list N * list N) (id : N)
    : list N * list N :=
  match pending !! id with
  | None => acc
  | Some m =>
      if bool_decide (ackStatus m = ACKNOWLEDGED) then acc
      else if bool_decide (timeoutSeconds ≤ elapsed_seconds now (lastRetry m))%Z then
        if bool_decide (retryCount m < maxRetries)%Z
        then (acc.1 ++ [id], acc.2)
        else (acc.1, acc.2 ++ [id])
      else acc
  end.

Definition retry_selection (now timeoutSeconds maxRetries : Z) (st : t)
    : list N * list N :=
  foldl (select_step now timeoutSeconds maxRetries (pendingMessages_ st))
    ([], []) (keys_in_order (pendingMessages_ st)).

(** Second block: one round of the loop over [toRetry].  [nowAt id] is the
    clock reading taken while the record of [id] is updated.  [retryCount] is
    below [maxRetries] here, so the increment cannot overflow. *)
Definition bump (at_time : Z) (m : ReliableMessage) : ReliableMessage :=
  mkReliable (messageID m) (message m) (destinationID m)
    (ackStatus m) (retryCount m + 1) (sendTime m) at_time.

Definition retry_one (nowAt : N → Z) (st : t) (id : N) : t :=
  match pendingMessages_ st !! id with
  | Some m =>
      let st := mk (networkManager_ st)
                  (<[id := bump (nowAt id) m]> (pendingMessages_ st))
                  (onMessageDelivered_ st) (onMessageFailed_ st) (sentMessages_ st)
                  (acknowledgedMessages_ st) (failedMessages_ st) (fired st) in
      (sendWithRetry m st).2
  | None => st
  end.

Definition retryPendingMessages (now : Z) (nowAt : N → Z)
    (timeoutSeconds maxRetries : Z) (st : t) : t :=
  let '(toRetry, toFail) := retry_selection now timeoutSeconds maxRetries st in
  let st := foldl (retry_one nowAt) st toRetry in
  foldl (λ s id, markMessageFailed id s) st toFail.

Definition cleanupAcknowledgedMessages (now timeoutSeconds : Z) (st : t) : t :=
  mk (networkManager_ st)
     (filter (λ kv, ¬ (ackStatus kv.2 = ACKNOWLEDGED
                       ∧ (timeoutSeconds < elapsed_seconds now (sendTime kv.2))%Z))
        (pendingMessages_ st))
     (onMessageDelivered_ st) (onMessageFailed_ st) (sentMessages_ st)
     (acknowledgedMessages_ st) (failedMessages_ st) (fired st).

(** Calls made on the component over time. *)
Inductive call : Type :=
  | Retry (now : Z) (nowAt : N → Z) (timeoutSeconds : Z)
  | Ack (id sender : N).

Definition perform (maxRetries : Z) (st : t) (c : call) : t :=
  match c with
  | Retry now nowAt timeoutSeconds =>
      retryPendingMessages now nowAt timeoutSeconds maxRetries st
  | Ack id sender => (acknowledgeMessage id sender st).2
  end.

(** How often the record [id] is picked for a re-send along [calls]. *)
Fixpoint times_retried (id : N) (maxRetries : Z) (calls : list call) (st : t) : nat :=
  match calls with
  | [] => O
  | c :: rest =>
      (match c with
       | Retry now _ timeoutSeconds =>
           if bool_decide (id ∈ (retry_selection now timeoutSeconds maxRetries st).1)
           then 1 else 0
       | Ack _ _ => 0
       end + times_retried id maxRetries rest (perform maxRetries st c))%nat
  end.

End ReliableMessaging.

(** ** MessageRouter *)

Module MessageRouter.

Inductive RoutingStrategy : Set := DIRECT | SHORTEST_PATH | FLOOD | GOSSIP.

Record t : Type := mk {
  node_ : Node.t;
  networkManager_ : NetworkManager.t;
  topologyManager_ : TopologyManager.t;
  seenMessages_ : gmap N Z;
  routedMessageCount_ : N;
  forwardedMessageCount_ : N;
  totalHopCount_ : N
}.

Definition with_network (nm : NetworkManager.t) (r : t) : t :=
  mk (node_ r) nm (topologyManager_ r) (seenMessages_ r)
     (routedMessageCount_ r) (forwardedMessageCount_ r) (totalHopCount_ r).

Definition send (peer : N) (message : Message) (r : t) : bool * t :=
  let '(ok, nm) := NetworkManager.sendMessageToPeer peer message (networkManager_ r) in
  (ok, with_network nm r).

Definition findRoute (r : t) (targetID : N) : list N :=
  if Node.hasPeer (node_ r) targetID then [Node.getID (node_ r); targetID]
  else TopologyManager.findPath (topologyManager_ r) (Node.getID (node_ r)) targetID.

Definition routeMessageMultiHop (targetID : N) (message : Message) (r : t) : bool * t :=
  match findRoute r targetID with
  | [] => (false, r)
  | [_] => send targetID message r
  | _ :: nextHop :: _ =>
      let hops := N.of_nat (length (findRoute r targetID)) - 1 in
      send nextHop message
        (mk (node_ r) (networkManager_ r) (topologyManager_ r) (seenMessages_ r)
            (routedMessageCount_ r) (forwardedMessageCount_ r)
            (wrap64 (totalHopCount_ r + hops)))
  end.

Definition routeMessageDirect (targetID : N) (message : Message) (r : t) : bool * t :=
  if Node.hasPeer (node_ r) targetID then send targetID message r
  else routeMessageMultiHop targetID message r.

Definition generateMessageID (message : Message) : N :=
  N.lxor (N.lxor (senderID message) (receiverID message)) (timestamp message).

Definition floodMessage (message : Message) (now : Z) (r : t) : bool * t :=
  let msgID := generateMessageID message in
  if bool_decide (is_Some (seenMessages_ r !! msgID)) then (false, r)
  else
    let r := mk (node_ r) (networkManager_ r) (topologyManager_ r)
                (<[msgID := now]> (seenMessages_ r))
                (routedMessageCount_ r) (forwardedMessageCount_ r)
                (totalHopCount_ r) in
    let '(success, r) :=
      foldl (λ '(success, r) peerID,
               if bool_decide (peerID ≠ senderID message) then
                 let '(ok, r) := send peerID message r in
                 (success && ok, r)
               else (success, r))
            (true, r) (Node.getPeerIDs (node_ r)) in
    (success,
     mk (node_ r) (networkManager_ r) (topologyManager_ r) (seenMessages_ r)
        (routedMessageCount_ r) (wrap64 (forwardedMessageCount_ r + 1))
        (totalHopCount_ r)).

Definition routeMessage (message : Message) (strategy : RoutingStrategy)
    (now : Z) (r : t) : bool * t :=
  let r := mk (node_ r) (networkManager_ r) (topologyManager_ r) (seenMessages_ r)
              (wrap64 (routedMessageCount_ r + 1)) (forwardedMessageCount_ r)
              (totalHopCount_ r) in
  match strategy with
  | DIRECT => routeMessageDirect (receiverID message) message r
  | SHORTEST_PATH => routeMessageMultiHop (receiverID message) message r
  | FLOOD => floodMessage message now r
  | GOSSIP => routeMessageMultiHop (receiverID message) message r
  end.

(** [static_cast<int>(route.size()) - 1]. *)
Definition getHopCount (r : t) (targetID : N) : Z :=
  match findRoute r targetID with
  | [] => (-1)%Z
  | route => (static_cast_int (N.of_nat (length route)) - 1)%Z
  end.

Definition isReachable (r : t) (targetID : N) : bool :=
  match findRoute r targetID with
  | [] => false
  | _ => true
  end.

(** Routing [hopCount <= 0] check, destination check, then the next hop. *)
Definition forwardMessage (message : Message) (hopCount : Z) (r : t) : bool * t :=
  if bool_decide (hopCount ≤ 0)%Z then (false, r)
  else if bool_decide (receiverID message = Node.getID (node_ r)) then (true, r)
  else
    match findRoute r (receiverID message) with
    | _ :: nextHop :: _ =>
        send nextHop message
          (mk (node_ r) (networkManager_ r) (topologyManager_ r) (seenMessages_ r)
              (routedMessageCount_ r) (wrap64 (forwardedMessageCount_ r + 1))
              (totalHopCount_ r))
    | _ => (false, r)
    end.

Definition handleIncomingRoute (message : Message) (hopCount : Z) (r : t) : t :=
  if bool_decide (receiverID message = Node.getID (node_ r)) then r
  else (forwardMessage message hopCount r).2.

Definition computeShortestPath (r : t) (targetID : N) : list N :=
  TopologyManager.findPath (topologyManager_ r) (Node.getID (node_ r)) targetID.

(** *** Flood bookkeeping *)

Definition isMessageSeen (messageID : N) (r : t) : bool :=
  bool_decide (is_Some (seenMessages_ r !! messageID)).

Definition markMessageSeen (messageID : N) (now : Z) (r : t) : t :=
  mk (node_ r) (networkManager_ r) (topologyManager_ r)
     (<[messageID := now]> (seenMessages_ r))
     (routedMessageCount_ r) (forwardedMessageCount_ r) (totalHopCount_ r).

Definition cleanupSeenMessages (now timeoutSeconds : Z) (r : t) : t :=
  mk (node_ r) (networkManager_ r) (topologyManager_ r)
     (filter (λ kv, ¬ (timeoutSeconds < elapsed_seconds now kv.2)%Z)
        (seenMessages_ r))
     (routedMessageCount_ r) (forwardedMessageCount_ r) (totalHopCount_ r).

(** *** The routing table: the maps guarded by [routingTableMutex_] *)

Record RoutingTable : Type := mkTable {
  routingTable_ : gmap N N;
  hopCounts_ : gmap N Z;
  routeTimestamps_ : gmap N Z
}.

(** [nowAt target] is the clock reading taken for the entry of [target]. *)
Definition updateRoutingTable (nowAt : N → Z) (r : t) (table : RoutingTable)
    : outcome RoutingTable :=
  allNodes ←! TopologyManager.getAllNodeIDs false (topologyManager_ r);
  let selfID := Node.getID (node_ r) in
  Returns
    (foldl (λ table targetID,
              if bool_decide (targetID = selfID) then table
              else
                let path :=
                  TopologyManager.findPath (topologyManager_ r) selfID targetID in
                match path with
                | _ :: nextHop :: _ =>
                    mkTable (<[targetID := nextHop]> (routingTable_ table))
                      (<[targetID := (static_cast_int (N.of_nat (length path)) - 1)%Z]>
                         (hopCounts_ table))
                      (<[targetID := nowAt targetID]> (routeTimestamps_ table))
                | _ => table
                end)
           (mkTable ∅ ∅ (routeTimestamps_ table)) allNodes).

Definition clearRoutingTable (table : RoutingTable) : RoutingTable :=
  mkTable ∅ ∅ ∅.

Definition getRoutingTable (r : t) (table : RoutingTable) : gmap N (list N) :=
  map_imap (λ target _,
              Some (TopologyManager.findPath (topologyManager_ r)
                      (Node.getID (node_ r)) target))
           (routingTable_ table).

Definition getNextHop (r : t) (table : RoutingTable) (targetID : N) : N :=
  match routingTable_ table !! targetID with
  | Some nextHop => nextHop
  | None =>
      match computeShortestPath r targetID with
      | _ :: nextHop :: _ => nextHop
      | _ => 0
      end
  end.

End MessageRouter.

(** ** DynamicNodeManager: membership and failure detection *)

Module DynamicNodeManager.

Inductive NodeState : Set := JOINING | ACTIVE | LEAVING | FAILED | UNKNOWN.

#[global] Instance NodeState_eq_dec : EqDecision NodeState.
Proof. solve_decision. Defined.

Record NodeInfo : Type := mkInfo {
  nodeID : N;
  address : NetworkAddress;
  state : NodeState;
  lastSeen : Z;
  joinTime : Z;
  failureCount : Z
}.

Inductive event : Type :=
  | NodeAdded (id : N) (address : NetworkAddress)
  | NodeRemoved (id : N)
  | NodeFailed (id : N)
  | NetworkRepaired.

(** [node_], [networkManager_] and [topologyManager_] are the objects shared
    with the other components. *)
Record t : Type := mk {
  node_ : Node.t;
  networkManager_ : NetworkManager.t;
  topologyManager_ : TopologyManager.t;
  nodeRegistry_ : gmap N NodeInfo;
  onNodeAdded_ : bool;
  onNodeRemoved_ : bool;
  onNodeFailed_ : bool;
  onNetworkRepaired_ : bool;
  fired : list event
}.

Definition with_registry (reg : gmap N NodeInfo) (dm : t) : t :=
  mk (node_ dm) (networkManager_ dm) (topologyManager_ dm) reg
     (onNodeAdded_ dm) (onNodeRemoved_ dm) (onNodeFailed_ dm)
     (onNetworkRepaired_ dm) (fired dm).

Definition with_node (n : Node.t) (dm : t) : t :=
  mk n (networkManager_ dm) (topologyManager_ dm) (nodeRegistry_ dm)
     (onNodeAdded_ dm) (onNodeRemoved_ dm) (onNodeFailed_ dm)
     (onNetworkRepaired_ dm) (fired dm).

Definition with_network (nm : NetworkManager.t) (dm : t) : t :=
  mk (node_ dm) nm (topologyManager_ dm) (nodeRegistry_ dm)
     (onNodeAdded_ dm) (onNodeRemoved_ dm) (onNodeFailed_ dm)
     (onNetworkRepaired_ dm) (fired dm).

Definition with_topology (tm : TopologyManager.t) (dm : t) : t :=
  mk (node_ dm) (networkManager_ dm) tm (nodeRegistry_ dm)
     (onNodeAdded_ dm) (onNodeRemoved_ dm) (onNodeFailed_ dm)
     (onNetworkRepaired_ dm) (fired dm).

Definition fire (installed : bool) (e : event) (dm : t) : t :=
  mk (node_ dm) (networkManager_ dm) (topologyManager_ dm) (nodeRegistry_ dm)
     (onNodeAdded_ dm) (onNodeRemoved_ dm) (onNodeFailed_ dm)
     (onNetworkRepaired_ dm)
     (fired dm ++ if installed then [e] else []).

Definition with_state (s : NodeState) (info : NodeInfo) : NodeInfo :=
  mkInfo (nodeID info) (address info) s (lastSeen info) (joinTime info)
    (failureCount info).

Definition with_failureCount (c : Z) (info : NodeInfo) : NodeInfo :=
  mkInfo (nodeID info) (address info) (state info) (lastSeen info)
    (joinTime info) c.

Definition validateNodeAddition (id : N) (addr : NetworkAddress) (dm : t) : bool :=
  if bool_decide (id = 0 ∨ port addr = 0 ∨ host addr = ""%string) then false
  else if bool_decide (id = Node.getID (node_ dm)) then false
  else true.

(** The helpers below take [nodesMutex_]; [held] tells whether the caller
    already owns it. *)
Definition incrementFailureCount (held : bool) (id : N)
    (reg : gmap N NodeInfo) : outcome (gmap N NodeInfo) :=
  lock_guard held
    (Returns (alter (λ info, with_failureCount (failureCount info + 1) info) id reg)).

Definition resetFailureCount (held : bool) (id : N)
    (reg : gmap N NodeInfo) : outcome (gmap N NodeInfo) :=
  lock_guard held (Returns (alter (with_failureCount 0) id reg)).

Definition shouldRemoveNode (held : bool) (id : N)
    (reg : gmap N NodeInfo) : outcome bool :=
  lock_guard held
    (Returns match reg !! id with
             | Some info => bool_decide (3 ≤ failureCount info)%Z
             | None => false
             end).

Definition findReplacementConnections (removedNodeID : N) (dm : t)
    : outcome (list N) :=
  allNodes ←! TopologyManager.getAllNodeIDs false (topologyManager_ dm);
  Returns
    (filter (λ id, ¬ (id = Node.getID (node_ dm) ∨ id = removedNodeID)
                   ∧ Node.hasPeer (node_ dm) id = false
                   ∧ Node.getPeerCount (node_ dm) < MAX_PEERS)
       allNodes).

Fixpoint establishReplacementConnections (replacements : list N) (success : bool)
    (dm : t) : bool * t :=
  match replacements with
  | [] => (success, dm)
  | id :: rest =>
      if bool_decide (MAX_PEERS ≤ Node.getPeerCount (node_ dm)) then (success, dm)
      else
        let addr := TopologyManager.getNodeAddress id (topologyManager_ dm) in
        if bool_decide (port addr ≠ 0) then
          let '(added, n) := Node.addPeer (node_ dm) id addr in
          let success :=
            if added && NetworkManager.connectToPeer addr (networkManager_ dm)
            then true else success in
          establishReplacementConnections rest success (with_node n dm)
        else establishReplacementConnections rest success dm
  end.

Definition repairNetworkAfterNodeRemoval (removedNodeID : N) (dm : t)
    : outcome (bool * t) :=
  connected ←! TopologyManager.isTopologyConnected false (topologyManager_ dm);
  tm ←! (if negb connected
         then TopologyManager.repairTopology (topologyManager_ dm)
         else Returns (topologyManager_ dm));
  let dm := with_topology tm dm in
  replacements ←! findReplacementConnections removedNodeID dm;
  let dm := match replacements with
            | [] => dm
            | _ => (establishReplacementConnections replacements false dm).2
            end in
  checked ←! TopologyManager.checkNetworkIntegrity (topologyManager_ dm);
  let '(integrityOK, tm) := checked in
  let dm := with_topology tm dm in
  Returns (integrityOK,
           if integrityOK then fire (onNetworkRepaired_ dm) NetworkRepaired dm
           else dm).

(** [removeNodeForced] and [removeNodeGracefully] differ in the state they
    write before erasing the record and in the callback they fire. *)
Definition remove_with (final : NodeState) (notify : t → bool) (e : N → event)
    (held : bool) (id : N) (dm : t) : outcome (bool * t) :=
  lock_guard held
    match nodeRegistry_ dm !! id with
    | None => Returns (false, dm)
    | Some info =>
        let dm := with_registry (<[id := with_state final info]> (nodeRegistry_ dm)) dm in
        let dm := with_node (Node.removePeer (node_ dm) id).2 dm in
        let dm := with_network
                    (NetworkManager.disconnectFromPeer id (networkManager_ dm)).2 dm in
        let dm := with_topology
                    (TopologyManager.removeNode id (topologyManager_ dm)).2 dm in
        let dm := with_registry (delete id (nodeRegistry_ dm)) dm in
        let dm := fire (notify dm) (e id) dm in
        repaired ←! repairNetworkAfterNodeRemoval id dm;
        Returns (true, repaired.2)
    end.

Definition removeNodeForced : bool → N → t → outcome (bool * t) :=
  remove_with FAILED onNodeFailed_ NodeFailed.

Definition removeNodeGracefully : bool → N → t → outcome (bool * t) :=
  remove_with LEAVING onNodeRemoved_ NodeRemoved.

Definition addNode (id : N) (addr : NetworkAddress) (now : Z) (dm : t) : bool * t :=
  if negb (validateNodeAddition id addr dm) then (false, dm)
  else if bool_decide (is_Some (nodeRegistry_ dm !! id)) then (false, dm)
  else
    let info := mkInfo id addr JOINING now now 0 in
    let '(added, tm) := TopologyManager.addNode id addr (topologyManager_ dm) in
    if negb added then (false, dm)
    else
      let dm := with_topology tm dm in
      let dm :=
        if bool_decide (Node.getPeerCount (node_ dm) < MAX_PEERS)
        then with_node (Node.addPeer (node_ dm) id addr).2 dm else dm in
      let dm := with_registry (<[id := with_state ACTIVE info]> (nodeRegistry_ dm)) dm in
      (true, fire (onNodeAdded_ dm) (NodeAdded id addr) dm).

(** One round of the sweep of [detectFailedNodes], run while [nodesMutex_] is
    owned ([held = true] in the code). *)
Definition sweep_step (held : bool) (now timeoutSeconds : Z)
    (acc : outcome (gmap N NodeInfo * list N)) (id : N)
    : outcome (gmap N NodeInfo * list N) :=
  acc ←! acc;
  let '(reg, failedNodes) := acc in
  match reg !! id with
  | None => Returns (reg, failedNodes)
  | Some info =>
      if bool_decide (state info ≠ ACTIVE) then Returns (reg, failedNodes)
      else if bool_decide (timeoutSeconds < elapsed_seconds now (lastSeen info))%Z then
        reg ←! incrementFailureCount held id reg;
        remove ←! shouldRemoveNode held id reg;
        Returns (reg, if remove then failedNodes ++ [id] else failedNodes)
      else
        reg ←! resetFailureCount held id reg;
        Returns (reg, failedNodes)
  end.

Definition sweep (held : bool) (now timeoutSeconds : Z) (reg : gmap N NodeInfo)
    : outcome (gmap N NodeInfo * list N) :=
  foldl (sweep_step held now timeoutSeconds) (Returns (reg, [])) (keys_in_order reg).

Definition remove_failed (failedNodes : list N) (dm : t) : outcome t :=
  foldl (λ acc id, dm ←! acc;
                   removed ←! removeNodeForced false id dm;
                   Returns removed.2)
        (Returns dm) failedNodes.

Definition detectFailedNodes (now timeoutSeconds : Z) (dm : t) : outcome t :=
  swept ←! lock_guard false (sweep true now timeoutSeconds (nodeRegistry_ dm));
  let '(reg, failedNodes) := swept in
  remove_failed failedNodes (with_registry reg dm).

(** The heartbeat handler at work on the objects it shares with the
    membership manager. *)
Definition deliverHeartbeat (message : Message) (now : Z) (nowMs : N) (dm : t) : t :=
  let h := MessageHandler.handleHeartbeat message now nowMs
             (MessageHandler.mk (node_ dm) (networkManager_ dm) (topologyManager_ dm)) in
  mk (MessageHandler.node_ h) (MessageHandler.networkManager_ h)
     (MessageHandler.topologyManager_ h) (nodeRegistry_ dm)
     (onNodeAdded_ dm) (onNodeRemoved_ dm) (onNodeFailed_ dm)
     (onNetworkRepaired_ dm) (fired dm).

(** *** The other operations of the manager *)

Definition addNodeWithValidation (id : N) (addr : NetworkAddress) (now : Z) (dm : t)
    : bool * t :=
  if bool_decide (id = Node.getID (node_ dm)) then (false, dm)
  else if TopologyManager.nodeExists id (topologyManager_ dm) then (false, dm)
  else addNode id addr now dm.

(** [nowAt id] is the clock reading of the [addNode] of [id]. *)
Definition addNodesFromList (nodes : list (N * NetworkAddress)) (nowAt : N → Z)
    (dm : t) : list N * t :=
  foldl (λ '(addedNodes, dm) '(id, addr),
           let '(added, dm) := addNode id addr (nowAt id) dm in
           (if added then addedNodes ++ [id] else addedNodes, dm))
        ([], dm) nodes.

Definition removeNode (id : N) (graceful : bool) (dm : t) : outcome (bool * t) :=
  if graceful then removeNodeGracefully false id dm
  else removeNodeForced false id dm.

Definition getNodeState (id : N) (dm : t) : NodeState :=
  match nodeRegistry_ dm !! id with
  | Some info => state info
  | None => UNKNOWN
  end.

Definition setNodeState (id : N) (s : NodeState) (dm : t) : t :=
  with_registry (alter (with_state s) id (nodeRegistry_ dm)) dm.

Definition getNodesByState (s : NodeState) (dm : t) : list N :=
  filter (λ id, state <$> nodeRegistry_ dm !! id = Some s)
    (keys_in_order (nodeRegistry_ dm)).

Definition getFailedNodes (dm : t) : list N := getNodesByState FAILED dm.

Definition getActiveNodeCount (dm : t) : N :=
  N.of_nat (length (getNodesByState ACTIVE dm)).

Definition getFailedNodeCount (dm : t) : N :=
  N.of_nat (length (getNodesByState FAILED dm)).

Definition handleTopologyChange (changedNodeID : N) (added : bool) (dm : t) : t :=
  setNodeState changedNodeID (if added then ACTIVE else FAILED) dm.

(** [updateNodeLastSeen] takes [nodesMutex_] and, for a registered node,
    calls [resetFailureCount], which takes it again. *)
Definition updateNodeLastSeen (now : Z) (id : N) (dm : t) : outcome t :=
  lock_guard false
    match nodeRegistry_ dm !! id with
    | Some info =>
        let reg :=
          <[id := mkInfo (nodeID info) (address info) (state info) now
                    (joinTime info) (failureCount info)]> (nodeRegistry_ dm) in
        reg ←! resetFailureCount true id reg;
        Returns (with_registry reg dm)
    | None => Returns dm
    end.

Definition recoverFromNodeFailure (failedNodeID : N) (dm : t) : outcome (bool * t) :=
  replacements ←! findReplacementConnections failedNodeID dm;
  match replacements with
  | [] => Returns (false, dm)
  | _ => Returns (establishReplacementConnections replacements false dm)
  end.

(** The loop of [ensureConnectivity] over the registered nodes. *)
Fixpoint connect_more (allNodes : list N) (dm : t) : t :=
  match allNodes with
  | [] => dm
  | id :: rest =>
      if bool_decide (id = Node.getID (node_ dm)) then connect_more rest dm
      else if Node.hasPeer (node_ dm) id then connect_more rest dm
      else if bool_decide (MAX_PEERS ≤ Node.getPeerCount (node_ dm)) then dm
      else
        let addr := TopologyManager.getNodeAddress id (topologyManager_ dm) in
        if bool_decide (port addr ≠ 0)
        then connect_more rest (with_node (Node.addPeer (node_ dm) id addr).2 dm)
        else connect_more rest dm
  end.

Definition ensureConnectivity (dm : t) : outcome (bool * t) :=
  dm ←! (if bool_decide (Node.getPeerCount (node_ dm) < MAX_PEERS) then
           allNodes ←! TopologyManager.getAllNodeIDs false (topologyManager_ dm);
           Returns (connect_more allNodes dm)
         else Returns dm);
  connected ←! TopologyManager.isTopologyConnected false (topologyManager_ dm);
  Returns (connected, dm).

(** [now] is the clock reading of the sweep of [detectFailedNodes]. *)
Definition maintainNetworkIntegrity (now : Z) (dm : t) : outcome (bool * t) :=
  tm ←! TopologyManager.validateTopology false (topologyManager_ dm);
  connected ←! TopologyManager.isTopologyConnected false tm;
  tm ←! (if negb connected then TopologyManager.repairTopology tm else Returns tm);
  dm ←! detectFailedNodes now NODE_TIMEOUT_SEC (with_topology tm dm);
  ensureConnectivity dm.

End DynamicNodeManager.

(** ** NodeRegistration *)

Module NodeRegistration.

Inductive RegistrationStatus : Set := PENDING | REGISTERED | REJECTED | FAILED.

Record RegistrationRequest : Type := mkRequest {
  nodeID : N;
  address : NetworkAddress;
  nodeInfo : string;
  timestamp : N;
  status : RegistrationStatus
}.

Record t : Type := mk {
  node_ : Node.t;
  networkManager_ : NetworkManager.t;
  topologyManager_ : TopologyManager.t;
  registrationStatus_ : RegistrationStatus;
  pendingRegistrations_ : gmap N RegistrationRequest
}.

Definition with_status (s : RegistrationStatus) (request : RegistrationRequest)
    : RegistrationRequest :=
  mkRequest (nodeID request) (address request) (nodeInfo request)
    (timestamp request) s.

Definition validateNodeID (id : N) (nr : t) : bool :=
  if bool_decide (id = 0) then false
  else if bool_decide (id = Node.getID (node_ nr)) then false
  else true.

(** [Port] is [uint16_t]: the comparison with 65535 is kept as written. *)
Definition validateAddress (addr : NetworkAddress) (nr : t) : bool :=
  if bool_decide (host addr = ""%string ∨ port addr = 0) then false
  else if bool_decide (port addr < 1024 ∨ 65535 < port addr) then false
  else if bool_decide (host addr = host (Node.getAddress (node_ nr))
                       ∧ port addr = port (Node.getAddress (node_ nr))) then false
  else true.

Definition rejectRegistration (id : N) (nr : t) : bool * t :=
  (true,
   mk (node_ nr) (networkManager_ nr) (topologyManager_ nr) (registrationStatus_ nr)
      (alter (with_status REJECTED) id (pendingRegistrations_ nr))).

Definition acceptRegistration (id : N) (addr : NetworkAddress) (nr : t) : bool * t :=
  let '(added, tm) := TopologyManager.addNode id addr (topologyManager_ nr) in
  if negb added then (false, nr)
  else
    let '(peered, n) := Node.addPeer (node_ nr) id addr in
    if negb peered then
      (false,
       mk (node_ nr) (networkManager_ nr) (TopologyManager.removeNode id tm).2
          (registrationStatus_ nr) (pendingRegistrations_ nr))
    else
      (true,
       mk n (networkManager_ nr) tm (registrationStatus_ nr)
          (alter (with_status REGISTERED) id (pendingRegistrations_ nr))).

End NodeRegistration.

(** ** NodeDiscovery *)

Module NodeDiscovery.

Inductive event : Type :=
  | PeerDiscovered (id : N) (address : NetworkAddress)
  | DiscoveryFailed (address : NetworkAddress).

Record t : Type := mk {
  node_ : Node.t;
  networkManager_ : NetworkManager.t;
  topologyManager_ : TopologyManager.t;
  discoveryActive_ : bool;
  discoveredNodes_ : gmap N NetworkAddress;
  discoveryTimestamps_ : gmap N Z;
  onPeerDiscovered_ : bool;
  onDiscoveryFailed_ : bool;
  fired : list event
}.

Definition validateNodeAddress (addr : NetworkAddress) (nd : t) : bool :=
  if bool_decide (host addr = ""%string ∨ port addr = 0) then false
  else if bool_decide (host addr = host (Node.getAddress (node_ nd))
                       ∧ port addr = port (Node.getAddress (node_ nd))) then false
  else true.

Definition addDiscoveredNode (id : N) (addr : NetworkAddress) (now : Z) (nd : t) : t :=
  mk (node_ nd) (networkManager_ nd) (topologyManager_ nd) (discoveryActive_ nd)
     (<[id := addr]> (discoveredNodes_ nd)) (<[id := now]> (discoveryTimestamps_ nd))
     (onPeerDiscovered_ nd) (onDiscoveryFailed_ nd) (fired nd).

Definition notify (e : event) (installed : bool) (nd : t) : t :=
  mk (node_ nd) (networkManager_ nd) (topologyManager_ nd) (discoveryActive_ nd)
     (discoveredNodes_ nd) (discoveryTimestamps_ nd)
     (onPeerDiscovered_ nd) (onDiscoveryFailed_ nd)
     (fired nd ++ if installed then [e] else []).

(** The loop of [discoverPeers] over the known nodes; [nowAt id] is the clock
    reading of [addDiscoveredNode] for [id]. *)
Fixpoint discover_loop (knownNodes : list N) (maxPeers : Z) (nowAt : N → Z)
    (discovered : list N) (nd : t) : list N * t :=
  match knownNodes with
  | [] => (discovered, nd)
  | id :: rest =>
      if bool_decide (id = Node.getID (node_ nd)) then
        discover_loop rest maxPeers nowAt discovered nd
      else if bool_decide (id ∈ Node.getPeerIDs (node_ nd)) then
        discover_loop rest maxPeers nowAt discovered nd
      else
        let addr := TopologyManager.getNodeAddress id (topologyManager_ nd) in
        if bool_decide (port addr ≠ 0) then
          let nd := addDiscoveredNode id addr (nowAt id) nd in
          let discovered := discovered ++ [id] in
          let nd := notify (PeerDiscovered id addr) (onPeerDiscovered_ nd) nd in
          if bool_decide (maxPeers ≤ static_cast_int (N.of_nat (length discovered)))%Z
          then (discovered, nd)
          else discover_loop rest maxPeers nowAt discovered nd
        else discover_loop rest maxPeers nowAt discovered nd
  end.

Definition discoverPeers (maxPeers : Z) (nowAt : N → Z) (nd : t)
    : outcome (list N * t) :=
  knownNodes ←! TopologyManager.getAllNodeIDs false (topologyManager_ nd);
  Returns (discover_loop knownNodes maxPeers nowAt [] nd).

Definition getDiscoveredNodeCount (nd : t) : N :=
  N.of_nat (size (discoveredNodes_ nd)).

Definition getDiscoveredNodes (nd : t) : list N :=
  keys_in_order (discoveredNodes_ nd).

(** The loop walks [discoveryTimestamps_] and erases from both maps. *)
Definition stale (now timeoutSeconds : Z) (nd : t) (id : N) : Prop :=
  match discoveryTimestamps_ nd !! id with
  | Some seen => (timeoutSeconds < elapsed_seconds now seen)%Z
  | None => False
  end.

#[global] Instance stale_dec now timeoutSeconds nd id :
  Decision (stale now timeoutSeconds nd id).
Proof. unfold stale. destruct (discoveryTimestamps_ nd !! id); apply _. Defined.

Definition removeStaleNodes (now timeoutSeconds : Z) (nd : t) : t :=
  mk (node_ nd) (networkManager_ nd) (topologyManager_ nd) (discoveryActive_ nd)
     (filter (λ kv, ¬ stale now timeoutSeconds nd kv.1) (discoveredNodes_ nd))
     (filter (λ kv, ¬ stale now timeoutSeconds nd kv.1) (discoveryTimestamps_ nd))
     (onPeerDiscovered_ nd) (onDiscoveryFailed_ nd) (fired nd).

Definition connectToBootstrapNode (bootstrapAddress : NetworkAddress) (nd : t) : bool :=
  if negb (validateNodeAddress bootstrapAddress nd) then false
  else NetworkManager.connectToPeer bootstrapAddress (networkManager_ nd).

Definition requestPeerList (fromNode : N) (nd : t) : bool :=
  let addr := TopologyManager.getNodeAddress fromNode (topologyManager_ nd) in
  if bool_decide (port addr = 0) then false
  else if NetworkManager.isConnectedTo fromNode (networkManager_ nd) then true
  else NetworkManager.connectToPeer addr (networkManager_ nd).

End NodeDiscovery.

(** ** Vocabulary of the statements *)

(** [B[lo .. hi)]. *)
Definition slice (B : list byte) (lo hi : N) : list byte :=
  take (N.to_nat (hi - lo)) (drop (N.to_nat lo) B).

(** The chunk that the specification asks for at index [j]. *)
Definition ideal_chunk (cs : N) (B : list byte) (transfer count j : N)
    : DataExchange.DataChunk :=
  DataExchange.mkChunk transfer j count
    (take (N.to_nat cs) (drop (N.to_nat (j * cs)) B))
    (bool_decide (j + 1 = count)).

(** [b ∈ adjacencyList_[a]]. *)
Definition edge (adj : gmap N (gset N)) (a b : N) : Prop :=
  ∃ s, adj !! a = Some s ∧ b ∈ s.

(** P1: [b ∈ adjacency[a]] iff [a ∈ adjacency[b]]. *)
Definition symmetric (adj : gmap N (gset N)) : Prop :=
  ∀ a b, edge adj a b ↔ edge adj b a.

(** I1: every key of the adjacency map is registered. *)
Definition keys_registered (tm : TopologyManager.t) : Prop :=
  ∀ a, is_Some (TopologyManager.adjacencyList_ tm !! a) →
       is_Some (TopologyManager.nodeRegistry_ tm !! a).

(** A hop sequence through the adjacency relation. *)
Fixpoint is_path (adj : gmap N (gset N)) (p : list N) : Prop :=
  match p with
  | [] => False
  | a :: rest =>
      match rest with
      | [] => True
      | b :: _ => edge adj a b ∧ is_path adj rest
      end
  end.

Definition path_between (adj : gmap N (gset N)) (a b : N) (p : list N) : Prop :=
  is_path adj p ∧ head p = Some a ∧ last p = Some b.

(** [b] is [n] hops away from [a] along some walk. *)
Inductive reach (adj : gmap N (gset N)) (a : N) : nat → N → Prop :=
  | reach_here : reach adj a 0 a
  | reach_step n u v : reach adj a n u → edge adj u v → reach adj a (S n) v.

(** The loop invariant of the breadth-first search of [findPath]; [lvl] is the
    number of hops at which a visited node was discovered. *)
Definition bfs_inv (adj : gmap N (gset N)) (from to : N)
    (st : TopologyManager.bfs_state) (lvl : N → nat) : Prop :=
  dom (TopologyManager.parent st) = TopologyManager.visited st
  ∧ from ∈ TopologyManager.visited st
  ∧ lvl from = O
  ∧ (∀ v, v ∈ TopologyManager.visited st → v ≠ from →
       ∃ p, TopologyManager.parent st !! v = Some p
            ∧ p ∈ TopologyManager.visited st
            ∧ edge adj p v ∧ lvl v = S (lvl p))
  ∧ (∀ v m, v ∈ TopologyManager.visited st → reach adj from m v → (lvl v ≤ m)%nat)
  ∧ (∃ d q1 q2,
       TopologyManager.queue st = q1 ++ q2
       ∧ Forall (λ q, q ∈ TopologyManager.visited st ∧ lvl q = d) q1
       ∧ Forall (λ q, q ∈ TopologyManager.visited st ∧ lvl q = S d) q2)
  ∧ (∀ u v, u ∈ TopologyManager.visited st → u ∉ TopologyManager.queue st →
            edge adj u v → v ∈ TopologyManager.visited st)
  ∧ (∀ u, u ∈ TopologyManager.visited st → u ∉ TopologyManager.queue st → u ≠ to)
  ∧ (∀ v, v ∈ TopologyManager.visited st →
          (lvl v < size (TopologyManager.visited st))%nat).

(** What [findPath] owes its caller for [from ≠ to]. *)
Definition bfs_post (adj : gmap N (gset N)) (from to : N) (p : list N) : Prop :=
  (p = [] ∧ ∀ m, ¬ reach adj from m to)
  ∨ (path_between adj from to p
     ∧ ∀ m, reach adj from m to → (length p ≤ S m)%nat).

(** What the sweep of [detectFailedNodes] is written to do to one record. *)
Definition swept (now timeoutSeconds : Z)
    (info : DynamicNodeManager.NodeInfo) : DynamicNodeManager.NodeInfo :=
  if bool_decide (DynamicNodeManager.state info ≠ DynamicNodeManager.ACTIVE) then info
  else if bool_decide (timeoutSeconds
                       < elapsed_seconds now (DynamicNodeManager.lastSeen info))%Z
  then DynamicNodeManager.with_failureCount
         (DynamicNodeManager.failureCount info + 1) info
  else DynamicNodeManager.with_failureCount 0 info.

(** An Active record that is over the timeout and whose count reaches 3. *)
Definition reaches_three (now timeoutSeconds : Z)
    (info : DynamicNodeManager.NodeInfo) : Prop :=
  DynamicNodeManager.state info = DynamicNodeManager.ACTIVE
  ∧ (timeoutSeconds < elapsed_seconds now (DynamicNodeManager.lastSeen info))%Z
  ∧ (3 ≤ DynamicNodeManager.failureCount info + 1)%Z.

(** A record that [retryPendingMessages] looks at: not acknowledged, and at
    least [timeoutSeconds] whole seconds since its last (re)transmission. *)
Definition due (now timeoutSeconds : Z)
    (m : ReliableMessaging.ReliableMessage) : Prop :=
  ReliableMessaging.ackStatus m ≠ ReliableMessaging.ACKNOWLEDGED
  ∧ (timeoutSeconds ≤ elapsed_seconds now (ReliableMessaging.lastRetry m))%Z.

Definition picks_retry (now timeoutSeconds maxRetries : Z)
    (pending : gmap N ReliableMessaging.ReliableMessage) (id : N) : Prop :=
  ∃ m, pending !! id = Some m ∧ due now timeoutSeconds m
       ∧ (ReliableMessaging.retryCount m < maxRetries)%Z.

Definition picks_fail (now timeoutSeconds maxRetries : Z)
    (pending : gmap N ReliableMessaging.ReliableMessage) (id : N) : Prop :=
  ∃ m, pending !! id = Some m ∧ due now timeoutSeconds m
       ∧ (maxRetries ≤ ReliableMessaging.retryCount m)%Z.

(** What is handed to the transport for the record of [id]. *)
Definition resend_of (pending : gmap N ReliableMessaging.ReliableMessage)
    (id : N) : option (N * Message) :=
  (λ m, (ReliableMessaging.destinationID m, ReliableMessaging.message m))
    <$> pending !! id.

Definition failure_of (pending : gmap N ReliableMessaging.ReliableMessage)
    (id : N) : option ReliableMessaging.event :=
  (λ m, ReliableMessaging.Failed id (ReliableMessaging.destinationID m))
    <$> pending !! id.

(** Scenario 1 of the specification: nodes 1, 2, 3 in a ring. *)
Definition ring_example : TopologyManager.t :=
  TopologyManager.mk 1
    (<[1 := mkAddress "10.0.0.1" 8888]>
       (<[2 := mkAddress "10.0.0.2" 8888]>
          (<[3 := mkAddress "10.0.0.3" 8888]> ∅)))
    (<[1 := {[2; 3]}]> (<[2 := {[1; 3]}]> (<[3 := {[1; 2]}]> ∅)))
    [].

(** A chain 1 - 2 - 3 - 4. *)
Definition chain_example : TopologyManager.t :=
  TopologyManager.mk 1
    (<[1 := mkAddress "10.0.0.1" 8888]>
       (<[2 := mkAddress "10.0.0.2" 8888]>
          (<[3 := mkAddress "10.0.0.3" 8888]>
             (<[4 := mkAddress "10.0.0.4" 8888]> ∅))))
    (<[1 := {[2]}]> (<[2 := {[1; 3]}]> (<[3 := {[2; 4]}]> (<[4 := {[3]}]> ∅))))
    [].

(** A node whose roster holds peer 2 while the topology has no edge to it,
    as [DynamicNodeManager::addNode] leaves things. *)
Definition roster_example : MessageRouter.t :=
  MessageRouter.mk
    (Node.mk 1 (mkAddress "10.0.0.1" 8888) [2] [mkAddress "10.0.0.2" 8888] 0)
    (NetworkManager.mk (λ _, true) ∅ ∅ [] [] 0)
    (TopologyManager.mk 1 {[2 := mkAddress "10.0.0.2" 8888]} {[2 := ∅]} [])
    ∅ 0 0 0.

Definition ping : Message := mkMessage DATA_MESSAGE 1 1 [] 0.

(** Scenario 3 of the specification: local node 1 knows peer 2, added at
    time 0 and not heard of since. *)
Definition sweep_example : DynamicNodeManager.t :=
  (DynamicNodeManager.addNode 2 (mkAddress "10.0.0.2" 8888) 0
     (DynamicNodeManager.mk
        (Node.mk 1 (mkAddress "10.0.0.1" 8888) [] [] 0)
        (NetworkManager.mk (λ _, true) ∅ ∅ [] [] 0)
        (TopologyManager.mk 1 ∅ ∅ [])
        ∅ true true true true [])).2.

Definition seconds (n : Z) : Z := (n * ticks_per_second)%Z.

Definition heartbeat_from_2 : Message := mkMessage HEARTBEAT 2 1 [] 100000.

Definition ack_example : ReliableMessaging.t :=
  ReliableMessaging.mk (NetworkManager.mk (λ _, true) ∅ ∅ [] [] 0)
    {[ 7 := ReliableMessaging.mkReliable 7 (mkMessage DATA_MESSAGE 1 2 [] 0) 2
              ReliableMessaging.PENDING 0 0 0 ]}
    true true 1 0 0 [].

(** The inner map [receivedChunks_[id]] after storing [chunks] in turn. *)
Definition chunk_table (chunks : list DataExchange.DataChunk)
    (m : gmap N DataExchange.DataChunk) : gmap N DataExchange.DataChunk :=
  foldl (λ m c, <[DataExchange.sequenceNumber c := c]> m) m chunks.

(** ** Vocabulary of the further properties *)

(** The roster of a node: no peer twice, one address per peer, at most
    [MAX_PEERS] peers. *)
Definition roster_ok (n : Node.t) : Prop :=
  NoDup (Node.peerIDs_ n)
  ∧ length (Node.peerAddresses_ n) = length (Node.peerIDs_ n)
  ∧ N.of_nat (length (Node.peerIDs_ n)) ≤ MAX_PEERS.

(** The roster as a list of pairs of a peer and its address. *)
Definition roster (n : Node.t) : list (N * NetworkAddress) :=
  zip (Node.peerIDs_ n) (Node.peerAddresses_ n).

(** A node with peers 2 and 3. *)
Definition node_example : Node.t :=
  Node.mk 1 (mkAddress "10.0.0.1" 8888) [2; 3]
    [mkAddress "10.0.0.2" 8888; mkAddress "10.0.0.3" 8888] 0.

(** The bytes of a message: the five header fields, then the payload. *)
Definition layout (msg : NetworkCodec.RawMessage) : list byte :=
  le_bytes 1 (NetworkCodec.rawType msg)
  ++ le_bytes 8 (NetworkCodec.rawSenderID msg)
  ++ le_bytes 8 (NetworkCodec.rawReceiverID msg)
  ++ le_bytes 8 (NetworkCodec.rawTimestamp msg)
  ++ le_bytes 4 (N.of_nat (length (NetworkCodec.rawPayload msg)))
  ++ NetworkCodec.rawPayload msg.


(** A data message from node 1 to node 2 with a payload of two bytes. *)
Definition data_message_example : Message :=
  mkMessage DATA_MESSAGE 1 2 ["104"; "105"]%byte 5.

(** The ids [discoverPeers] chooses from. *)
Definition candidate (tm : TopologyManager.t) (requestingNodeID id : N) : Prop :=
  is_Some (TopologyManager.nodeRegistry_ tm !! id)
  ∧ id ≠ requestingNodeID ∧ id ≠ TopologyManager.localID tm.


(** A handler of node 1, which knows peers 2 and 3 and the ring topology. *)
Definition handler_example : MessageHandler.t :=
  MessageHandler.mk node_example (NetworkManager.mk (λ _, true) ∅ ∅ [] [] 0)
    ring_example.

(** Calls of the public operations of [TopologyManager] that write or check
    its state. *)
Inductive topology_call : Type :=
  | CallAddNode (nodeID : N) (address : NetworkAddress)
  | CallRegisterNode (nodeID : N) (address : NetworkAddress)
  | CallRemoveNode (nodeID : N)
  | CallUpdateNodeAddress (nodeID : N) (address : NetworkAddress)
  | CallUpdateTopology
  | CallValidateTopology
  | CallCheckNetworkIntegrity
  | CallRepairTopology
  | CallAddBootstrapNode (address : NetworkAddress).

Definition topology_step (tm : TopologyManager.t) (c : topology_call)
    : outcome TopologyManager.t :=
  match c with
  | CallAddNode id address => Returns (TopologyManager.addNode id address tm).2
  | CallRegisterNode id address => Returns (TopologyManager.registerNode id address tm).2
  | CallRemoveNode id => Returns (TopologyManager.removeNode id tm).2
  | CallUpdateNodeAddress id address =>
      Returns (TopologyManager.updateNodeAddress id address tm).2
  | CallUpdateTopology => Returns (TopologyManager.updateTopology tm)
  | CallValidateTopology => TopologyManager.validateTopology false tm
  | CallCheckNetworkIntegrity =>
      checked ←! TopologyManager.checkNetworkIntegrity tm; Returns checked.2
  | CallRepairTopology => TopologyManager.repairTopology tm
  | CallAddBootstrapNode address =>
      Returns (TopologyManager.addBootstrapNode address tm)
  end.

Definition topology_run (calls : list topology_call) (tm : TopologyManager.t)
    : outcome TopologyManager.t :=
  foldl (λ acc c, tm ←! acc; topology_step tm c) (Returns tm) calls.

(** The state a [TopologyManager] is constructed with. *)
Definition new_topology (localID : N) : TopologyManager.t :=
  TopologyManager.mk localID ∅ ∅ [].

(** No adjacency set has an element. *)
Definition edgeless (tm : TopologyManager.t) : Prop :=
  ∀ a b, ¬ edge (TopologyManager.adjacencyList_ tm) a b.

(** Nodes 1 and 2, registered one after the other. *)
Definition two_nodes_example : TopologyManager.t :=
  (TopologyManager.addNode 2 (mkAddress "10.0.0.2" 8888)
     (TopologyManager.addNode 1 (mkAddress "10.0.0.1" 8888) (new_topology 1)).2).2.

(** A peer the transport can write to. *)
Definition deliverable (nm : NetworkManager.t) (peer : N) : Prop :=
  peer ∈ NetworkManager.activeConnections_ nm
  ∧ peer ∉ NetworkManager.socketThrows nm.

(** [message] addressed to each of [peers] in turn. *)
Definition copies (message : Message) (peers : list N) : list (N * Message) :=
  (λ peer, (peer, message)) <$> peers.

(** The message with sender and receiver exchanged. *)
Definition reversed (message : Message) : Message :=
  mkMessage (type message) (receiverID message) (senderID message)
    (payload message) (timestamp message).

(** One round of the loop of [broadcastMessage]. *)
Definition broadcast_round (message : Message) (excludeID : N)
    : bool * NetworkManager.t → N → bool * NetworkManager.t :=
  λ '(success, nm) peerID,
    if bool_decide (peerID ≠ excludeID) then
      let '(ok, nm) := NetworkManager.sendMessageToPeer peerID message nm in
      (success && ok, nm)
    else (success, nm).


(** Every sequence number below [k] occurs in [idx]. *)
Definition complete_arrival (k : nat) (idx : list N) : Prop :=
  Forall (λ j, j ∈ idx) (N.of_nat <$> seq 0 k).

(** A receiver (node 2) that has not seen any chunk yet. *)
Definition receiver_example : DataExchange.t :=
  DataExchange.mk 2 4096 ∅ ∅ ∅ ∅ true true true 0 0 0 [].

(** A node that [discoverPeers] of [NodeDiscovery] takes: not the local node,
    not yet a peer, and with an address whose port is not 0. *)
Definition discoverable (nd : NodeDiscovery.t) (id : N) : Prop :=
  id ≠ Node.getID (NodeDiscovery.node_ nd)
  ∧ ¬ id ∈ Node.getPeerIDs (NodeDiscovery.node_ nd)
  ∧ port (TopologyManager.getNodeAddress id (NodeDiscovery.topologyManager_ nd)) ≠ 0.

#[global] Instance discoverable_dec nd id : Decision (discoverable nd id).
Proof. unfold discoverable. apply _. Defined.

(** What the loop of [discoverPeers] does for one node it takes. *)
Definition record_discovery (nowAt : N → Z) (nd : NodeDiscovery.t) (id : N)
    : NodeDiscovery.t :=
  let addr := TopologyManager.getNodeAddress id (NodeDiscovery.topologyManager_ nd) in
  NodeDiscovery.notify (NodeDiscovery.PeerDiscovered id addr)
    (NodeDiscovery.onPeerDiscovered_ nd)
    (NodeDiscovery.addDiscoveredNode id addr (nowAt id) nd).

(** The route that [updateRoutingTable] computes for a target: the path of
    [findPath] from the local node, when it has a second node. *)
Definition route_of (r : MessageRouter.t) (targetID : N) : option (N * list N) :=
  if bool_decide (targetID = Node.getID (MessageRouter.node_ r)) then None
  else
    let path := MessageRouter.computeShortestPath r targetID in
    hop ← path !! 1%nat; Some (hop, path).

(** A registrar of node 1, which knows peers 2 and 3 and has registered
    nobody in its topology. *)
Definition registrar_example : NodeRegistration.t :=
  NodeRegistration.mk node_example (NetworkManager.mk (λ _, true) ∅ ∅ [] [] 0)
    (new_topology 1) NodeRegistration.PENDING ∅.

(** A discovery service of node 1 over the topology of nodes 1 and 2, with the
    callback for discovered peers installed. *)
Definition discovery_example : NodeDiscovery.t :=
  NodeDiscovery.mk node_example (NetworkManager.mk (λ _, true) ∅ ∅ [] [] 0)
    two_nodes_example false ∅ ∅ true false [].

(** A handler of node 1, which knows peers 2 and 3, over the topology of
    nodes 1 and 2. *)
Definition small_handler_example : MessageHandler.t :=
  MessageHandler.mk node_example (NetworkManager.mk (λ _, true) ∅ ∅ [] [] 0)
    two_nodes_example.

(** A leave notification of node 3. *)
Definition leave_example : Message :=
  mkMessage LEAVE_NOTIFICATION 3 1 [] 7.

(** A topology update of node 2 that names node 3. *)
Definition update_example : Message :=
  mkMessage TOPOLOGY_UPDATE 2 0 (MessageHandler.serializeNodeList [3]) 7.
(* ================================================================== *)
(** * Properties *)

(** Powers of two as literals, for [lia]. *)
Ltac pow2_literals :=
  change (2 ^ 64) with 18446744073709551616 in *;
  change (2 ^ 32) with 4294967296 in *.

(** [wrap64 x = x] when the hypotheses bound [x]. *)
Ltac within_64_bits := unfold wrap64; apply N.mod_small; pow2_literals; lia.

(** ** Byte-level lemmas *)

Lemma to_N_byte_of_N n : Byte.to_N (byte_of_N n) = n mod 256.
Proof.
  unfold byte_of_N.
  destruct (Byte.of_N (n mod 256)) as [b|] eqn:E.
  - simpl. by apply Byte.to_of_N.
  - exfalso. apply Byte.of_N_None_iff in E.
    pose proof (N.mod_upper_bound n 256). lia.
Qed.

Lemma length_le_bytes w n : length (le_bytes w n) = w.
Proof. revert n. induction w as [|w IH]; intros n; simpl; [done|]. by rewrite IH. Qed.

Lemma le_value_le_bytes w n : le_value (le_bytes w n) = n mod 256 ^ N.of_nat w.
Proof.
  revert n. induction w as [|w IH]; intros n.
  - simpl. by rewrite N.mod_1_r.
  - cbn [le_bytes le_value]. rewrite to_N_byte_of_N, IH.
    replace (N.of_nat (S w)) with (N.succ (N.of_nat w)) by lia.
    rewrite N.pow_succ_r'.
    rewrite (N.Div0.mod_mul_r n 256 (256 ^ N.of_nat w)). lia.
Qed.

Lemma length_bytes_of_words (l : list N) :
  length (bytes_of_words l) = (8 * length l)%nat.
Proof.
  induction l as [|x l IH]; [done|].
  cbn [bytes_of_words]. rewrite length_app, length_le_bytes, IH. simpl. lia.
Qed.

Lemma words_of_bytes_of_words (l : list N) (rest : list byte) :
  Forall (λ x, x < 2 ^ 64) l →
  words_of_bytes (length l) (bytes_of_words l ++ rest) = l.
Proof.
  induction 1 as [|x l Hx Hl IH]; [done|].
  cbn [bytes_of_words length words_of_bytes].
  rewrite <- app_assoc.
  rewrite take_app_length' by (by rewrite length_le_bytes).
  rewrite drop_app_length' by (by rewrite length_le_bytes).
  rewrite IH, le_value_le_bytes.
  f_equal. apply N.mod_small. exact Hx.
Qed.

Lemma serializeNodeList_layout (nodes : list N) :
  N.of_nat (length nodes) < 2 ^ 32 →
  MessageHandler.serializeNodeList nodes =
    le_bytes 4 (N.of_nat (length nodes)) ++ bytes_of_words nodes.
Proof.
  intros Hlen. unfold MessageHandler.serializeNodeList, wrap32, wrap64.
  rewrite (N.mod_small (N.of_nat (length nodes))) by exact Hlen.
  rewrite N.mod_small by (pow2_literals; lia).
  rewrite Nat2N.id, firstn_all.
  set (n := length nodes) in *.
  set (hdr := le_bytes 4 (N.of_nat n)).
  assert (Hhdr : length hdr = 4%nat) by (unfold hdr; apply length_le_bytes).
  assert (Hz : zeros (4 + N.of_nat n * 8) =
               replicate 4 "000"%byte ++ replicate (8 * n) "000"%byte).
  { unfold zeros. rewrite <- replicate_add. f_equal. lia. }
  assert (H1 : memcpy_into (zeros (4 + N.of_nat n * 8)) 0 hdr =
               hdr ++ replicate (8 * n) "000"%byte).
  { unfold memcpy_into. rewrite take_0, Hhdr, Hz.
    rewrite drop_app_length' by (by rewrite length_replicate). done. }
  rewrite H1. case_bool_decide as Hnil.
  - subst nodes. subst n hdr. reflexivity.
  - unfold memcpy_into.
    rewrite take_app_length' by (by rewrite Hhdr).
    rewrite length_bytes_of_words. fold n.
    rewrite drop_ge by (rewrite length_app, Hhdr, length_replicate; lia).
    by rewrite app_nil_r.
Qed.

Lemma read_bytes_in_bounds (data : list byte) off len :
  (off + len ≤ length data)%nat →
  read_bytes data off len = Returns (take len (drop off data)).
Proof. intros H. unfold read_bytes. by rewrite bool_decide_eq_true_2. Qed.

Lemma le_value_bound (bs : list byte) : le_value bs < 256 ^ N.of_nat (length bs).
Proof.
  induction bs as [|b bs IH].
  - simpl. lia.
  - cbn [le_value length].
    replace (N.of_nat (S (length bs))) with (N.succ (N.of_nat (length bs))) by lia.
    rewrite N.pow_succ_r'. pose proof (Byte.to_N_bounded b). lia.
Qed.

(** The reads of [deserializeNodeList] stay inside the buffer: it never faults. *)
Lemma deserializeNodeList_returns (data : list byte) :
  ∃ nodes, MessageHandler.deserializeNodeList data = Returns nodes.
Proof.
  unfold MessageHandler.deserializeNodeList.
  case_bool_decide as H4; [by eexists|].
  rewrite read_bytes_in_bounds by (simpl; lia). cbn [obind].
  set (count := le_value (take 4 (drop 0 data))).
  assert (Hcount : count < 2 ^ 32).
  { pose proof (le_value_bound (take 4 (drop 0 data))) as Hb.
    rewrite length_take, drop_0 in Hb.
    replace (4 `min` length data)%nat with 4%nat in Hb by lia. exact Hb. }
  assert (Hw : wrap64 (4 + count * 8) = 4 + count * 8).
  { within_64_bits. }
  assert (Hw' : wrap64 (count * 8) = count * 8).
  { within_64_bits. }
  rewrite Hw, Hw'.
  case_bool_decide as Hsz; [by eexists|].
  case_bool_decide as Hpos; [|by eexists].
  rewrite read_bytes_in_bounds by lia. by eexists.
Qed.

(** C10: decoding an encoded node list gives the list back, and a buffer that
    is shorter than its 4-byte count, or shorter than the [4 + count * 8]
    bytes its count announces, decodes to the empty list; no read leaves the
    buffer (the decoder never faults). *)
Theorem C10_node_list_round_trip :
  (∀ L : list N,
      N.of_nat (length L) < 2 ^ 32 →
      Forall (λ id, id < 2 ^ 64) L →
      MessageHandler.deserializeNodeList (MessageHandler.serializeNodeList L)
        = Returns L)
  ∧ (∀ data : list byte,
      N.of_nat (length data) < 4 →
      MessageHandler.deserializeNodeList data = Returns [])
  ∧ (∀ data : list byte,
      4 ≤ N.of_nat (length data) →
      N.of_nat (length data) < 4 + le_value (take 4 data) * 8 →
      MessageHandler.deserializeNodeList data = Returns [])
  ∧ (∀ data : list byte,
      ∃ nodes, MessageHandler.deserializeNodeList data = Returns nodes).
Proof.
  split; [|split; [|split]].
  - intros L Hlen Hids.
    rewrite serializeNodeList_layout by exact Hlen.
    unfold MessageHandler.deserializeNodeList.
    set (hdr := le_bytes 4 (N.of_nat (length L))).
    assert (Hhdr : length hdr = 4%nat) by (unfold hdr; apply length_le_bytes).
    rewrite bool_decide_eq_false_2 by (rewrite length_app, Hhdr; lia).
    rewrite read_bytes_in_bounds by (rewrite length_app, Hhdr; lia).
    assert (Hv : le_value hdr = N.of_nat (length L)).
    { unfold hdr. rewrite le_value_le_bytes.
      change (256 ^ N.of_nat 4) with (2 ^ 32). by apply N.mod_small. }
    cbn [obind]. rewrite drop_0, take_app_length' by (by rewrite Hhdr).
    rewrite Hv.
    assert (Hw : ∀ k, k ≤ 4 → wrap64 (k + N.of_nat (length L) * 8)
                              = k + N.of_nat (length L) * 8).
    { intros k Hk. within_64_bits. }
    rewrite (Hw 4) by lia. pose proof (Hw 0 ltac:(lia)) as Hw0.
    rewrite N.add_0_l in Hw0. rewrite Hw0.
    rewrite bool_decide_eq_false_2
      by (rewrite length_app, Hhdr, length_bytes_of_words; lia).
    case_bool_decide as Hpos.
    + rewrite read_bytes_in_bounds
        by (rewrite length_app, Hhdr, length_bytes_of_words; lia).
      cbn [obind]. f_equal.
      rewrite drop_app_length' by (by rewrite Hhdr).
      rewrite take_ge by (rewrite length_bytes_of_words; lia).
      rewrite Nat2N.id.
      rewrite <- (app_nil_r (bytes_of_words _)). by apply words_of_bytes_of_words.
    + destruct L; [done|]. simpl in Hpos. lia.
  - intros data H. unfold MessageHandler.deserializeNodeList.
    by rewrite bool_decide_eq_true_2.
  - intros data H4 Hshort. unfold MessageHandler.deserializeNodeList.
    rewrite bool_decide_eq_false_2 by lia.
    rewrite read_bytes_in_bounds by (simpl; lia). cbn [obind]. rewrite drop_0.
    assert (Hcount : le_value (take 4 data) < 2 ^ 32).
    { pose proof (le_value_bound (take 4 data)) as Hb.
      rewrite length_take in Hb.
      replace (4 `min` length data)%nat with 4%nat in Hb by lia. exact Hb. }
    assert (Hw : wrap64 (4 + le_value (take 4 data) * 8)
                 = 4 + le_value (take 4 data) * 8).
    { within_64_bits. }
    rewrite Hw. by rewrite bool_decide_eq_true_2.
  - apply deserializeNodeList_returns.
Qed.

Lemma C10_node_list_round_trip_witness :
  MessageHandler.deserializeNodeList (MessageHandler.serializeNodeList [1; 2; 3])
    = Returns [1; 2; 3]
  ∧ MessageHandler.deserializeNodeList ["001"; "000"]%byte = Returns []
  ∧ MessageHandler.deserializeNodeList ["002"; "000"; "000"; "000"; "007"]%byte
    = Returns [].
Proof.
  destruct C10_node_list_round_trip as (H1 & H2 & H3 & _).
  split; [|split].
  - apply H1; [reflexivity|]. repeat constructor.
  - apply H2. reflexivity.
  - apply H3; [discriminate | reflexivity].
Defined.

(** ** Chunking *)

Lemma ceil_div_bounds n cs :
  0 < cs →
  (ceil_div n cs - 1) * cs < n + (if bool_decide (n = 0) then 1 else 0)
  ∧ n ≤ ceil_div n cs * cs
  ∧ (n = 0 → ceil_div n cs = 0)
  ∧ (0 < n → 0 < ceil_div n cs).
Proof.
  intros Hcs. unfold ceil_div.
  pose proof (N.Div0.div_mod (n + cs - 1) cs) as Hdm.
  pose proof (N.mod_upper_bound (n + cs - 1) cs ltac:(lia)) as Hmod.
  set (q := (n + cs - 1) / cs) in *. set (r := (n + cs - 1) mod cs) in *.
  assert (Hq : n + cs - 1 = cs * q + r) by lia.
  case_bool_decide; repeat split; try nia.
Qed.

Lemma take_min_length {A} (l : list A) (n : nat) :
  take (n `min` length l) l = take n l.
Proof.
  destruct (decide (n ≤ length l)%nat).
  - by rewrite Nat.min_l.
  - rewrite Nat.min_r by lia. by rewrite !take_ge by lia.
Qed.

Lemma splitData_loop_ideal cs B transfer count todo i :
  0 < cs → N.of_nat (length B) + cs - 1 < 2 ^ 64 → count < 2 ^ 32 →
  count = ceil_div (N.of_nat (length B)) cs →
  i + N.of_nat todo = count →
  DataExchange.splitData_loop todo i count cs B transfer =
    Returns (ideal_chunk cs B transfer count <$>
               (N.of_nat <$> seq (N.to_nat i) todo)).
Proof.
  intros Hcs H64 H32 Hcount. revert i.
  induction todo as [|todo IH]; intros i Hi; [done|].
  pose proof (ceil_div_bounds (N.of_nat (length B)) cs Hcs) as (Hlo & Hhi & _ & _).
  rewrite <- Hcount in Hlo, Hhi.
  assert (Hoff : i * cs < N.of_nat (length B)).
  { assert (i * cs ≤ (count - 1) * cs) by (apply N.mul_le_mono_r; lia).
    pose proof (ceil_div_bounds (N.of_nat (length B)) cs Hcs) as (_ & _ & Hz & _).
    case_bool_decide as Hn; [|lia]. specialize (Hz Hn). lia. }
  pow2_literals.
  cbn [DataExchange.splitData_loop].
  assert (Hw : wrap64 (i * cs) = i * cs) by within_64_bits.
  rewrite Hw.
  assert (Hw2 : wrap64 (N.of_nat (length B) + 2 ^ 64 - i * cs)
                = N.of_nat (length B) - i * cs).
  { unfold wrap64. change (2 ^ 64) with 18446744073709551616.
    replace (N.of_nat (length B) + 18446744073709551616 - i * cs)
      with ((N.of_nat (length B) - i * cs) + 1 * 18446744073709551616) by lia.
    rewrite N.Div0.mod_add. apply N.mod_small. lia. }
  rewrite Hw2.
  rewrite read_bytes_in_bounds by lia. cbn [obind].
  rewrite IH by lia. cbn [obind].
  f_equal. cbn [seq fmap list_fmap]. rewrite N2Nat.id.
  f_equal.
  - unfold ideal_chunk. f_equal.
    + rewrite <- (take_min_length (drop _ B) (N.to_nat cs)).
      f_equal. rewrite length_drop, N2Nat.inj_min, N2Nat.inj_sub, Nat2N.id. done.
    + apply bool_decide_ext. unfold wrap32.
      change (2 ^ 32) with 4294967296.
      replace (count + 4294967296 - 1) with ((count - 1) + 1 * 4294967296) by lia.
      rewrite N.Div0.mod_add, N.mod_small by lia. lia.
  - by replace (N.to_nat (i + 1)) with (S (N.to_nat i)) by lia.
Qed.

Lemma splitData_ideal cs B transfer :
  0 < cs → N.of_nat (length B) + cs - 1 < 2 ^ 64 →
  ceil_div (N.of_nat (length B)) cs < 2 ^ 32 →
  DataExchange.splitData cs B transfer =
    Returns (ideal_chunk cs B transfer (ceil_div (N.of_nat (length B)) cs) <$>
               (N.of_nat <$> seq 0 (N.to_nat (ceil_div (N.of_nat (length B)) cs)))).
Proof.
  intros Hcs H64 H32. unfold DataExchange.splitData.
  rewrite bool_decide_eq_false_2 by lia.
  assert (Hc : wrap32 (wrap64 (N.of_nat (length B) + cs - 1) / cs)
               = ceil_div (N.of_nat (length B)) cs).
  { unfold wrap64. rewrite (N.mod_small _ _ H64). unfold wrap32.
    by apply N.mod_small. }
  rewrite Hc. by apply splitData_loop_ideal; try lia.
Qed.

Lemma elem_of_set_in_order (s : gset N) x : x ∈ set_in_order s ↔ x ∈ s.
Proof. unfold set_in_order. by rewrite merge_sort_Permutation, elem_of_elements. Qed.

Lemma NoDup_set_in_order (s : gset N) : NoDup (set_in_order s).
Proof. unfold set_in_order. rewrite merge_sort_Permutation. apply NoDup_elements. Qed.

Lemma elem_of_keys_in_order {V} (m : gmap N V) x :
  x ∈ keys_in_order m ↔ is_Some (m !! x).
Proof. unfold keys_in_order. by rewrite elem_of_set_in_order, elem_of_dom. Qed.

Section chunk_tables.
Context (cs : N) (B : list byte) (transfer count : N).

Local Abbreviation ideal := (ideal_chunk cs B transfer count).
Local Abbreviation table k := (chunk_table (ideal <$> (N.of_nat <$> seq 0 k)) ∅).

Lemma chunk_table_snoc k : table (S k) = <[N.of_nat k := ideal (N.of_nat k)]> (table k).
Proof.
  unfold table, chunk_table. rewrite seq_S, !fmap_app. simpl.
  by rewrite foldl_snoc.
Qed.

Lemma chunk_table_lookup k j :
  table k !! j = if bool_decide (j < N.of_nat k) then Some (ideal j) else None.
Proof.
  induction k as [|k IH].
  - unfold table, chunk_table. simpl. rewrite lookup_empty.
    by rewrite bool_decide_eq_false_2 by lia.
  - rewrite chunk_table_snoc. destruct (decide (j = N.of_nat k)) as [->|Hne].
    + rewrite lookup_insert_eq. by rewrite bool_decide_eq_true_2 by lia.
    + rewrite lookup_insert_ne by done. rewrite IH.
      apply option_eq; intros c. repeat case_bool_decide; try done; lia.
Qed.

Lemma chunk_table_size k : size (table k) = k.
Proof.
  induction k as [|k IH]; [done|].
  rewrite chunk_table_snoc, map_size_insert_None, IH; [done|].
  rewrite chunk_table_lookup. by rewrite bool_decide_eq_false_2 by lia.
Qed.

Lemma reassemble_loop_table k todo i acc :
  (N.to_nat i + todo ≤ k)%nat →
  DataExchange.reassemble_loop todo i (table k) acc =
    Some (acc ++ take (todo * N.to_nat cs) (drop (N.to_nat i * N.to_nat cs) B)).
Proof.
  revert i acc. induction todo as [|todo IH]; intros i acc Hk.
  - simpl. by rewrite app_nil_r.
  - cbn [DataExchange.reassemble_loop].
    rewrite chunk_table_lookup, bool_decide_eq_true_2 by lia.
    rewrite IH by lia. f_equal. rewrite <- app_assoc. f_equal.
    unfold ideal, ideal_chunk. cbn [DataExchange.data].
    replace (N.to_nat (i + 1) * N.to_nat cs)%nat
      with (N.to_nat i * N.to_nat cs + N.to_nat cs)%nat by lia.
    rewrite <- drop_drop, N2Nat.inj_mul.
    by rewrite take_take_drop.
Qed.
End chunk_tables.

Lemma reassembleData_receivedChunks transfer st :
  DataExchange.receivedChunks_ (DataExchange.reassembleData transfer st).2
  = DataExchange.receivedChunks_ st.
Proof.
  unfold DataExchange.reassembleData.
  repeat case_match; simplify_eq; done.
Qed.

Lemma reassembleData_completedData_other transfer other st :
  other ≠ transfer →
  DataExchange.completedData_ (DataExchange.reassembleData transfer st).2 !! other
  = DataExchange.completedData_ st !! other.
Proof.
  intros Hne. unfold DataExchange.reassembleData.
  repeat case_match; simplify_eq; simpl; rewrite ?lookup_insert_ne by done; done.
Qed.

Lemma handleDataChunk_receivedChunks chunk source now st :
  DataExchange.receivedChunks_ (DataExchange.handleDataChunk chunk source now st)
  = DataExchange.store_chunk chunk (DataExchange.receivedChunks_ st).
Proof.
  unfold DataExchange.handleDataChunk.
  match goal with |- context [DataExchange.reassembleData ?a ?b] =>
    pose proof (reassembleData_receivedChunks a b) as Hr;
    destruct (DataExchange.reassembleData a b) as [complete st'] end.
  simpl in Hr. repeat case_match; simplify_eq; simpl; done.
Qed.

Lemma receive_chunks_table transfer chunks source now st :
  Forall (λ c, DataExchange.chunkID c = transfer) chunks → chunks ≠ [] →
  DataExchange.receivedChunks_ (DataExchange.receive_chunks chunks source now st)
    !! transfer
  = Some (chunk_table chunks
            (default ∅ (DataExchange.receivedChunks_ st !! transfer))).
Proof.
  intros Hall. revert st. induction Hall as [|c rest Hc Hrest IH]; intros st Hne; [done|].
  unfold DataExchange.receive_chunks. cbn [foldl].
  fold (DataExchange.receive_chunks rest source now
          (DataExchange.handleDataChunk c source now st)).
  assert (Hone :
    DataExchange.receivedChunks_ (DataExchange.handleDataChunk c source now st)
      !! transfer
    = Some (<[DataExchange.sequenceNumber c := c]>
              (default ∅ (DataExchange.receivedChunks_ st !! transfer)))).
  { rewrite handleDataChunk_receivedChunks. unfold DataExchange.store_chunk.
    rewrite Hc. by rewrite lookup_insert_eq. }
  destruct rest as [|c' rest'].
  - exact Hone.
  - rewrite IH by done. rewrite Hone. done.
Qed.

Lemma reassembleData_complete cs B transfer count k st :
  DataExchange.receivedChunks_ st !! transfer
    = Some (chunk_table (ideal_chunk cs B transfer count <$>
                           (N.of_nat <$> seq 0 k)) ∅) →
  count = N.of_nat k → (0 < k)%nat →
  (DataExchange.reassembleData transfer st).1 = true
  ∧ DataExchange.completedData_ (DataExchange.reassembleData transfer st).2
      !! transfer = Some (take (k * N.to_nat cs) B).
Proof.
  intros Htab Hcount Hk. unfold DataExchange.reassembleData. rewrite Htab.
  set (T := chunk_table _ ∅).
  destruct (keys_in_order T) as [|first rest] eqn:Hkeys.
  - exfalso. assert (0 ∈ keys_in_order T) as Hin.
    { apply elem_of_keys_in_order. unfold T. rewrite chunk_table_lookup.
      rewrite bool_decide_eq_true_2 by lia. by eexists. }
    rewrite Hkeys in Hin. by apply elem_of_nil in Hin.
  - assert (first ∈ keys_in_order T) as Hin by (rewrite Hkeys; left).
    apply elem_of_keys_in_order in Hin as [c Hc].
    rewrite Hc. unfold T in Hc. rewrite chunk_table_lookup in Hc.
    case_bool_decide; [|done]. simplify_eq. cbn [ideal_chunk DataExchange.totalChunks].
    assert (Hsz : size T = k) by apply chunk_table_size.
    assert (Hloop : DataExchange.reassemble_loop k 0 T [] = Some (take (k * N.to_nat cs) B)).
    { unfold T. rewrite reassemble_loop_table by (simpl; lia). done. }
    rewrite Hsz, bool_decide_eq_false_2 by lia.
    rewrite Nat2N.id, Hloop.
    simpl. destruct (DataExchange.incomingTransfers_ st !! transfer); simpl;
      by rewrite lookup_insert_eq.
Qed.

Lemma markTransferComplete_completedData transfer ok now st :
  DataExchange.completedData_ (DataExchange.markTransferComplete transfer ok now st)
  = DataExchange.completedData_ st.
Proof. done. Qed.

Lemma handleDataChunk_completes cs B count k c source now st :
  DataExchange.store_chunk c (DataExchange.receivedChunks_ st)
    !! DataExchange.chunkID c
    = Some (chunk_table (ideal_chunk cs B (DataExchange.chunkID c) count <$>
                           (N.of_nat <$> seq 0 k)) ∅) →
  count = N.of_nat k → (0 < k)%nat →
  DataExchange.completedData_ (DataExchange.handleDataChunk c source now st)
    !! DataExchange.chunkID c = Some (take (k * N.to_nat cs) B).
Proof.
  intros Htab Hcount Hk. unfold DataExchange.handleDataChunk.
  match goal with |- context [DataExchange.reassembleData ?a ?b] =>
    pose proof (reassembleData_complete cs B a count k b Htab Hcount Hk) as [H1 H2];
    destruct (DataExchange.reassembleData a b) as [complete st'] end.
  simpl in H1, H2. subst complete.
  repeat case_match; simplify_eq; simpl; done.
Qed.

(** C2 (as amended): when the size arithmetic of [splitData] does not wrap
    ([|B| + cs - 1 < 2^64] in [size_t], [⌈|B|/cs⌉ < 2^32] in [uint32_t]),
    [splitData] produces exactly [⌈|B|/cs⌉] chunks; chunk [i] carries
    [B[i*cs .. min((i+1)*cs, |B|))], every chunk advertises the same
    [totalChunks], only the chunk numbered [totalChunks - 1] is flagged last,
    and a receiver that is handed the chunks in ascending order ends up with
    exactly [B] as the received data of the transfer. *)
Theorem C2_split_reassemble (B : list byte) (cs transfer : N) :
  0 < cs →
  N.of_nat (length B) + cs - 1 < 2 ^ 64 →
  ceil_div (N.of_nat (length B)) cs < 2 ^ 32 →
  ∃ chunks,
    DataExchange.splitData cs B transfer = Returns chunks
    ∧ N.of_nat (length chunks) = ceil_div (N.of_nat (length B)) cs
    ∧ (∀ (i : nat) c, chunks !! i = Some c →
         DataExchange.chunkID c = transfer
         ∧ DataExchange.sequenceNumber c = N.of_nat i
         ∧ DataExchange.totalChunks c = ceil_div (N.of_nat (length B)) cs
         ∧ DataExchange.data c =
             slice B (N.of_nat i * cs)
               (N.min ((N.of_nat i + 1) * cs) (N.of_nat (length B)))
         ∧ (DataExchange.isLastChunk c = true ↔
              DataExchange.sequenceNumber c = DataExchange.totalChunks c - 1))
    ∧ (∀ source now st,
         DataExchange.receivedChunks_ st !! transfer = None →
         DataExchange.completedData_ st !! transfer = None →
         DataExchange.getReceivedData transfer
           (DataExchange.receive_chunks chunks source now st) = B).
Proof.
  intros Hcs H64 H32.
  set (count := ceil_div (N.of_nat (length B)) cs) in *.
  pose proof (ceil_div_bounds (N.of_nat (length B)) cs Hcs) as (Hlo & Hhi & Hzero & Hpos).
  fold count in Hlo, Hhi, Hzero, Hpos.
  eexists. split; [by apply splitData_ideal|].
  split; [rewrite !length_fmap, length_seq; lia|].
  split.
  - intros i c Hi.
    rewrite list_lookup_fmap, list_lookup_fmap in Hi.
    fold count in Hi. destruct (seq 0 (N.to_nat count) !! i) as [j|] eqn:Hj; simpl in Hi; [|done].
    apply lookup_seq in Hj as [-> Hlt]. simplify_eq.
    unfold ideal_chunk. simpl.
    split; [done|]. split; [done|]. split; [done|]. split.
    + unfold slice.
      rewrite <- (take_min_length (drop _ B) (N.to_nat cs)).
      f_equal. rewrite length_drop. lia.
    + rewrite bool_decide_eq_true. lia.
  - intros source now st Hrecv Hdone.
    unfold DataExchange.getReceivedData. fold count.
    destruct (N.to_nat count) as [|k] eqn:Hk.
    + simpl. rewrite Hdone. simpl.
      destruct B; [done|]. simpl in Hpos. lia.
    + rewrite seq_S, !fmap_app. cbn [fmap list_fmap].
      unfold DataExchange.receive_chunks. rewrite foldl_snoc.
      set (st' := foldl _ st _).
      set (c := ideal_chunk cs B transfer count (N.of_nat (0 + k))).
      assert (Hid : DataExchange.chunkID c = transfer) by done.
      assert (Hst' : DataExchange.receivedChunks_ st' !! transfer
                = if decide (k = O) then None
                  else Some (chunk_table (ideal_chunk cs B transfer count <$>
                                            (N.of_nat <$> seq 0 k)) ∅)).
      { destruct (decide (k = O)) as [->|Hne]; [exact Hrecv|].
        unfold st'.
        fold (DataExchange.receive_chunks
                (ideal_chunk cs B transfer count <$> (N.of_nat <$> seq 0 k))
                source now st).
        rewrite (receive_chunks_table transfer).
        - by rewrite Hrecv.
        - apply Forall_fmap, Forall_forall. done.
        - destruct k; [done|]. rewrite seq_S, !fmap_app.
          intros Heq. by apply app_eq_nil in Heq as [_ ?]. }
      pose proof (handleDataChunk_completes cs B count (S k) c source now st') as Hfin.
      rewrite Hid in Hfin. rewrite Hfin; [| |lia|lia].
      * simpl. apply take_ge. lia.
      * unfold DataExchange.store_chunk. rewrite Hid, lookup_insert_eq, Hst'.
        f_equal. rewrite chunk_table_snoc.
        destruct (decide (k = O)) as [->|Hne]; done.
Qed.

Lemma C2_split_reassemble_witness :
  0 < 2
  ∧ ∃ chunks,
      DataExchange.splitData 2 ["001"; "002"; "003"; "004"; "005"]%byte 9
        = Returns chunks
      ∧ N.of_nat (length chunks) = 3.
Proof.
  split; [reflexivity|].
  destruct (C2_split_reassemble ["001"; "002"; "003"; "004"; "005"]%byte 2 9)
    as (chunks & Hsplit & Hlen & _).
  - reflexivity.
  - reflexivity.
  - reflexivity.
  - exists chunks. split; [exact Hsplit | exact Hlen].
Defined.

(** The claim without the size bounds fails: with [chunkSize_ = 2^64 - 1] the
    sum [totalSize + chunkSize_ - 1] wraps to 0 for a 2-byte payload, and no
    chunk is produced although [⌈2 / (2^64 - 1)⌉ = 1]. *)
Lemma C2_counterexample :
  ¬ (∀ (B : list byte) (cs transfer : N),
       0 < cs →
       ∃ chunks,
         DataExchange.splitData cs B transfer = Returns chunks
         ∧ N.of_nat (length chunks) = ceil_div (N.of_nat (length B)) cs).
Proof.
  intros H.
  destruct (H ["000"; "000"]%byte (2 ^ 64 - 1) 7) as (chunks & Hs & Hl);
    [reflexivity|].
  vm_compute in Hs. injection Hs as <-. vm_compute in Hl. discriminate Hl.
Qed.

(** Scenario 4 of the specification: 10,000 bytes in chunks of 4096. *)
Example split_10000_by_4096 :
  (λ o, match o with
        | Returns chunks =>
            (λ c, (DataExchange.sequenceNumber c,
                   N.of_nat (length (DataExchange.data c)),
                   DataExchange.isLastChunk c)) <$> chunks
        | Faults _ => []
        end) (DataExchange.splitData 4096 (zeros 10000) 1)
  = [(0, 4096, false); (1, 4096, false); (2, 1808, true)].
Proof. vm_compute. reflexivity. Qed.

(** ** Reliable messaging *)

Section reliable_messaging.
Import ReliableMessaging.

(** C1 (as amended): for an id in the pending table, [acknowledgeMessage]
    sets the record to Acknowledged, fires the delivered callback (when one is
    installed) and returns true; a second call with the same id returns true
    and fires the callback once more. *)
Theorem C1_acknowledge_fires_each_time (st : t) (id sender : N) (m : ReliableMessage) :
  pendingMessages_ st !! id = Some m →
  let r1 := acknowledgeMessage id sender st in
  let r2 := acknowledgeMessage id sender r1.2 in
  r1.1 = true
  ∧ pendingMessages_ r1.2 !! id = Some (with_status ACKNOWLEDGED m)
  ∧ fired r1.2 =
      fired st ++ (if onMessageDelivered_ st then [Delivered id sender] else [])
  ∧ r2.1 = true
  ∧ pendingMessages_ r2.2 !! id = Some (with_status ACKNOWLEDGED m)
  ∧ fired r2.2 =
      fired r1.2 ++ (if onMessageDelivered_ st then [Delivered id sender] else []).
Proof.
  intros Hm. unfold acknowledgeMessage. rewrite Hm. cbn.
  rewrite lookup_insert_eq. cbn. rewrite !lookup_insert_eq. done.
Qed.

Lemma C1_acknowledge_fires_each_time_witness :
  pendingMessages_ ack_example !! 7
    = Some (mkReliable 7 (mkMessage DATA_MESSAGE 1 2 [] 0) 2 PENDING 0 0 0)
  ∧ fired (acknowledgeMessage 7 2 (acknowledgeMessage 7 2 ack_example).2).2
    = [Delivered 7 2; Delivered 7 2].
Proof.
  split; [reflexivity|].
  pose proof (C1_acknowledge_fires_each_time ack_example 7 2 _ eq_refl)
    as (_ & _ & H1 & _ & _ & H2).
  rewrite H2, H1. reflexivity.
Defined.

(** The claim as stated (the second acknowledgement does not fire) fails. *)
Lemma C1_counterexample :
  ¬ (∀ (st : t) (id sender : N),
       is_Some (pendingMessages_ st !! id) →
       fired (acknowledgeMessage id sender (acknowledgeMessage id sender st).2).2
       = fired (acknowledgeMessage id sender st).2).
Proof.
  intros H. specialize (H ack_example 7 2 (ex_intro _ _ eq_refl)).
  vm_compute in H. discriminate H.
Qed.

Lemma select_step_cases now timeout maxRetries pending acc id :
  (select_step now timeout maxRetries pending acc id = (acc.1 ++ [id], acc.2)
   ∧ picks_retry now timeout maxRetries pending id
   ∧ ¬ picks_fail now timeout maxRetries pending id)
  ∨ (select_step now timeout maxRetries pending acc id = (acc.1, acc.2 ++ [id])
     ∧ picks_fail now timeout maxRetries pending id
     ∧ ¬ picks_retry now timeout maxRetries pending id)
  ∨ (select_step now timeout maxRetries pending acc id = acc
     ∧ ¬ picks_retry now timeout maxRetries pending id
     ∧ ¬ picks_fail now timeout maxRetries pending id).
Proof.
  unfold select_step, picks_retry, picks_fail, due.
  destruct (pending !! id) as [m|] eqn:Hm.
  - repeat case_bool_decide.
    + right; right. split; [done|]. split; intros (m' & ? & [? ?] & ?); by simplify_eq.
    + left. split; [done|]. split; [by eauto 6|].
      intros (m' & ? & [? ?] & ?); simplify_eq. lia.
    + right; left. split; [done|]. split; [exists m; split_and!; [done..|lia]|].
      intros (m' & ? & [? ?] & ?); simplify_eq.
    + right; right. split; [done|]. split; intros (m' & ? & [? ?] & ?); simplify_eq; lia.
  - right; right. split; [done|]. split; intros (m' & ? & _); simplify_eq.
Qed.

Lemma select_fold_spec now timeout maxRetries pending l acc :
  ∃ l1 l2,
    foldl (select_step now timeout maxRetries pending) acc l
      = (acc.1 ++ l1, acc.2 ++ l2)
    ∧ sublist l1 l ∧ sublist l2 l
    ∧ (∀ k, k ∈ l1 ↔ k ∈ l ∧ picks_retry now timeout maxRetries pending k)
    ∧ (∀ k, k ∈ l2 ↔ k ∈ l ∧ picks_fail now timeout maxRetries pending k).
Proof.
  revert acc. induction l as [|id l IH]; intros acc.
  - exists [], []. simpl. rewrite !app_nil_r. destruct acc.
    split_and!; try done; intros k; rewrite elem_of_nil; naive_solver.
  - cbn [foldl].
    destruct (select_step_cases now timeout maxRetries pending acc id)
      as [(-> & Hr & Hf)|[(-> & Hf & Hr)|(-> & Hr & Hf)]];
      destruct (IH (acc.1 ++ [id], acc.2)) as (l1 & l2 & E1 & S1 & S2 & M1 & M2);
      destruct (IH (acc.1, acc.2 ++ [id])) as (l1' & l2' & E1' & S1' & S2' & M1' & M2');
      destruct (IH acc) as (l1'' & l2'' & E1'' & S1'' & S2'' & M1'' & M2'').
    + exists (id :: l1), l2. rewrite E1. cbn [fst snd]. rewrite <- app_assoc.
      split_and!; [done|by constructor|by constructor|..];
        intros k; rewrite ?elem_of_cons, ?M1, ?M2; naive_solver.
    + exists l1', (id :: l2'). rewrite E1'. cbn [fst snd]. rewrite <- app_assoc.
      split_and!; [done|by constructor|by constructor|..];
        intros k; rewrite ?elem_of_cons, ?M1', ?M2'; naive_solver.
    + exists l1'', l2''. rewrite E1''.
      split_and!; [done|by constructor|by constructor|..];
        intros k; rewrite ?elem_of_cons, ?M1'', ?M2''; naive_solver.
Qed.

Lemma retry_selection_spec now timeout maxRetries st :
  let sel := retry_selection now timeout maxRetries st in
  NoDup sel.1 ∧ NoDup sel.2
  ∧ (∀ k, k ∈ sel.1 ↔ picks_retry now timeout maxRetries (pendingMessages_ st) k)
  ∧ (∀ k, k ∈ sel.2 ↔ picks_fail now timeout maxRetries (pendingMessages_ st) k).
Proof.
  unfold retry_selection.
  destruct (select_fold_spec now timeout maxRetries (pendingMessages_ st)
              (keys_in_order (pendingMessages_ st)) ([], []))
    as (l1 & l2 & -> & S1 & S2 & M1 & M2).
  cbn [fst snd app].
  pose proof (NoDup_set_in_order (dom (pendingMessages_ st))) as Hnd.
  fold (keys_in_order (pendingMessages_ st)) in Hnd.
  split_and!.
  - by eapply sublist_NoDup.
  - by eapply sublist_NoDup.
  - intros k. rewrite M1, elem_of_keys_in_order.
    split; [naive_solver|]. intros Hp. split; [|done].
    destruct Hp as (m & -> & _). by eexists.
  - intros k. rewrite M2, elem_of_keys_in_order.
    split; [naive_solver|]. intros Hp. split; [|done].
    destruct Hp as (m & -> & _). by eexists.
Qed.

Lemma sendMessageToPeer_handedOver peer msg nm :
  NetworkManager.handedOver (NetworkManager.sendMessageToPeer peer msg nm).2
  = NetworkManager.handedOver nm ++ [(peer, msg)].
Proof. unfold NetworkManager.sendMessageToPeer. by repeat case_bool_decide. Qed.

Lemma omap_agree {A B} (f g : A → option B) (l : list A) :
  (∀ x, x ∈ l → f x = g x) → omap f l = omap g l.
Proof.
  induction l as [|x l IH]; intros H; [done|].
  cbn [omap list_omap]. rewrite (H x) by left.
  rewrite IH; [done|]. intros y Hy. apply H. by right.
Qed.

Lemma retry_one_spec nowAt st id :
  pendingMessages_ (retry_one nowAt st id)
    = match pendingMessages_ st !! id with
      | Some m => <[id := bump (nowAt id) m]> (pendingMessages_ st)
      | None => pendingMessages_ st
      end
  ∧ NetworkManager.handedOver (networkManager_ (retry_one nowAt st id))
    = NetworkManager.handedOver (networkManager_ st)
      ++ option_list (resend_of (pendingMessages_ st) id)
  ∧ fired (retry_one nowAt st id) = fired st
  ∧ onMessageFailed_ (retry_one nowAt st id) = onMessageFailed_ st.
Proof.
  unfold retry_one, resend_of, sendWithRetry.
  destruct (pendingMessages_ st !! id) as [m|]; cbn.
  - pose proof (sendMessageToPeer_handedOver (destinationID m) (message m)
                  (networkManager_ st)) as Hh.
    destruct (NetworkManager.sendMessageToPeer _ _ _) as [ok nm']. done.
  - by rewrite app_nil_r.
Qed.

Lemma retry_fold_spec nowAt l st :
  NoDup l →
  (∀ k, pendingMessages_ (foldl (retry_one nowAt) st l) !! k
        = if decide (k ∈ l) then bump (nowAt k) <$> pendingMessages_ st !! k
          else pendingMessages_ st !! k)
  ∧ NetworkManager.handedOver (networkManager_ (foldl (retry_one nowAt) st l))
    = NetworkManager.handedOver (networkManager_ st)
      ++ omap (resend_of (pendingMessages_ st)) l
  ∧ fired (foldl (retry_one nowAt) st l) = fired st
  ∧ onMessageFailed_ (foldl (retry_one nowAt) st l) = onMessageFailed_ st.
Proof.
  intros Hnd. revert st. induction Hnd as [|id l Hid Hnd IH]; intros st.
  - simpl. rewrite app_nil_r. split_and!; done.
  - cbn [foldl].
    destruct (retry_one_spec nowAt st id) as (Hp & Hh & Hf & Hc).
    destruct (IH (retry_one nowAt st id)) as (Hp' & Hh' & Hf' & Hc').
    assert (Hother : ∀ k, k ≠ id →
              pendingMessages_ (retry_one nowAt st id) !! k
              = pendingMessages_ st !! k).
    { intros k Hk. rewrite Hp. destruct (pendingMessages_ st !! id); [|done].
      by rewrite lookup_insert_ne. }
    split_and!.
    + intros k. rewrite Hp'. destruct (decide (k = id)) as [->|Hne].
      * rewrite decide_False by done. rewrite decide_True by left.
        rewrite Hp. destruct (pendingMessages_ st !! id) as [m|] eqn:Hm.
        -- by rewrite lookup_insert_eq.
        -- by rewrite Hm.
      * rewrite Hother by done.
        destruct (decide (k ∈ l)).
        -- by rewrite decide_True by by right.
        -- rewrite decide_False; [done|]. rewrite elem_of_cons. naive_solver.
    + rewrite Hh', Hh. rewrite <- app_assoc. f_equal.
      cbn [omap list_omap].
      rewrite (omap_agree (resend_of (pendingMessages_ (retry_one nowAt st id)))
                 (resend_of (pendingMessages_ st)) l).
      * unfold resend_of. by destruct (pendingMessages_ st !! id).
      * intros k Hk. unfold resend_of. rewrite Hother; [done|].
        intros ->. done.
    + by rewrite Hf'.
    + by rewrite Hc'.
Qed.

Lemma markMessageFailed_spec id st :
  pendingMessages_ (markMessageFailed id st) = delete id (pendingMessages_ st)
  ∧ fired (markMessageFailed id st)
    = fired st ++ (if onMessageFailed_ st
                   then option_list (failure_of (pendingMessages_ st) id) else [])
  ∧ networkManager_ (markMessageFailed id st) = networkManager_ st
  ∧ onMessageFailed_ (markMessageFailed id st) = onMessageFailed_ st.
Proof.
  unfold markMessageFailed, failure_of.
  destruct (pendingMessages_ st !! id) as [m|] eqn:Hm; cbn.
  - split_and!; try done; by destruct (onMessageFailed_ st).
  - rewrite delete_id by done.
    split_and!; try done; by destruct (onMessageFailed_ st); rewrite ?app_nil_r.
Qed.

Lemma fail_fold_spec l st :
  NoDup l →
  (∀ k, pendingMessages_ (foldl (λ s id, markMessageFailed id s) st l) !! k
        = if decide (k ∈ l) then None else pendingMessages_ st !! k)
  ∧ fired (foldl (λ s id, markMessageFailed id s) st l)
    = fired st ++ (if onMessageFailed_ st
                   then omap (failure_of (pendingMessages_ st)) l else [])
  ∧ networkManager_ (foldl (λ s id, markMessageFailed id s) st l)
    = networkManager_ st.
Proof.
  intros Hnd. revert st. induction Hnd as [|id l Hid Hnd IH]; intros st.
  - simpl. split_and!; try done.
    destruct (onMessageFailed_ st); by rewrite app_nil_r.
  - cbn [foldl].
    destruct (markMessageFailed_spec id st) as (Hp & Hf & Hn & Hc).
    destruct (IH (markMessageFailed id st)) as (Hp' & Hf' & Hn').
    split_and!.
    + intros k. rewrite Hp', Hp. destruct (decide (k = id)) as [->|Hne].
      * rewrite decide_False by done. rewrite decide_True by left.
        apply lookup_delete_eq.
      * rewrite lookup_delete_ne by done.
        destruct (decide (k ∈ l)).
        -- by rewrite decide_True by by right.
        -- rewrite decide_False; [done|]. rewrite elem_of_cons. naive_solver.
    + rewrite Hf', Hf, Hc. rewrite <- app_assoc. f_equal.
      destruct (onMessageFailed_ st); [|done].
      cbn [omap list_omap].
      rewrite (omap_agree (failure_of (pendingMessages_ (markMessageFailed id st)))
                 (failure_of (pendingMessages_ st)) l).
      * unfold failure_of. by destruct (pendingMessages_ st !! id).
      * intros k Hk. unfold failure_of. rewrite Hp.
        rewrite lookup_delete_ne; [done|]. intros ->. done.
    + by rewrite Hn'.
Qed.

Lemma picks_exclusive now timeout maxRetries pending k :
  picks_retry now timeout maxRetries pending k →
  picks_fail now timeout maxRetries pending k → False.
Proof. intros (m & ? & _ & ?) (m' & ? & _ & ?). simplify_eq. lia. Qed.

Lemma retryPendingMessages_spec now nowAt timeout maxRetries st :
  let sel := retry_selection now timeout maxRetries st in
  let st' := retryPendingMessages now nowAt timeout maxRetries st in
  (∀ k, pendingMessages_ st' !! k
        = if decide (k ∈ sel.1) then bump (nowAt k) <$> pendingMessages_ st !! k
          else if decide (k ∈ sel.2) then None
          else pendingMessages_ st !! k)
  ∧ NetworkManager.handedOver (networkManager_ st')
    = NetworkManager.handedOver (networkManager_ st)
      ++ omap (resend_of (pendingMessages_ st)) sel.1
  ∧ fired st'
    = fired st ++ (if onMessageFailed_ st
                   then omap (failure_of (pendingMessages_ st)) sel.2 else []).
Proof.
  intros sel st'.
  destruct (retry_selection_spec now timeout maxRetries st) as (N1 & N2 & M1 & M2).
  fold sel in N1, N2, M1, M2.
  unfold st', retryPendingMessages. fold sel. destruct sel as [toRetry toFail].
  cbn [fst snd] in *.
  destruct (retry_fold_spec nowAt toRetry st N1) as (P2 & H2 & F2 & C2).
  destruct (fail_fold_spec toFail (foldl (retry_one nowAt) st toRetry) N2)
    as (P3 & F3 & H3).
  split_and!.
  - intros k. rewrite P3, P2.
    destruct (decide (k ∈ toFail)) as [Hf|Hf], (decide (k ∈ toRetry)) as [Hr|Hr];
      try done.
    exfalso. apply M1 in Hr. apply M2 in Hf. by eapply picks_exclusive.
  - by rewrite H3, H2.
  - rewrite F3, F2, C2. f_equal. destruct (onMessageFailed_ st); [|done].
    apply omap_agree. intros k Hk. unfold failure_of. rewrite P2.
    rewrite decide_False; [done|]. intros Hr.
    apply M1 in Hr. apply M2 in Hk. by eapply picks_exclusive.
Qed.

Lemma times_retried_cap maxRetries calls st k :
  match pendingMessages_ st !! k with
  | Some m => (Z.of_nat (times_retried k maxRetries calls st)
               ≤ Z.max 0 (maxRetries - retryCount m))%Z
  | None => times_retried k maxRetries calls st = O
  end.
Proof.
  revert st. induction calls as [|c calls IH]; intros st.
  - simpl. destruct (pendingMessages_ st !! k); [lia|done].
  - cbn [times_retried]. destruct c as [now nowAt timeout|id sender].
    + cbn [perform].
      destruct (retryPendingMessages_spec now nowAt timeout maxRetries st)
        as (Hp & _ & _).
      destruct (retry_selection_spec now timeout maxRetries st) as (_ & _ & M1 & _).
      specialize (IH (retryPendingMessages now nowAt timeout maxRetries st)).
      rewrite (Hp k) in IH.
      case_bool_decide as Hsel.
      * rewrite decide_True in IH by done.
        apply M1 in Hsel as (m & Hm & _ & Hrc).
        rewrite Hm in IH |- *. cbn in IH. lia.
      * rewrite decide_False in IH by done.
        destruct (pendingMessages_ st !! k) as [m|] eqn:Hm.
        -- destruct (decide (k ∈ _)); lia.
        -- destruct (decide (k ∈ _)); lia.
    + cbn [perform]. specialize (IH (acknowledgeMessage id sender st).2).
      unfold acknowledgeMessage in IH.
      destruct (pendingMessages_ st !! id) as [mi|] eqn:Hmi; cbn in IH.
      * destruct (decide (k = id)) as [->|Hne].
        -- rewrite lookup_insert_eq in IH. rewrite Hmi. cbn in IH.
           unfold acknowledgeMessage. rewrite Hmi. cbn. lia.
        -- rewrite lookup_insert_ne in IH by done.
           unfold acknowledgeMessage. rewrite Hmi. cbn.
           destruct (pendingMessages_ st !! k); lia.
      * unfold acknowledgeMessage. rewrite Hmi. cbn.
        destruct (pendingMessages_ st !! k); lia.
Qed.

(** C9: [retryPendingMessages] picks exactly the records that are not
    acknowledged and whose last (re)transmission is at least [timeoutSeconds]
    whole seconds old.  A picked record with [retryCount < maxRetries] is
    handed to the transport again, its [retryCount] incremented and its
    [lastRetry] set to the clock; a picked record with
    [retryCount >= maxRetries] is failed: the failed callback fires (when one
    is installed) and the record is dropped.  Every other record is left as
    it is.  Along any sequence of retry sweeps and acknowledgements a record
    is picked for a re-send at most [maxRetries - retryCount] times, so a
    message sent with [retryCount = 0] is retried at most [maxRetries] times. *)
Theorem C9_retry_pending (st : t) (now : Z) (nowAt : N → Z) (timeoutSeconds maxRetries : Z) :
  let st' := retryPendingMessages now nowAt timeoutSeconds maxRetries st in
  let sel := retry_selection now timeoutSeconds maxRetries st in
  (NoDup sel.1 ∧ NoDup sel.2
   ∧ (∀ k, k ∈ sel.1 ↔ picks_retry now timeoutSeconds maxRetries (pendingMessages_ st) k)
   ∧ (∀ k, k ∈ sel.2 ↔ picks_fail now timeoutSeconds maxRetries (pendingMessages_ st) k))
  ∧ (∀ k m, pendingMessages_ st !! k = Some m → ¬ due now timeoutSeconds m →
            pendingMessages_ st' !! k = Some m)
  ∧ (∀ k m, pendingMessages_ st !! k = Some m → due now timeoutSeconds m →
            (retryCount m < maxRetries)%Z →
            pendingMessages_ st' !! k = Some (bump (nowAt k) m)
            ∧ (destinationID m, message m)
                ∈ NetworkManager.handedOver (networkManager_ st'))
  ∧ (∀ k m, pendingMessages_ st !! k = Some m → due now timeoutSeconds m →
            (maxRetries ≤ retryCount m)%Z →
            pendingMessages_ st' !! k = None
            ∧ (onMessageFailed_ st = true → Failed k (destinationID m) ∈ fired st'))
  ∧ (∀ k, pendingMessages_ st !! k = None → pendingMessages_ st' !! k = None)
  ∧ NetworkManager.handedOver (networkManager_ st')
    = NetworkManager.handedOver (networkManager_ st)
      ++ omap (resend_of (pendingMessages_ st)) sel.1
  ∧ fired st'
    = fired st ++ (if onMessageFailed_ st
                   then omap (failure_of (pendingMessages_ st)) sel.2 else [])
  ∧ (∀ calls k m, pendingMessages_ st !! k = Some m →
       (Z.of_nat (times_retried k maxRetries calls st)
        ≤ Z.max 0 (maxRetries - retryCount m))%Z).
Proof.
  intros st' sel.
  destruct (retry_selection_spec now timeoutSeconds maxRetries st) as (N1 & N2 & M1 & M2).
  destruct (retryPendingMessages_spec now nowAt timeoutSeconds maxRetries st)
    as (Hp & Hh & Hf).
  fold sel in N1, N2, M1, M2, Hp, Hh, Hf. fold st' in Hp, Hh, Hf.
  split; [done|]. split_and!.
  - intros k m Hm Hnd. rewrite Hp.
    rewrite decide_False, decide_False; [done| |].
    + intros (m' & ? & ? & _)%M2. by simplify_eq.
    + intros (m' & ? & ? & _)%M1. by simplify_eq.
  - intros k m Hm Hd Hrc.
    assert (k ∈ sel.1) as Hin by (apply M1; by exists m).
    split.
    + rewrite Hp, decide_True by done. by rewrite Hm.
    + rewrite Hh. apply elem_of_app. right.
      apply list_elem_of_omap. exists k. split; [done|].
      unfold resend_of. by rewrite Hm.
  - intros k m Hm Hd Hrc.
    assert (k ∈ sel.2) as Hin by (apply M2; by exists m).
    assert (k ∉ sel.1) as Hnin.
    { intros Hr%M1. apply M2 in Hin. by eapply picks_exclusive. }
    split.
    + by rewrite Hp, decide_False, decide_True.
    + intros Hcb. rewrite Hf, Hcb. apply elem_of_app. right.
      apply list_elem_of_omap. exists k. split; [done|].
      unfold failure_of. by rewrite Hm.
  - intros k Hk. rewrite Hp, Hk. by repeat case_decide.
  - done.
  - done.
  - intros calls k m Hm.
    pose proof (times_retried_cap maxRetries calls st k) as Hcap.
    by rewrite Hm in Hcap.
Qed.

Lemma C9_retry_pending_witness :
  pendingMessages_
    (retryPendingMessages 30000000000 (λ _, 30000000000%Z) 30 3 ack_example) !! 7
  = Some (bump 30000000000
            (mkReliable 7 (mkMessage DATA_MESSAGE 1 2 [] 0) 2 PENDING 0 0 0)).
Proof.
  destruct (C9_retry_pending ack_example 30000000000 (λ _, 30000000000%Z) 30 3)
    as (_ & _ & H & _).
  destruct (H 7 _ eq_refl) as [Hp _].
  - split; [discriminate | vm_compute; discriminate].
  - reflexivity.
  - exact Hp.
Defined.

(** Scenario 6 of the specification: four sweeps 30 s apart with
    [maxRetries = 3]; the fourth one fails the message, and the failed
    callback has fired exactly once. *)
Example four_sweeps_fail_the_message :
  let sweep (n : Z) := Retry (n * 30000000000) (λ _, (n * 30000000000)%Z) 30 in
  let after3 := foldl (perform 3) ack_example [sweep 1; sweep 2; sweep 3]%Z in
  let after4 := perform 3 after3 (sweep 4%Z) in
  (retryCount <$> pendingMessages_ after3 !! 7) = Some 3%Z
  ∧ fired after3 = []
  ∧ pendingMessages_ after4 !! 7 = None
  ∧ fired after4 = [Failed 7 2]
  ∧ length (NetworkManager.handedOver (networkManager_ after4)) = 3%nat.
Proof. vm_compute. done. Qed.

End reliable_messaging.


(** ** Topology: symmetry of the adjacency relation *)

Section topology.
Import TopologyManager.

Lemma edge_insert adj k s a b :
  edge (<[k := s]> adj) a b ↔ (a = k ∧ b ∈ s) ∨ (a ≠ k ∧ edge adj a b).
Proof.
  unfold edge. destruct (decide (a = k)) as [->|Hne].
  - rewrite lookup_insert_eq. naive_solver.
  - rewrite lookup_insert_ne by done. naive_solver.
Qed.

Lemma edge_default adj a b : b ∈ default ∅ (adj !! a) ↔ edge adj a b.
Proof.
  unfold edge. destruct (adj !! a) as [s|]; simpl.
  - naive_solver.
  - split; [set_solver|]. by intros (s & ? & _).
Qed.

Lemma edge_addEdge tm x y a b :
  edge (adjacencyList_ (addEdge x y tm)) a b ↔
    edge (adjacencyList_ tm) a b ∨ (x ≠ y ∧ ((a = x ∧ b = y) ∨ (a = y ∧ b = x))).
Proof.
  unfold addEdge. case_bool_decide as Hxy; [naive_solver|].
  cbn [with_adjacency adjacencyList_].
  rewrite edge_insert, elem_of_union, elem_of_singleton, edge_default.
  rewrite !edge_insert, elem_of_union, elem_of_singleton, edge_default.
  destruct (decide (a = x)), (decide (a = y)); naive_solver.
Qed.

Lemma edge_alter_remove adj k z a b :
  edge (alter (λ s : gset N, s ∖ {[z]}) k adj) a b ↔
    edge adj a b ∧ ¬ (a = k ∧ b = z).
Proof.
  unfold edge. destruct (decide (a = k)) as [->|Hne].
  - rewrite lookup_alter_eq.
    destruct (adj !! k) as [s|]; simpl; [|naive_solver].
    split.
    + intros (s' & ? & ?); simplify_eq. set_solver.
    + intros ((s' & ? & ?) & ?); simplify_eq. eexists; split; [done|]. set_solver.
  - rewrite lookup_alter_ne by done. naive_solver.
Qed.

Lemma edge_removeEdge tm x y a b :
  edge (adjacencyList_ (removeEdge x y tm)) a b ↔
    edge (adjacencyList_ tm) a b ∧ ¬ (a = x ∧ b = y) ∧ ¬ (a = y ∧ b = x).
Proof.
  unfold removeEdge. cbn [with_adjacency adjacencyList_].
  rewrite !edge_alter_remove. naive_solver.
Qed.

Lemma edge_removeNodeFromGraph tm id a b :
  edge (adjacencyList_ (removeNodeFromGraph id tm)) a b ↔
    edge (adjacencyList_ tm) a b ∧ a ≠ id ∧ b ≠ id.
Proof.
  unfold removeNodeFromGraph, edge. cbn [adjacencyList_].
  setoid_rewrite lookup_fmap.
  destruct (decide (a = id)) as [->|Hne].
  - rewrite lookup_delete_eq. simpl. naive_solver.
  - rewrite lookup_delete_ne by done.
    destruct (adjacencyList_ tm !! a) as [s|]; simpl; [|naive_solver].
    split.
    + intros (s' & ? & ?); simplify_eq. set_solver.
    + intros ((s' & ? & ?) & ? & ?); simplify_eq. eexists; split; [done|]. set_solver.
Qed.

Lemma symmetric_addEdge tm x y :
  symmetric (adjacencyList_ tm) → symmetric (adjacencyList_ (addEdge x y tm)).
Proof. intros Hs a b. rewrite !edge_addEdge, (Hs a b). naive_solver. Qed.

Lemma symmetric_removeEdge tm x y :
  symmetric (adjacencyList_ tm) → symmetric (adjacencyList_ (removeEdge x y tm)).
Proof. intros Hs a b. rewrite !edge_removeEdge, (Hs a b). naive_solver. Qed.

Lemma symmetric_removeNodeFromGraph tm id :
  symmetric (adjacencyList_ tm) →
  symmetric (adjacencyList_ (removeNodeFromGraph id tm)).
Proof. intros Hs a b. rewrite !edge_removeNodeFromGraph, (Hs a b). naive_solver. Qed.

Lemma nodeRegistry_addEdge tm a b :
  nodeRegistry_ (addEdge a b tm) = nodeRegistry_ tm.
Proof. unfold addEdge. by case_bool_decide. Qed.

Lemma keys_registered_addEdge tm a b :
  keys_registered tm →
  is_Some (nodeRegistry_ tm !! a) → is_Some (nodeRegistry_ tm !! b) →
  keys_registered (addEdge a b tm).
Proof.
  intros Hk Ha Hb x. rewrite nodeRegistry_addEdge.
  unfold addEdge. case_bool_decide; [apply Hk|].
  cbn [with_adjacency adjacencyList_].
  destruct (decide (x = b)) as [->|Hxb]; [done|].
  rewrite lookup_insert_ne by done.
  destruct (decide (x = a)) as [->|Hxa]; [done|].
  rewrite lookup_insert_ne by done. apply Hk.
Qed.

Lemma keys_registered_removeEdge tm a b :
  keys_registered tm → keys_registered (removeEdge a b tm).
Proof.
  intros Hk x. unfold removeEdge. cbn [with_adjacency adjacencyList_ nodeRegistry_].
  intros [s Hs]. apply Hk.
  destruct (decide (x = b)) as [->|Hxb].
  - rewrite lookup_alter_eq in Hs. apply fmap_Some in Hs as (s' & Hs' & _).
    destruct (decide (b = a)) as [->|Hba].
    + rewrite lookup_alter_eq in Hs'. apply fmap_Some in Hs' as (s'' & -> & _). done.
    + rewrite lookup_alter_ne in Hs' by done. by eexists.
  - rewrite lookup_alter_ne in Hs by done.
    destruct (decide (x = a)) as [->|Hxa].
    + rewrite lookup_alter_eq in Hs. apply fmap_Some in Hs as (s' & -> & _). done.
    + rewrite lookup_alter_ne in Hs by done. by eexists.
Qed.

Lemma keys_registered_ring_edges tm nodeIDs :
  keys_registered tm →
  (∀ id, id ∈ nodeIDs → is_Some (nodeRegistry_ tm !! id)) →
  keys_registered (ring_edges nodeIDs tm)
  ∧ nodeRegistry_ (ring_edges nodeIDs tm) = nodeRegistry_ tm.
Proof.
  intros Hk Hids. unfold ring_edges.
  assert (Hin : ∀ i, i ∈ seq 0 (length nodeIDs) → (i < length nodeIDs)%nat).
  { intros i Hi. apply elem_of_seq in Hi. lia. }
  revert Hin Hk Hids. generalize (seq 0 (length nodeIDs)) as l.
  intros l. revert tm. induction l as [|i l IH]; intros tm Hin Hk Hids; [done|].
  cbn [foldl].
  assert (Hi : (i < length nodeIDs)%nat) by (apply Hin; left).
  assert (Hget : ∀ j, (j < length nodeIDs)%nat →
                      is_Some (nodeRegistry_ tm !! default 0 (nodeIDs !! j))).
  { intros j Hj. destruct (lookup_lt_is_Some_2 nodeIDs j Hj) as [x Hx].
    rewrite Hx. apply Hids. by eapply list_elem_of_lookup_2. }
  destruct (IH (addEdge (default 0 (nodeIDs !! i))
                  (default 0 (nodeIDs !! ((i + 1) mod length nodeIDs)%nat)) tm))
    as [Hk' Hr'].
  - intros j Hj. apply Hin. by right.
  - apply keys_registered_addEdge; [done|by apply Hget|].
    apply Hget. apply Nat.mod_upper_bound. lia.
  - intros id Hid. rewrite nodeRegistry_addEdge. by apply Hids.
  - split; [done|]. by rewrite Hr', nodeRegistry_addEdge.
Qed.

Lemma symmetric_addNode tm id addr :
  keys_registered tm → symmetric (adjacencyList_ tm) →
  symmetric (adjacencyList_ (addNode id addr tm).2)
  ∧ keys_registered (addNode id addr tm).2.
Proof.
  intros Hk Hs. unfold addNode. case_bool_decide as Hreg; [done|].
  cbn [snd adjacencyList_].
  assert (Hfresh : ∀ x, ¬ edge (adjacencyList_ tm) id x).
  { intros x (s & Hx & _). apply Hreg, Hk. by eexists. }
  split.
  - intros a b. rewrite !edge_insert, (Hs a b).
    split; intros [[_ []%not_elem_of_empty]|[? He]]; right;
      (split; [|done]); intros ->.
    + by apply (Hfresh a).
    + apply (Hfresh b). by apply Hs.
  - intros a. unfold keys_registered. cbn [adjacencyList_ nodeRegistry_].
    destruct (decide (a = id)) as [->|Hne].
    + by rewrite !lookup_insert_eq.
    + rewrite !lookup_insert_ne by done. apply Hk.
Qed.

Lemma keys_registered_removeNodeFromGraph tm id :
  keys_registered tm → keys_registered (removeNodeFromGraph id tm).
Proof.
  intros Hk a. unfold removeNodeFromGraph. cbn [adjacencyList_ nodeRegistry_].
  rewrite lookup_fmap. destruct (decide (a = id)) as [->|Hne].
  - rewrite lookup_delete_eq. by intros [? ?].
  - rewrite !lookup_delete_ne by done. rewrite fmap_is_Some. apply Hk.
Qed.

Lemma symmetric_removeNode tm id :
  keys_registered tm → symmetric (adjacencyList_ tm) →
  symmetric (adjacencyList_ (removeNode id tm).2)
  ∧ keys_registered (removeNode id tm).2.
Proof.
  intros Hk Hs. unfold removeNode. case_bool_decide; [|done]. cbn [snd].
  split; [by apply symmetric_removeNodeFromGraph
         |by apply keys_registered_removeNodeFromGraph].
Qed.

Lemma symmetric_ring_edges tm nodeIDs :
  symmetric (adjacencyList_ tm) →
  symmetric (adjacencyList_ (ring_edges nodeIDs tm)).
Proof.
  unfold ring_edges. generalize (length nodeIDs) at 1 as n.
  generalize (seq 0 (length nodeIDs)) as l. intros l n. revert tm.
  induction l as [|i l IH]; intros tm Hs; [exact Hs|].
  cbn [foldl]. apply IH. by apply symmetric_addEdge.
Qed.

(** [repairTopology] never gets past its first nested call: it owns
    [topologyMutex_] when [validateTopology] asks for it. *)
Lemma repairTopology_relocks tm :
  repairTopology tm = Faults relock_owned_mutex.
Proof. reflexivity. Qed.

Lemma removeNode_registered tm id :
  is_Some (nodeRegistry_ tm !! id) →
  (removeNode id tm).1 = true
  ∧ nodeRegistry_ (removeNode id tm).2 !! id = None
  ∧ adjacencyList_ (removeNode id tm).2 !! id = None
  ∧ (∀ a s, adjacencyList_ (removeNode id tm).2 !! a = Some s → id ∉ s)
  ∧ removeNode id (removeNode id tm).2 = (false, (removeNode id tm).2)
  ∧ (∀ a, a ≠ id →
       nodeRegistry_ (removeNode id tm).2 !! a = nodeRegistry_ tm !! a)
  ∧ (∀ a, a ≠ id →
       adjacencyList_ (removeNode id tm).2 !! a
       = (λ s : gset N, s ∖ {[id]}) <$> adjacencyList_ tm !! a)
  ∧ (∀ a b, edge (adjacencyList_ (removeNode id tm).2) a b
            ↔ edge (adjacencyList_ tm) a b ∧ a ≠ id ∧ b ≠ id)
  ∧ localID (removeNode id tm).2 = localID tm
  ∧ bootstrapNodes_ (removeNode id tm).2 = bootstrapNodes_ tm.
Proof.
  intros Hreg.
  assert (E : removeNode id tm = (true, removeNodeFromGraph id tm)).
  { unfold removeNode. by rewrite bool_decide_eq_true_2. }
  rewrite E. cbn [fst snd].
  assert (Hgone : nodeRegistry_ (removeNodeFromGraph id tm) !! id = None)
    by apply lookup_delete_eq.
  split_and!; try done.
  - unfold removeNodeFromGraph. cbn [adjacencyList_].
    by rewrite lookup_fmap, lookup_delete_eq.
  - intros a s. unfold removeNodeFromGraph. cbn [adjacencyList_].
    rewrite lookup_fmap. intros Hs.
    apply fmap_Some in Hs as (s' & _ & ->). set_solver.
  - unfold removeNode. rewrite bool_decide_eq_false_2; [done|].
    rewrite Hgone. by intros [? ?].
  - intros a Hne. unfold removeNodeFromGraph. cbn [nodeRegistry_].
    by rewrite lookup_delete_ne.
  - intros a Hne. unfold removeNodeFromGraph. cbn [adjacencyList_].
    by rewrite lookup_fmap, lookup_delete_ne.
  - apply edge_removeNodeFromGraph.
Qed.

Lemma removeNode_unregistered tm id :
  nodeRegistry_ tm !! id = None → removeNode id tm = (false, tm).
Proof.
  intros Hreg. unfold removeNode. rewrite bool_decide_eq_false_2; [done|].
  rewrite Hreg. by intros [? ?].
Qed.

(** C7: [removeNode] of a registered id returns true and takes exactly that
    id out: it is gone from the registry, from the adjacency map and from
    every adjacency set, while every other registration, every other
    adjacency set but for that element, the local id and the bootstrap list
    are as before; a second [removeNode] of the same id, like one of any
    unregistered id, returns false and changes nothing.  [addNode],
    [removeNode], [addEdge], [removeEdge] and the ring of edges that
    [repairTopology] draws over the registered ids keep the adjacency relation
    symmetric on graphs whose adjacency keys are registered (I1), a property
    they keep as well.  [repairTopology] itself takes [topologyMutex_] again
    in its first call and so never hands back a state. *)
Theorem C7_removeNode_and_symmetry :
  (∀ tm id,
     is_Some (nodeRegistry_ tm !! id) →
     (removeNode id tm).1 = true
     ∧ nodeRegistry_ (removeNode id tm).2 !! id = None
     ∧ adjacencyList_ (removeNode id tm).2 !! id = None
     ∧ (∀ a s, adjacencyList_ (removeNode id tm).2 !! a = Some s → id ∉ s)
     ∧ removeNode id (removeNode id tm).2 = (false, (removeNode id tm).2)
     ∧ (∀ a, a ≠ id →
          nodeRegistry_ (removeNode id tm).2 !! a = nodeRegistry_ tm !! a)
     ∧ (∀ a, a ≠ id →
          adjacencyList_ (removeNode id tm).2 !! a
          = (λ s : gset N, s ∖ {[id]}) <$> adjacencyList_ tm !! a)
     ∧ (∀ a b, edge (adjacencyList_ (removeNode id tm).2) a b
               ↔ edge (adjacencyList_ tm) a b ∧ a ≠ id ∧ b ≠ id)
     ∧ localID (removeNode id tm).2 = localID tm
     ∧ bootstrapNodes_ (removeNode id tm).2 = bootstrapNodes_ tm)
  ∧ (∀ tm id,
       nodeRegistry_ tm !! id = None → removeNode id tm = (false, tm))
  ∧ (∀ tm id addr,
       keys_registered tm → symmetric (adjacencyList_ tm) →
       symmetric (adjacencyList_ (addNode id addr tm).2)
       ∧ keys_registered (addNode id addr tm).2)
  ∧ (∀ tm id,
       keys_registered tm → symmetric (adjacencyList_ tm) →
       symmetric (adjacencyList_ (removeNode id tm).2)
       ∧ keys_registered (removeNode id tm).2)
  ∧ (∀ tm a b,
       symmetric (adjacencyList_ tm) →
       symmetric (adjacencyList_ (addEdge a b tm))
       ∧ (keys_registered tm →
          is_Some (nodeRegistry_ tm !! a) → is_Some (nodeRegistry_ tm !! b) →
          keys_registered (addEdge a b tm)))
  ∧ (∀ tm a b,
       symmetric (adjacencyList_ tm) →
       symmetric (adjacencyList_ (removeEdge a b tm))
       ∧ (keys_registered tm → keys_registered (removeEdge a b tm)))
  ∧ (∀ tm,
       keys_registered tm → symmetric (adjacencyList_ tm) →
       symmetric
         (adjacencyList_ (ring_edges (keys_in_order (nodeRegistry_ tm)) tm))
       ∧ keys_registered (ring_edges (keys_in_order (nodeRegistry_ tm)) tm))
  ∧ (∀ tm, repairTopology tm = Faults relock_owned_mutex).
Proof.
  split_and!.
  - apply removeNode_registered.
  - apply removeNode_unregistered.
  - apply symmetric_addNode.
  - apply symmetric_removeNode.
  - intros tm a b Hs. split; [by apply symmetric_addEdge|].
    apply keys_registered_addEdge.
  - intros tm a b Hs. split; [by apply symmetric_removeEdge|].
    apply keys_registered_removeEdge.
  - intros tm Hk Hs. split; [by apply symmetric_ring_edges|].
    apply keys_registered_ring_edges; [done|].
    intros id. by rewrite elem_of_keys_in_order.
  - apply repairTopology_relocks.
Qed.

End topology.

(** ** findPath: breadth-first search *)

Section find_path.
Import TopologyManager.
Context (adj : gmap N (gset N)) (from to : N).

Lemma is_path_snoc (p : list N) (u v : N) :
  is_path adj p → last p = Some u → edge adj u v → is_path adj (p ++ [v]).
Proof.
  induction p as [|a [|b rest] IH]; intros Hp Hl He.
  - done.
  - simpl in Hl. simplify_eq. simpl. done.
  - destruct Hp as [Hab Hp]. cbn [app is_path]. split; [done|].
    apply IH; [done| |done]. by rewrite last_cons_cons in Hl.
Qed.

Lemma reach_path m v :
  reach adj from m v → ∃ p, path_between adj from v p ∧ length p = S m.
Proof.
  induction 1 as [|n u v Hr (p & (Hp & Hh & Hl) & Hlen) He].
  - exists [from]. by repeat split.
  - exists (p ++ [v]). split; [split; [|split]|].
    + by eapply is_path_snoc.
    + destruct p; [done|]. done.
    + by rewrite last_snoc.
    + rewrite length_app. simpl. lia.
Qed.

Lemma path_reach_gen (p : list N) a v :
  is_path adj p → head p = Some a → last p = Some v →
  ∀ n, reach adj from n a → reach adj from (n + length p - 1) v.
Proof.
  revert a. induction p as [|x [|y rest] IH]; intros a Hp Hh Hl n Hr.
  - done.
  - simpl in *. simplify_eq. by replace (n + 1 - 1)%nat with n by lia.
  - destruct Hp as [Hxy Hp]. simpl in Hh. simplify_eq.
    rewrite last_cons_cons in Hl.
    specialize (IH y Hp eq_refl Hl (S n) (reach_step _ _ _ _ _ Hr Hxy)).
    cbn [length] in *. by replace (n + S (S (length rest)) - 1)%nat
      with (S n + S (length rest) - 1)%nat by lia.
Qed.

Lemma path_reach (p : list N) v :
  path_between adj from v p → reach adj from (length p - 1) v.
Proof.
  intros (Hp & Hh & Hl).
  apply (path_reach_gen p from v Hp Hh Hl 0%nat). constructor.
Qed.

Lemma filter_agree {A} (P Q : A → Prop) `{!∀ x, Decision (P x)} `{!∀ x, Decision (Q x)}
    (l : list A) :
  (∀ x, x ∈ l → P x ↔ Q x) → filter P l = filter Q l.
Proof.
  induction l as [|x l IH]; intros Hag; [done|].
  assert (filter P l = filter Q l) as E.
  { apply IH. intros y Hy. apply Hag. by right. }
  destruct (decide (P x)) as [HP|HP].
  - rewrite !filter_cons_True; [by rewrite E|by apply Hag; [left|]|done].
  - rewrite !filter_cons_False; [done| |done]. intros HQ. apply HP, Hag; [left|done].
Qed.

Lemma visit_fold_spec (u : N) (l : list N) (st : bfs_state) :
  NoDup l →
  queue (foldl (visit u) st l) = queue st ++ filter (λ w, w ∉ visited st) l
  ∧ visited (foldl (visit u) st l) = visited st ∪ list_to_set l
  ∧ (∀ w, parent (foldl (visit u) st l) !! w
          = if decide (w ∈ l ∧ w ∉ visited st) then Some u else parent st !! w).
Proof.
  intros Hnd. revert st. induction Hnd as [|x l Hx Hnd IH]; intros st.
  - cbn [foldl filter list_filter]. rewrite app_nil_r.
    split_and!; [done|set_solver|].
    intros w. rewrite decide_False; [done|]. rewrite elem_of_nil. tauto.
  - cbn [foldl]. destruct (IH (visit u st x)) as (Hq & Hv & Hp).
    rewrite Hq, Hv. unfold visit in *. case_bool_decide as Hin.
    + split_and!.
      * rewrite filter_cons_False by tauto. done.
      * set_solver.
      * intros w. rewrite Hp. repeat case_decide; try done.
        -- exfalso. set_solver.
        -- exfalso. set_solver.
    + cbn [queue visited parent] in *. split_and!.
      * rewrite filter_cons_True by done. rewrite <- app_assoc. f_equal. simpl.
        f_equal. apply filter_agree. intros w Hw. set_solver.
      * set_solver.
      * intros w. rewrite Hp. destruct (decide (w = x)) as [->|Hne].
        -- rewrite decide_False by set_solver.
           rewrite lookup_insert_eq. rewrite decide_True; [done|]. set_solver.
        -- rewrite lookup_insert_ne by done.
           repeat case_decide; try done; exfalso; set_solver.
Qed.

Lemma reconstruct_spec (par : gmap N N) (vis : gset N) (lvl : N → nat) :
  lvl from = O →
  (∀ v, v ∈ vis → v ≠ from →
     ∃ p, par !! v = Some p ∧ p ∈ vis ∧ edge adj p v ∧ lvl v = S (lvl p)) →
  ∀ k v fuel acc,
    v ∈ vis → lvl v = k → (k < fuel)%nat →
    ∃ q, reconstruct fuel par from v acc = Some (q ++ reverse acc)
         ∧ path_between adj from v q ∧ length q = S k.
Proof.
  intros H0 Hpar. induction k as [|k IH]; intros v fuel acc Hv Hk Hfuel.
  - destruct fuel as [|fuel]; [lia|]. cbn [reconstruct].
    destruct (decide (v = from)) as [->|Hne].
    + rewrite bool_decide_eq_true_2 by done. exists [from].
      rewrite reverse_app. simpl. by repeat split.
    + destruct (Hpar v Hv Hne) as (p & _ & _ & _ & Hl). lia.
  - destruct fuel as [|fuel]; [lia|]. cbn [reconstruct].
    destruct (decide (v = from)) as [->|Hne]; [lia|].
    rewrite bool_decide_eq_false_2 by done.
    destruct (Hpar v Hv Hne) as (p & Hp & Hpv & He & Hl).
    rewrite Hp. simpl.
    destruct (IH p fuel (acc ++ [v]) Hpv ltac:(lia) ltac:(lia))
      as (q & Hq & (Hq1 & Hq2 & Hq3) & Hlen).
    exists (q ++ [v]). rewrite Hq, reverse_app. simpl.
    rewrite <- app_assoc. split; [done|]. split; [split; [|split]|].
    + by eapply is_path_snoc.
    + by destruct q.
    + by rewrite last_snoc.
    + rewrite length_app. simpl. lia.
Qed.

(** A walk that ends outside the visited set passes through the queue. *)
Lemma walk_crosses_queue (st : bfs_state) m w :
  from ∈ visited st →
  (∀ u v, u ∈ visited st → u ∉ queue st → edge adj u v → v ∈ visited st) →
  reach adj from m w → w ∉ visited st →
  ∃ x k, (k < m)%nat ∧ x ∈ queue st ∧ x ∈ visited st ∧ reach adj from k x.
Proof.
  intros Hfrom Hclosed. induction 1 as [|n u v Hr IH He]; intros Hw.
  - done.
  - destruct (decide (u ∈ visited st)) as [Hu|Hu].
    + destruct (decide (u ∈ queue st)) as [Hq|Hq].
      * exists u, n. split_and!; [lia|done..].
      * exfalso. apply Hw. by eapply Hclosed.
    + destruct (IH Hu) as (x & k & ? & ? & ? & ?). exists x, k.
      split_and!; [lia|done..].
Qed.

Lemma set_in_order_empty : set_in_order ∅ = [].
Proof. unfold set_in_order. by rewrite elements_empty. Qed.

Lemma universe_spec (s : gset N) u : adj !! u = Some s → s ⊆ universe adj.
Proof.
  intros Hs w Hw. unfold universe. apply elem_of_union_list.
  exists s. split; [|done]. apply list_elem_of_fmap. exists (u, s).
  split; [done|]. by apply elem_of_map_to_list.
Qed.

Lemma bfs_step_inv (st : bfs_state) (lvl : N → nat) (u : N) (rest : list N) :
  bfs_inv adj from to st lvl → queue st = u :: rest → u ≠ to →
  let st' := match adj !! u with
             | Some neighbors =>
                 foldl (visit u) (mkBfs rest (parent st) (visited st))
                   (set_in_order neighbors)
             | None => mkBfs rest (parent st) (visited st)
             end in
  ∃ lvl',
    bfs_inv adj from to st' lvl'
    ∧ (length (queue st') + size (universe adj ∖ visited st')
       = length rest + size (universe adj ∖ visited st))%nat.
Proof.
  intros (I1 & I2 & I3 & I4 & I5 & (d & q1 & q2 & Iq & Iq1 & Iq2) & I7 & I8 & I9)
         Hqueue Hto st'.
  set (s := default ∅ (adj !! u)).
  assert (Hst' : st' = foldl (visit u) (mkBfs rest (parent st) (visited st))
                         (set_in_order s)).
  { unfold st', s. destruct (adj !! u); [done|].
    change (default ∅ None) with (∅ : gset N). by rewrite set_in_order_empty. }
  assert (Hs : ∀ w, w ∈ s ↔ edge adj u w) by (intros w; apply edge_default).
  assert (HsU : s ⊆ universe adj).
  { unfold s. destruct (adj !! u) eqn:E; [by eapply universe_spec|set_solver]. }
  clearbody st' s.
  destruct (visit_fold_spec u (set_in_order s)
              (mkBfs rest (parent st) (visited st)) (NoDup_set_in_order s))
    as (Hq & Hv & Hp).
  rewrite <- Hst' in Hq, Hv, Hp. cbn [queue visited parent] in Hq, Hv, Hp.
  set (added := filter (λ w, w ∉ visited st) (set_in_order s)) in *.
  assert (Hnew : ∀ w, w ∈ added ↔ w ∈ s ∧ w ∉ visited st).
  { intros w. unfold added. rewrite list_elem_of_filter, elem_of_set_in_order. tauto. }
  assert (Hnd : NoDup added) by (apply NoDup_filter, NoDup_set_in_order).
  assert (Hv' : visited st' = visited st ∪ s).
  { rewrite Hv. apply set_eq. intros w.
    rewrite !elem_of_union, elem_of_list_to_set, elem_of_set_in_order. done. }
  assert (Hp' : ∀ w, parent st' !! w
                     = if decide (w ∈ added) then Some u else parent st !! w).
  { intros w. rewrite Hp. destruct (decide (w ∈ added)) as [Hw|Hw].
    - apply Hnew in Hw. rewrite decide_True; [done|].
      by rewrite elem_of_set_in_order.
    - rewrite decide_False; [done|]. rewrite elem_of_set_in_order.
      intros ?. by apply Hw, Hnew. }
  assert (Hu : u ∈ visited st ∧ u ∈ queue st).
  { rewrite Hqueue. split; [|left].
    destruct q1 as [|x q1'].
    - simpl in Iq. rewrite Hqueue in Iq. subst q2.
      by apply Forall_cons_1 in Iq2 as [[? _] _].
    - simpl in Iq. rewrite Hqueue in Iq. injection Iq as <- Hrest.
      by apply Forall_cons_1 in Iq1 as [[? _] _]. }
  destruct Hu as [Hu Huq].
  assert (Hhead : ∀ x, x ∈ queue st → (lvl u ≤ lvl x)%nat).
  { intros x Hx. rewrite Iq in Hx.
    destruct q1 as [|y q1'].
    - simpl in Iq. rewrite Hqueue in Iq. subst q2. simpl in Hx.
      rewrite Forall_forall in Iq2.
      destruct (Iq2 u ltac:(left)) as [_ ->]. destruct (Iq2 x Hx) as [_ ->]. done.
    - simpl in Iq. rewrite Hqueue in Iq. injection Iq as <- Hrest.
      rewrite Forall_forall in Iq1, Iq2.
      destruct (Iq1 u ltac:(left)) as [_ ->].
      apply elem_of_app in Hx as [Hx|Hx].
      + destruct (Iq1 x Hx) as [_ ->]. done.
      + destruct (Iq2 x Hx) as [_ ->]. lia. }
  set (lvl' := λ w, if decide (w ∈ added) then S (lvl u) else lvl w).
  assert (Hold : ∀ w, w ∈ visited st → lvl' w = lvl w).
  { intros w Hw. unfold lvl'. rewrite decide_False; [done|].
    intros Hn%Hnew. tauto. }
  assert (Hsubset : visited st ⊆ visited st') by (rewrite Hv'; set_solver).
  assert (Hsub : ∀ w, w ∈ visited st → w ∈ visited st') by set_solver.
  assert (Hcase : ∀ w, w ∈ visited st' → w ∈ added ∨ (w ∈ visited st ∧ w ∉ added)).
  { intros w. rewrite Hv', elem_of_union.
    destruct (decide (w ∈ added)) as [|Hn]; [by left|]. right. split; [|done].
    destruct (decide (w ∈ visited st)); [done|]. exfalso. apply Hn, Hnew. tauto. }
  exists lvl'. split.
  - unfold bfs_inv. split_and!.
    + apply set_eq. intros w. rewrite elem_of_dom, Hp', Hv', elem_of_union.
      destruct (decide (w ∈ added)) as [Hw|Hw].
      * apply Hnew in Hw. split; [tauto|by eauto].
      * rewrite <- elem_of_dom, I1. split; [tauto|].
        intros [?|?]; [done|]. destruct (decide (w ∈ visited st)); [done|].
        exfalso. apply Hw, Hnew. tauto.
    + by apply Hsub.
    + by rewrite Hold.
    + intros v Hvv Hne. destruct (Hcase v Hvv) as [Hn|[Hvo Hn]].
      * exists u. rewrite Hp', decide_True by done.
        split; [done|]. split; [by apply Hsub|].
        split; [apply Hs; by apply Hnew in Hn as [? ?]|].
        unfold lvl' at 1. rewrite decide_True by done. by rewrite Hold.
      * destruct (I4 v Hvo Hne) as (p & Hpv & Hpvis & He & Hl).
        exists p. rewrite Hp', decide_False by done.
        split; [done|]. split; [by apply Hsub|]. split; [done|].
        by rewrite !Hold.
    + intros v m Hvv Hr. destruct (Hcase v Hvv) as [Hn|[Hvo Hn]].
      * unfold lvl'. rewrite decide_True by done.
        apply Hnew in Hn as [_ Hnv].
        destruct (walk_crosses_queue st m v I2 I7 Hr Hnv)
          as (x & k & Hk & Hxq & Hxv & Hrx).
        pose proof (I5 x k Hxv Hrx). pose proof (Hhead x Hxq). lia.
      * rewrite Hold by done. by apply I5.
    + assert (Hnewlvl : Forall (λ q, q ∈ visited st' ∧ lvl' q = S (lvl u)) added).
      { apply Forall_forall. intros w Hw. split.
        - rewrite Hv'. apply Hnew in Hw. set_solver.
        - unfold lvl'. by rewrite decide_True. }
      assert (Hkeep : ∀ k l, Forall (λ q, q ∈ visited st ∧ lvl q = k) l →
                             Forall (λ q, q ∈ visited st' ∧ lvl' q = k) l).
      { intros k l Hf. eapply Forall_impl; [exact Hf|]. intros q [? ?].
        split; [by apply Hsub|by rewrite Hold]. }
      rewrite Hq. destruct q1 as [|y q1'].
      * simpl in Iq. rewrite Hqueue in Iq. subst q2.
        apply Forall_cons_1 in Iq2 as [[_ Hlu] Iq2].
        exists (S d), rest, added. split_and!; [done|by apply Hkeep|].
        by rewrite <- Hlu.
      * simpl in Iq. rewrite Hqueue in Iq. injection Iq as <- Hrest.
        apply Forall_cons_1 in Iq1 as [[_ Hlu] Iq1]. subst d.
        exists (lvl u), q1', (q2 ++ added). split_and!.
        -- by rewrite Hrest, <- app_assoc.
        -- by apply Hkeep.
        -- apply Forall_app. split; [by apply Hkeep|done].
    + intros a b Ha Haq Hab. rewrite Hq in Haq.
      apply not_elem_of_app in Haq as [Har Han].
      destruct (Hcase a Ha) as [?|[Hao _]]; [done|].
      destruct (decide (a = u)) as [->|Hne].
      * rewrite Hv'. apply Hs in Hab. set_solver.
      * apply Hsub. eapply I7; [done| |done].
        rewrite Hqueue. rewrite not_elem_of_cons. done.
    + intros a Ha Haq. rewrite Hq in Haq.
      apply not_elem_of_app in Haq as [Har Han].
      destruct (Hcase a Ha) as [?|[Hao _]]; [done|].
      destruct (decide (a = u)) as [->|Hne]; [done|].
      apply I8; [done|]. rewrite Hqueue. rewrite not_elem_of_cons. done.
    + intros v Hvv.
      pose proof (subseteq_size _ _ Hsubset) as Hsz.
      destruct (Hcase v Hvv) as [Hn|[Hvo Hn]].
      * unfold lvl'. rewrite decide_True by done.
        pose proof (I9 u Hu).
        assert (visited st ⊂ visited st') as Hstrict.
        { split; [done|]. intros Hrev. apply Hnew in Hn as [? Hnv].
          apply Hnv, Hrev. rewrite Hv'. set_solver. }
        apply subset_size in Hstrict. lia.
      * rewrite Hold by done. pose proof (I9 v Hvo). lia.
  - rewrite Hq, length_app.
    assert (size (universe adj ∖ visited st)
            = (size (universe adj ∖ visited st') + length added)%nat) as ->; [|lia].
    rewrite <- (size_list_to_set (C := gset N) added) by done.
    rewrite <- size_union.
    + f_equal. apply set_eq. intros w.
      rewrite elem_of_union, !elem_of_difference, elem_of_list_to_set, Hnew, Hv'.
      rewrite elem_of_union.
      destruct (decide (w ∈ s)), (decide (w ∈ visited st)); set_solver.
    + intros w. rewrite elem_of_difference, elem_of_list_to_set, Hnew, Hv'.
      set_solver.
Qed.

Lemma bfs_loop_spec (fuel : nat) (st : bfs_state) (lvl : N → nat) :
  bfs_inv adj from to st lvl →
  (length (queue st) + size (universe adj ∖ visited st) < fuel)%nat →
  ∃ p, bfs_loop fuel adj from to st = Some p ∧ bfs_post adj from to p.
Proof.
  revert st lvl. induction fuel as [|fuel IH]; intros st lvl Hinv Hfuel; [lia|].
  cbn [bfs_loop]. destruct (queue st) as [|u rest] eqn:Hqueue.
  - exists []. split; [done|]. left. split; [done|]. intros m Hr.
    destruct Hinv as (_ & I2 & _ & _ & _ & _ & I7 & I8 & _).
    assert (to ∉ visited st) as Hto.
    { intros Hin. apply (I8 to Hin); [|done]. rewrite Hqueue. apply not_elem_of_nil. }
    destruct (walk_crosses_queue st m to I2 I7 Hr Hto) as (x & _ & _ & Hx & _).
    rewrite Hqueue in Hx. by apply elem_of_nil in Hx.
  - destruct (decide (u = to)) as [->|Hne].
    + rewrite bool_decide_eq_true_2 by done.
      destruct Hinv as (I1 & I2 & I3 & I4 & I5 & (d & q1 & q2 & Iq & Iq1 & Iq2) & _ & _ & I9).
      assert (to ∈ visited st) as Hto.
      { rewrite Hqueue in Iq. destruct q1 as [|y q1'].
        - simpl in Iq. subst q2. by apply Forall_cons_1 in Iq2 as [[? _] _].
        - simpl in Iq. injection Iq as <- _.
          by apply Forall_cons_1 in Iq1 as [[? _] _]. }
      destruct (reconstruct_spec (parent st) (visited st) lvl I3 I4 (lvl to) to
                  (S (size (parent st))) [] Hto eq_refl) as (q & Hq & Hpath & Hlen).
      { rewrite <- size_dom, I1. pose proof (I9 to Hto). lia. }
      exists q. rewrite Hq, app_nil_r. split; [done|]. right. split; [done|].
      intros m Hr. rewrite Hlen. pose proof (I5 to m Hto Hr). lia.
    + rewrite bool_decide_eq_false_2 by done.
      destruct (bfs_step_inv st lvl u rest Hinv Hqueue Hne) as (lvl' & Hinv' & Hpot).
      eapply IH; [exact Hinv'|]. rewrite Hpot. simpl in Hfuel. lia.
Qed.

End find_path.

Section find_path_top.
Import TopologyManager.

Lemma bfs_start_inv adj from to :
  from ≠ to → bfs_inv adj from to (bfs_start from) (λ _, O).
Proof.
  intros Hne. unfold bfs_inv, bfs_start. cbn [queue parent visited]. split_and!.
  - by rewrite dom_singleton_L.
  - set_solver.
  - done.
  - intros v Hv Hvf. set_solver.
  - intros. lia.
  - exists O, [from], []. split_and!; [done| |done].
    apply Forall_singleton. split; [set_solver|done].
  - intros u v Hu Hq. set_solver.
  - intros u Hu Hq. set_solver.
  - intros v _. rewrite size_singleton. lia.
Qed.

(** The search never stops for lack of fuel. *)
Lemma findPath_run_spec tm from to :
  from ≠ to →
  ∃ p, findPath_run tm from to = Some p
       ∧ bfs_post (adjacencyList_ tm) from to p.
Proof.
  intros Hne. unfold findPath_run.
  eapply bfs_loop_spec; [by apply bfs_start_inv|].
  unfold bfs_fuel, bfs_start. cbn [queue visited length].
  assert (size (universe (adjacencyList_ tm) ∖ {[from]})
          ≤ size (universe (adjacencyList_ tm)))%nat; [|lia].
  apply subseteq_size. set_solver.
Qed.

Lemma findPath_terminates tm from to :
  from ≠ to → is_Some (findPath_run tm from to).
Proof. intros Hne. destruct (findPath_run_spec tm from to Hne) as (p & -> & _). by eexists. Qed.

(** C3: [findPath(from, to)] is [[from]] when [from = to]; otherwise the
    search runs to its end, and its result is empty when no hop sequence
    through the adjacency relation leads from [from] to [to], and else is such
    a hop sequence, both endpoints included, than which no hop sequence from
    [from] to [to] is shorter. *)
Theorem C3_findPath_shortest (tm : t) (from to : N) :
  (from = to → findPath tm from to = [from])
  ∧ (from ≠ to → findPath_run tm from to = Some (findPath tm from to))
  ∧ (from ≠ to →
     (¬ ∃ p, path_between (adjacencyList_ tm) from to p) →
     findPath tm from to = [])
  ∧ (from ≠ to →
     (∃ p, path_between (adjacencyList_ tm) from to p) →
     path_between (adjacencyList_ tm) from to (findPath tm from to)
     ∧ ∀ p, path_between (adjacencyList_ tm) from to p →
            (length (findPath tm from to) ≤ length p)%nat).
Proof.
  split_and!.
  - intros ->. unfold findPath. by rewrite bool_decide_eq_true_2.
  - intros Hne. unfold findPath. rewrite bool_decide_eq_false_2 by done.
    by destruct (findPath_run_spec tm from to Hne) as (p & -> & _).
  - intros Hne Hno. unfold findPath. rewrite bool_decide_eq_false_2 by done.
    destruct (findPath_run_spec tm from to Hne) as (p & -> & [[-> _]|[Hp _]]); [done|].
    exfalso. apply Hno. by exists p.
  - intros Hne (p0 & Hp0). unfold findPath. rewrite bool_decide_eq_false_2 by done.
    destruct (findPath_run_spec tm from to Hne) as (p & -> & [[-> Hno]|[Hp Hmin]]).
    + exfalso. eapply Hno. by eapply path_reach.
    + simpl. split; [done|]. intros q Hq.
      pose proof (path_reach _ _ _ _ Hq) as Hr. apply Hmin in Hr.
      destruct Hq as (Hq1 & _ & _). destruct q; [done|]. simpl in *. lia.
Qed.

End find_path_top.
Example findPath_ring_1_3 : TopologyManager.findPath ring_example 1 3 = [1; 3].
Proof. vm_compute. reflexivity. Qed.

Example findPath_chain_1_4 : TopologyManager.findPath chain_example 1 4 = [1; 2; 3; 4].
Proof. vm_compute. reflexivity. Qed.

Lemma C3_findPath_shortest_witness :
  TopologyManager.findPath ring_example 1 1 = [1]
  ∧ path_between (TopologyManager.adjacencyList_ ring_example) 1 3
      (TopologyManager.findPath ring_example 1 3)
  ∧ (length (TopologyManager.findPath ring_example 1 3) ≤ length [1; 2; 3])%nat.
Proof.
  destruct (C3_findPath_shortest ring_example 1 3) as (_ & _ & _ & H3).
  destruct (C3_findPath_shortest ring_example 1 1) as (H1 & _).
  assert (H12 : edge (TopologyManager.adjacencyList_ ring_example) 1 2).
  { exists {[2; 3]}. split; [reflexivity|set_solver]. }
  assert (H23 : edge (TopologyManager.adjacencyList_ ring_example) 2 3).
  { exists {[1; 3]}. split; [reflexivity|set_solver]. }
  assert (Hp : path_between (TopologyManager.adjacencyList_ ring_example) 1 3 [1; 2; 3]).
  { split; [|split; reflexivity]. simpl. tauto. }
  destruct H3 as [Hpath Hmin]; [discriminate|by exists [1; 2; 3]|].
  split; [by apply H1|]. split; [exact Hpath|]. exact (Hmin _ Hp).
Defined.

Lemma C7_removeNode_and_symmetry_witness :
  (TopologyManager.removeNode 2 ring_example).1 = true
  ∧ TopologyManager.nodeRegistry_ (TopologyManager.removeNode 2 ring_example).2 !! 2
    = None
  ∧ (TopologyManager.removeNode 2 (TopologyManager.removeNode 2 ring_example).2).1
    = false
  ∧ TopologyManager.nodeRegistry_ (TopologyManager.removeNode 2 ring_example).2 !! 3
    = TopologyManager.nodeRegistry_ ring_example !! 3
  ∧ (edge (TopologyManager.adjacencyList_
             (TopologyManager.removeNode 2 ring_example).2) 1 3
     ↔ edge (TopologyManager.adjacencyList_ ring_example) 1 3 ∧ 1 ≠ 2 ∧ 3 ≠ 2).
Proof.
  destruct C7_removeNode_and_symmetry as (H & _).
  destruct (H ring_example 2) as (H1 & H2 & _ & _ & H5 & H6 & _ & H8 & _).
  - by eexists.
  - split; [exact H1|]. split; [exact H2|]. split; [by rewrite H5|].
    split; [by apply H6 | apply H8].
Defined.

(** ** Message router *)

Section message_router.
Import MessageRouter.

Lemma findPath_last tm from to :
  TopologyManager.findPath tm from to ≠ [] →
  head (TopologyManager.findPath tm from to) = Some from
  ∧ last (TopologyManager.findPath tm from to) = Some to.
Proof.
  unfold TopologyManager.findPath. case_bool_decide as Heq.
  - subst. done.
  - destruct (findPath_run_spec tm from to Heq) as (p & -> & [[-> _]|[(_ & Hh & Hl) _]]).
    + done.
    + done.
Qed.

Lemma findRoute_ends r target :
  findRoute r target ≠ [] →
  head (findRoute r target) = Some (Node.getID (node_ r))
  ∧ last (findRoute r target) = Some target.
Proof.
  unfold findRoute. destruct (Node.hasPeer (node_ r) target); [done|].
  apply findPath_last.
Qed.

Lemma send_handedOver peer msg r :
  NetworkManager.handedOver (networkManager_ (send peer msg r).2)
  = NetworkManager.handedOver (networkManager_ r) ++ [(peer, msg)]
  ∧ totalHopCount_ (send peer msg r).2 = totalHopCount_ r.
Proof.
  unfold send.
  pose proof (sendMessageToPeer_handedOver peer msg (networkManager_ r)) as H.
  destruct (NetworkManager.sendMessageToPeer _ _ _) as [ok nm]. done.
Qed.

(** What [routeMessageMultiHop] does, by the length of the route. *)
Lemma routeMessageMultiHop_cases (r : t) (target : N) (msg : Message) :
  let route := findRoute r target in
  let out := routeMessageMultiHop target msg r in
  (route = [] → out = (false, r))
  ∧ (length route = 1%nat → out = send target msg r)
  ∧ (length route = 2%nat →
       NetworkManager.handedOver (networkManager_ out.2)
       = NetworkManager.handedOver (networkManager_ r) ++ [(target, msg)])
  ∧ ((2 ≤ length route)%nat →
       NetworkManager.handedOver (networkManager_ out.2)
       = NetworkManager.handedOver (networkManager_ r)
         ++ [(default 0 (route !! 1%nat), msg)]
       ∧ totalHopCount_ out.2
         = wrap64 (totalHopCount_ r + (N.of_nat (length route) - 1))).
Proof.
  intros route out. subst out. unfold routeMessageMultiHop.
  pose proof (findRoute_ends r target) as Hends. fold route in Hends |- *.
  destruct route as [|a [|b rest]] eqn:Hroute.
  - split_and!; try done; simpl; lia.
  - split_and!; try done; simpl; lia.
  - split_and!; try done.
    + intros Hlen. destruct rest; [|done].
      destruct Hends as [_ Hl]; [done|]. simpl in Hl. simplify_eq.
      match goal with |- context [send ?p ?m ?x] =>
        destruct (send_handedOver p m x) as [-> _] end. done.
    + intros _.
      match goal with |- context [send ?p ?m ?x] =>
        destruct (send_handedOver p m x) as [-> ->] end. done.
Qed.

(** The sibling path: [forwardMessage] refuses a route of fewer than two
    nodes. *)
Lemma forwardMessage_short_route_fails (r : t) (msg : Message) (hopCount : Z) :
  receiverID msg ≠ Node.getID (node_ r) →
  (length (findRoute r (receiverID msg)) < 2)%nat →
  forwardMessage msg hopCount r = (false, r).
Proof.
  intros Hdst Hlen. unfold forwardMessage.
  case_bool_decide; [done|]. rewrite bool_decide_eq_false_2 by done.
  destruct (findRoute r (receiverID msg)) as [|a [|b rest]]; try done.
  simpl in Hlen. lia.
Qed.

Lemma findRoute_length_one r target :
  length (findRoute r target) = 1%nat → target = Node.getID (node_ r).
Proof.
  intros Hlen. destruct (findRoute_ends r target) as [Hh Hl].
  - intros E. by rewrite E in Hlen.
  - destruct (findRoute r target) as [|a [|b rest]]; simplify_eq/=. done.
Qed.

Lemma send_result peer msg r :
  (send peer msg r).1
  = bool_decide (peer ∈ NetworkManager.activeConnections_ (networkManager_ r)
                 ∧ peer ∉ NetworkManager.socketThrows (networkManager_ r))
  ∧ ((send peer msg r).1 = false →
     NetworkManager.wire (networkManager_ (send peer msg r).2)
     = NetworkManager.wire (networkManager_ r))
  ∧ routedMessageCount_ (send peer msg r).2 = routedMessageCount_ r.
Proof.
  unfold send, NetworkManager.sendMessageToPeer.
  destruct (decide (peer ∈ NetworkManager.activeConnections_ (networkManager_ r)))
    as [Ha|Ha].
  - rewrite (bool_decide_eq_true_2 _ Ha).
    destruct (decide (peer ∈ NetworkManager.socketThrows (networkManager_ r)))
      as [Ht|Ht].
    + rewrite (bool_decide_eq_true_2 _ Ht). cbn [fst snd].
      split_and!; try done. symmetry. apply bool_decide_eq_false_2. by intros [_ ?].
    + rewrite (bool_decide_eq_false_2 _ Ht). cbn [fst snd].
      split_and!; try done. symmetry. by apply bool_decide_eq_true_2.
  - rewrite (bool_decide_eq_false_2 _ Ha). cbn [fst snd].
    split_and!; try done. symmetry. apply bool_decide_eq_false_2. by intros [? _].
Qed.

(** C4: routing a message with the Shortest-Path strategy, on a node that
    holds no connection under its own id (nothing ever stores one:
    [connectToPeer] keeps no socket).  An empty route returns false and hands
    nothing over.  A route of length 1 is the route of the node to itself:
    the call returns false, nothing is written to a socket and
    [totalHopCount_] is as before.  A route of length 2 is [[self; target]]
    and the message is handed over for the target.  For every route of two or
    more nodes the message is handed over for the node at index 1, the result
    is the transport's, and [totalHopCount_] grows by the length less one.
    [routedMessageCount_] grows by one in each case. *)
Theorem C4_shortest_path_routing (msg : Message) (now : Z) (r : t) :
  Node.getID (node_ r) ∉ NetworkManager.activeConnections_ (networkManager_ r) →
  let target := receiverID msg in
  let route := findRoute r target in
  let out := routeMessage msg SHORTEST_PATH now r in
  let handed := NetworkManager.handedOver (networkManager_ out.2) in
  (route = [] →
     out.1 = false
     ∧ handed = NetworkManager.handedOver (networkManager_ r)
     ∧ totalHopCount_ out.2 = totalHopCount_ r)
  ∧ (length route = 1%nat →
       target = Node.getID (node_ r)
       ∧ out.1 = false
       ∧ NetworkManager.wire (networkManager_ out.2)
         = NetworkManager.wire (networkManager_ r)
       ∧ totalHopCount_ out.2 = totalHopCount_ r)
  ∧ (length route = 2%nat →
       route = [Node.getID (node_ r); target]
       ∧ handed = NetworkManager.handedOver (networkManager_ r) ++ [(target, msg)])
  ∧ ((2 ≤ length route)%nat →
       ∃ nextHop,
         route !! 1%nat = Some nextHop
         ∧ handed = NetworkManager.handedOver (networkManager_ r) ++ [(nextHop, msg)]
         ∧ out.1
           = bool_decide
               (nextHop ∈ NetworkManager.activeConnections_ (networkManager_ r)
                ∧ nextHop ∉ NetworkManager.socketThrows (networkManager_ r))
         ∧ totalHopCount_ out.2
           = wrap64 (totalHopCount_ r + (N.of_nat (length route) - 1)))
  ∧ routedMessageCount_ out.2 = wrap64 (routedMessageCount_ r + 1).
Proof.
  intros Hself target route out handed. subst handed out.
  unfold routeMessage.
  set (r0 := mk (node_ r) (networkManager_ r) (topologyManager_ r) (seenMessages_ r)
               (wrap64 (routedMessageCount_ r + 1)) (forwardedMessageCount_ r)
               (totalHopCount_ r)).
  assert (Hroute : findRoute r0 target = route) by done.
  pose proof (findRoute_ends r target) as Hends. fold route in Hends.
  pose proof (findRoute_length_one r target) as Hone. fold route in Hone.
  unfold routeMessageMultiHop. fold target. rewrite Hroute.
  destruct route as [|a [|b rest]] eqn:E.
  - split_and!; try done; simpl; lia.
  - specialize (Hone eq_refl).
    destruct (send_result target msg r0) as (Hres & Hwire & Hcount).
    destruct (send_handedOver target msg r0) as [_ Htotal].
    assert (Hfail : (send target msg r0).1 = false).
    { rewrite Hres. apply bool_decide_eq_false_2. intros [Hin _].
      apply Hself. by rewrite <- Hone. }
    split_and!; try done; try (simpl; lia).
    intros _. split_and!; try done. by apply Hwire.
  - destruct Hends as [Hh Hl]; [done|]. cbn [head] in Hh. simplify_eq.
    match goal with |- context [send ?p ?m ?x] =>
      destruct (send_handedOver p m x) as [Hhand Htotal];
      destruct (send_result p m x) as (Hres & _ & Hcount);
      set (res := send p m x) in *
    end.
    cbn [networkManager_ totalHopCount_ routedMessageCount_] in *.
    split_and!; try done.
    + intros Hlen. destruct rest; [|done]. simpl in Hl. by simplify_eq.
    + intros _. exists b. split_and!; done.
Qed.


Lemma C4_shortest_path_routing_witness :
  (routeMessage ping SHORTEST_PATH 0 roster_example).1 = false.
Proof.
  destruct (C4_shortest_path_routing ping 0 roster_example) as (_ & H & _).
  - vm_compute. set_solver.
  - destruct (H eq_refl) as (_ & Hfail & _). exact Hfail.
Defined.

(** C5 (as amended): [isReachable] holds iff the target is in the local peer
    roster or [findPath] from the local node is non-empty; [getHopCount] is 1
    for a roster peer, otherwise the [findPath] length minus 1, and -1 when
    [findPath] is empty. *)
Theorem C5_reachable_and_hop_count (r : t) (target : N) :
  let path := TopologyManager.findPath (topologyManager_ r)
                (Node.getID (node_ r)) target in
  (isReachable r target = true ↔
     Node.hasPeer (node_ r) target = true ∨ path ≠ [])
  ∧ (Node.hasPeer (node_ r) target = true → getHopCount r target = 1%Z)
  ∧ (Node.hasPeer (node_ r) target = false → path = [] →
       getHopCount r target = (-1)%Z)
  ∧ (Node.hasPeer (node_ r) target = false → path ≠ [] →
       getHopCount r target = (static_cast_int (N.of_nat (length path)) - 1)%Z
       ∧ (N.of_nat (length path) < 2 ^ 31 →
            getHopCount r target = (Z.of_nat (length path) - 1)%Z)).
Proof.
  intros path. unfold isReachable, getHopCount, findRoute. fold path.
  destruct (Node.hasPeer (node_ r) target) eqn:Hpeer.
  - split; [|split; [|split]]; try done. split; [by left|done].
  - split; [|split; [|split]]; try done.
    + destruct path; split; try done; [by intros [?|?]|by right].
    + by intros _ ->.
    + intros _ Hne. destruct path as [|a rest] eqn:Hp; [done|].
      split; [done|]. intros Hlen. f_equal.
      unfold static_cast_int.
      change (2 ^ 31) with 2147483648 in Hlen.
      change (2 ^ 31)%Z with 2147483648%Z. change (2 ^ 32)%Z with 4294967296%Z.
      rewrite Z.mod_small by lia. lia.
Qed.

Lemma C5_reachable_and_hop_count_witness :
  isReachable roster_example 2 = true ∧ getHopCount roster_example 2 = 1%Z.
Proof.
  destruct (C5_reachable_and_hop_count roster_example 2) as (H1 & H2 & _).
  split.
  - apply H1. left. reflexivity.
  - apply H2. reflexivity.
Defined.

(** The claim as stated fails for a roster peer that has no edge in the
    topology: it is reachable although [findPath] is empty. *)
Lemma C5_counterexample :
  ¬ (∀ (r : t) (target : N),
       isReachable r target = true ↔
       TopologyManager.findPath (topologyManager_ r) (Node.getID (node_ r)) target
       ≠ []).
Proof.
  intros H. destruct (H roster_example 2) as [H1 _].
  apply H1; vm_compute; reflexivity.
Qed.

End message_router.

(** ** Heartbeats *)

(** What the heartbeat handler does: it stamps the local node's own
    [lastSeen_], leaves roster and topology alone, and hands a Heartbeat
    addressed to the sender to the transport. *)
Lemma handleHeartbeat_effect (h : MessageHandler.t) (message : Message)
    (now : Z) (nowMs : N) :
  let h' := MessageHandler.handleHeartbeat message now nowMs h in
  Node.lastSeen_ (MessageHandler.node_ h') = now
  ∧ Node.nodeID_ (MessageHandler.node_ h') = Node.nodeID_ (MessageHandler.node_ h)
  ∧ Node.peerIDs_ (MessageHandler.node_ h') = Node.peerIDs_ (MessageHandler.node_ h)
  ∧ MessageHandler.topologyManager_ h' = MessageHandler.topologyManager_ h
  ∧ NetworkManager.handedOver (MessageHandler.networkManager_ h')
    = NetworkManager.handedOver (MessageHandler.networkManager_ h)
      ++ [(senderID message,
           mkMessage HEARTBEAT (Node.nodeID_ (MessageHandler.node_ h))
             (senderID message) [] nowMs)].
Proof.
  intros h'. subst h'. unfold MessageHandler.handleHeartbeat. cbn.
  split_and!; try done.
  apply sendMessageToPeer_handedOver.
Qed.

Section membership.
Import DynamicNodeManager.

Lemma deliverHeartbeat_registry message now nowMs dm :
  nodeRegistry_ (deliverHeartbeat message now nowMs dm) = nodeRegistry_ dm.
Proof. reflexivity. Qed.

(** C6, at an input where the code leaves the claim: peer 2 was last seen at
    time 0; its Heartbeat arrives 100 s later.  The reply goes to peer 2, but
    the time stamp that moves is the local node's own [lastSeen_]; the record
    of peer 2 keeps [lastSeen = 0]. *)
Theorem C6_heartbeat_leaves_sender_record :
  let dm := deliverHeartbeat heartbeat_from_2 (seconds 100) 100100 sweep_example in
  (lastSeen <$> nodeRegistry_ sweep_example !! 2) = Some 0%Z
  ∧ (lastSeen <$> nodeRegistry_ dm !! 2) = Some 0%Z
  ∧ Node.lastSeen_ (node_ dm) = seconds 100
  ∧ NetworkManager.handedOver (networkManager_ dm)
    = [(2, mkMessage HEARTBEAT 1 2 [] 100100)].
Proof. vm_compute. done. Qed.

Lemma sweep_step_faulted held now timeout f (l : list N) :
  foldl (sweep_step held now timeout) (Faults f) l = Faults f.
Proof. induction l as [|id l IH]; [done|]. cbn [foldl]. exact IH. Qed.

Lemma sweep_fold_relocks now timeout (l : list N) reg failed :
  (∃ id info, id ∈ l ∧ reg !! id = Some info ∧ state info = ACTIVE) →
  foldl (sweep_step true now timeout) (Returns (reg, failed)) l
  = Faults relock_owned_mutex.
Proof.
  induction l as [|k l IH]; intros (id & info & Hin & Hreg & Hact).
  - by apply elem_of_nil in Hin.
  - cbn [foldl]. unfold sweep_step at 2. cbn [obind].
    destruct (reg !! k) as [ik|] eqn:Hk.
    + case_bool_decide as Hstate.
      * apply IH. exists id, info. split; [|done].
        apply elem_of_cons in Hin as [->|?]; [|done]. simplify_eq.
      * case_bool_decide; cbn; apply sweep_step_faulted.
    + apply IH. exists id, info. split; [|done].
      apply elem_of_cons in Hin as [->|?]; [|done]. simplify_eq.
Qed.

(** C8, where the code leaves the claim: as soon as the table holds one
    Active record, the sweep stops at its first call of
    [incrementFailureCount] or [resetFailureCount], which ask for the
    [nodesMutex_] that [detectFailedNodes] already owns: no failure count
    changes and nothing is removed. *)
Theorem C8_sweep_relocks_its_mutex (dm : t) (now timeoutSeconds : Z) :
  (∃ id info, nodeRegistry_ dm !! id = Some info ∧ state info = ACTIVE) →
  detectFailedNodes now timeoutSeconds dm = Faults relock_owned_mutex.
Proof.
  intros (id & info & Hreg & Hact). unfold detectFailedNodes, sweep.
  rewrite sweep_fold_relocks; [done|].
  exists id, info. split; [|done].
  apply elem_of_keys_in_order. by eexists.
Qed.

Lemma C8_sweep_relocks_its_mutex_witness :
  detectFailedNodes (seconds 100) 90 sweep_example = Faults relock_owned_mutex.
Proof.
  apply C8_sweep_relocks_its_mutex.
  exists 2, (mkInfo 2 (mkAddress "10.0.0.2" 8888) ACTIVE 0 0 0).
  split; reflexivity.
Defined.

(** The sweep as it would run if the helper calls went through (the mutex
    taken as free at each of them): three sweeps over the stale peer count
    1, 2, 3, and the third one lists it for removal. *)
Example sweep_with_free_helpers :
  let run (n : Z) reg := sweep false (seconds (100 * n)) 90 reg in
  let counts (o : outcome (gmap N NodeInfo * list N)) :=
    match o with
    | Returns (reg, failed) => Some (failureCount <$> reg !! 2, failed)
    | Faults _ => None
    end in
  let next (o : outcome (gmap N NodeInfo * list N)) n :=
    match o with
    | Returns (reg, _) => run n reg
    | Faults f => Faults f
    end in
  let first := run 1%Z (nodeRegistry_ sweep_example) in
  let second := next first 2%Z in
  let third := next second 3%Z in
  counts first = Some (Some 1%Z, [])
  ∧ counts second = Some (Some 2%Z, [])
  ∧ counts third = Some (Some 3%Z, [2]).
Proof. vm_compute. done. Qed.

End membership.

(** The depth-first search of [isTopologyConnected] starts with
    [from = to] and returns at once, with [startNode] alone in [visited]: the
    graph counts as connected exactly when at most one node is registered. *)
Lemma isTopologyConnected_counts_nodes (tm : TopologyManager.t) :
  TopologyManager.isTopologyConnected false tm
  = Returns (bool_decide (size (TopologyManager.nodeRegistry_ tm) ≤ 1)%nat).
Proof.
  unfold TopologyManager.isTopologyConnected, lock_guard.
  repeat case_bool_decide; try (done || lia).
  destruct (keys_in_order (TopologyManager.nodeRegistry_ tm)) as [|start rest] eqn:Hkeys.
  - exfalso.
    assert (dom (TopologyManager.nodeRegistry_ tm) = ∅) as Hdom.
    { apply set_eq. intros x. rewrite <- elem_of_set_in_order.
      fold (keys_in_order (TopologyManager.nodeRegistry_ tm)). rewrite Hkeys.
      set_solver. }
    apply dom_empty_inv_L in Hdom. rewrite Hdom, map_size_empty in *. lia.
  - cbn [TopologyManager.hasPathDFS]. rewrite bool_decide_eq_true_2 by done.
    f_equal. rewrite union_empty_r_L, size_singleton.
    apply bool_decide_eq_false_2. lia.
Qed.

Section membership_free.
Import DynamicNodeManager.

Lemma sweep_step_free now timeout reg failed id info :
  reg !! id = Some info →
  sweep_step false now timeout (Returns (reg, failed)) id
  = Returns (<[id := swept now timeout info]> reg,
             if decide (reaches_three now timeout info)
             then failed ++ [id] else failed).
Proof.
  intros Hid. unfold sweep_step, swept, reaches_three. cbn [obind]. rewrite Hid.
  case_bool_decide as Hst.
  - rewrite insert_id by done. rewrite decide_False; [done|]. tauto.
  - case_bool_decide as Hstale.
    + unfold incrementFailureCount, shouldRemoveNode, lock_guard. cbn [obind].
      rewrite lookup_alter_eq, Hid. cbn.
      erewrite alter_alt_Some by done. 
      f_equal. f_equal.
      case_bool_decide; [by rewrite decide_True|rewrite decide_False; [done|tauto]].
    + unfold resetFailureCount, lock_guard. cbn [obind].
      erewrite alter_alt_Some by done. 
      rewrite decide_False; [done|]. tauto.
Qed.

(** The sweep as written, were its helper calls to go through: every Active
    record over the timeout has its count incremented, every other Active
    record has it reset, no other record changes, and the records listed for
    removal are the Active ones over the timeout whose count reaches 3. *)
Lemma sweep_free_fold now timeout (l : list N) reg failed :
  NoDup l → (∀ id, id ∈ l → is_Some (reg !! id)) →
  ∃ reg' extra,
    foldl (sweep_step false now timeout) (Returns (reg, failed)) l
      = Returns (reg', failed ++ extra)
    ∧ (∀ id, reg' !! id = if decide (id ∈ l) then swept now timeout <$> reg !! id
                          else reg !! id)
    ∧ (∀ id, id ∈ extra ↔
             id ∈ l ∧ ∃ info, reg !! id = Some info ∧ reaches_three now timeout info).
Proof.
  intros Hnd. revert reg failed.
  induction Hnd as [|k l Hk Hnd IH]; intros reg failed Hall.
  - exists reg, []. cbn [foldl]. rewrite app_nil_r. split_and!; [done|done|].
    intros id. rewrite !elem_of_nil. naive_solver.
  - destruct (Hall k ltac:(left)) as [info Hinfo].
    cbn [foldl]. rewrite (sweep_step_free _ _ _ _ _ info Hinfo).
    destruct (IH (<[k := swept now timeout info]> reg)
                 (if decide (reaches_three now timeout info)
                  then failed ++ [k] else failed))
      as (reg' & extra & Hfold & Hreg & Hextra).
    { intros id Hid. rewrite lookup_insert_ne; [apply Hall; by right|].
      intros ->. done. }
    exists reg', ((if decide (reaches_three now timeout info) then [k] else []) ++ extra).
    split_and!.
    + rewrite Hfold. f_equal. f_equal.
      destruct (decide (reaches_three now timeout info)); by rewrite <- ?app_assoc.
    + intros id. rewrite Hreg. destruct (decide (id = k)) as [->|Hne].
      * rewrite decide_False by done. rewrite decide_True by left.
        rewrite lookup_insert_eq, Hinfo. done.
      * rewrite lookup_insert_ne by done.
        destruct (decide (id ∈ l)).
        -- by rewrite decide_True by by right.
        -- rewrite decide_False; [done|]. rewrite elem_of_cons. naive_solver.
    + intros id. rewrite elem_of_app, Hextra, elem_of_cons.
      destruct (decide (id = k)) as [->|Hne].
      * rewrite lookup_insert_eq.
        destruct (decide (reaches_three now timeout info)) as [Hr|Hr].
        -- split; [|intros _; left; left].
           intros _. split; [by left|]. by exists info.
        -- rewrite elem_of_nil. split; [intros [[]|[? _]]; done|].
           intros [_ (info' & ? & ?)]. by simplify_eq.
      * rewrite lookup_insert_ne by done.
        destruct (decide (reaches_three now timeout info));
          rewrite ?elem_of_nil, ?list_elem_of_singleton; naive_solver.
Qed.

Lemma sweep_free_spec now timeout reg :
  ∃ reg' failedNodes,
    sweep false now timeout reg = Returns (reg', failedNodes)
    ∧ (∀ id, reg' !! id = swept now timeout <$> reg !! id)
    ∧ (∀ id, id ∈ failedNodes ↔
             ∃ info, reg !! id = Some info ∧ reaches_three now timeout info).
Proof.
  destruct (sweep_free_fold now timeout (keys_in_order reg) reg [])
    as (reg' & extra & Hfold & Hreg & Hextra).
  - apply NoDup_set_in_order.
  - intros id. apply elem_of_keys_in_order.
  - exists reg', extra. split_and!.
    + exact Hfold.
    + intros id. rewrite Hreg. case_decide as Hin; [done|].
      destruct (reg !! id) eqn:E; [|done].
      exfalso. apply Hin, elem_of_keys_in_order. by eexists.
    + intros id. rewrite Hextra, elem_of_keys_in_order. naive_solver.
Qed.

(** With the helper calls going through, the removal that follows the third
    sweep of scenario 3: the record of peer 2 is erased and the failure
    callback fires. *)
Example removal_after_third_sweep :
  let third := with_registry
                 (<[2 := mkInfo 2 (mkAddress "10.0.0.2" 8888) ACTIVE 0 0 3]> ∅)
                 sweep_example in
  match remove_failed [2] third with
  | Returns dm => (nodeRegistry_ dm !! 2, fired dm)
  | Faults _ => (None, [])
  end
  = (None, [NodeAdded 2 (mkAddress "10.0.0.2" 8888); NodeFailed 2; NetworkRepaired]).
Proof. vm_compute. reflexivity. Qed.

End membership_free.

(* ==================================================================== *)
(** * Further properties of the code *)

(** ** Node: the peer roster *)

Section node.
Import Node.

Lemma find_index_None id l : find_index id l = None ↔ id ∉ l.
Proof.
  induction l as [|x l IH]; simpl.
  - split; [intros _; apply not_elem_of_nil | done].
  - case_bool_decide as Hx.
    + subst. split; [done | intros H; exfalso; apply H; left].
    + rewrite not_elem_of_cons. destruct (find_index id l) eqn:E; simpl.
      * split; [done|]. intros [_ H]. apply IH in H. done.
      * split; [|done]. intros _. split; [congruence | by apply IH].
Qed.

Lemma find_index_Some id l i :
  find_index id l = Some i → l !! i = Some id ∧ id ∉ take i l.
Proof.
  revert i. induction l as [|x l IH]; intros i; simpl; [done|].
  case_bool_decide as Hx.
  - intros [= <-]. subst. split; [done | simpl; apply not_elem_of_nil].
  - destruct (find_index id l) eqn:E; simpl; [|done].
    intros [= <-]. destruct (IH _ eq_refl) as [H1 H2]. split; [done|].
    simpl. rewrite not_elem_of_cons. split; [congruence | done].
Qed.

Lemma NoDup_delete {A} (l : list A) i : NoDup l → NoDup (delete i l).
Proof.
  intros H. eapply sublist_NoDup; [exact H | apply sublist_delete].
Qed.

Lemma filter_all {A} (P : A → Prop) `{!∀ x, Decision (P x)} (l : list A) :
  Forall P l → filter P l = l.
Proof.
  induction 1 as [|x l Hx _ IH]; [done|]. by rewrite filter_cons_True, IH.
Qed.

Lemma filter_fst_delete {B} (l : list N) (k : list B) i id :
  NoDup l → length k = length l → l !! i = Some id →
  zip (delete i l) (delete i k) = filter (λ p, p.1 ≠ id) (zip l k).
Proof.
  revert k i. induction l as [|a l IH]; intros [|b k] i Hnd Hlen Hi; simplify_eq/=.
  apply NoDup_cons in Hnd as [Ha Hnd].
  destruct i as [|i]; simplify_eq/=.
  - rewrite filter_cons_False; [|simpl; naive_solver].
    symmetry. apply filter_all. apply Forall_forall.
    intros [x y] Hxy. simpl. intros ->. apply Ha.
    apply elem_of_zip_l in Hxy. done.
  - rewrite filter_cons_True.
    + f_equal. by apply IH.
    + simpl. intros ->. apply Ha. by eapply list_elem_of_lookup_2.
Qed.

Lemma roster_ok_addPeer (n : t) (id : N) (addr : NetworkAddress) :
  roster_ok n → roster_ok (addPeer n id addr).2.
Proof.
  intros (Hnd & Hlen & Hmax).
  unfold addPeer. repeat case_bool_decide; simpl; try done.
  split_and!; simpl.
  - apply NoDup_app. split_and!; [done| |apply NoDup_singleton].
    intros x Hx ->%list_elem_of_singleton. done.
  - rewrite !length_app. simpl. lia.
  - rewrite length_app. simpl. unfold MAX_PEERS in *. lia.
Qed.

Lemma roster_ok_removePeer (n : t) (id : N) :
  roster_ok n → roster_ok (removePeer n id).2.
Proof.
  intros (Hnd & Hlen & Hmax).
  unfold removePeer. destruct (find_index id (peerIDs_ n)) as [i|] eqn:E; simpl; [|done].
  apply find_index_Some in E as [Hi _].
  split_and!; simpl.
  - by apply NoDup_delete.
  - assert (is_Some (peerAddresses_ n !! i)) as Ha.
    { apply lookup_lt_is_Some. rewrite Hlen. apply lookup_lt_is_Some. by eexists. }
    pose proof (length_delete (peerIDs_ n) i (ltac:(by eexists))).
    pose proof (length_delete (peerAddresses_ n) i Ha). lia.
  - pose proof (length_delete (peerIDs_ n) i (ltac:(by eexists))). lia.
Qed.

Lemma addPeer_cases (n : t) (id : N) (addr : NetworkAddress) :
  ((id ∈ peerIDs_ n ∨ MAX_PEERS ≤ N.of_nat (length (peerIDs_ n)))
   ∧ addPeer n id addr = (false, n))
  ∨ (¬ id ∈ peerIDs_ n ∧ N.of_nat (length (peerIDs_ n)) < MAX_PEERS
     ∧ addPeer n id addr
       = (true, mk (nodeID_ n) (address_ n) (peerIDs_ n ++ [id])
                   (peerAddresses_ n ++ [addr]) (lastSeen_ n))).
Proof.
  unfold addPeer. repeat case_bool_decide; [left | left | right]; split_and?;
    try done; [by left | by right | lia].
Qed.

(** X2.  On a well-formed roster [addPeer] appends the pair of the peer and
    its address exactly when the peer is absent and fewer than [MAX_PEERS]
    peers are known, and changes nothing otherwise; [removePeer] tells whether
    the peer was known, removes exactly its pair and leaves every other peer
    with its address. *)
Theorem roster_add_remove (n : t) (id : N) (addr : NetworkAddress) :
  roster_ok n →
  ((addPeer n id addr).1 = true
     ↔ hasPeer n id = false ∧ getPeerCount n < MAX_PEERS)
  ∧ ((addPeer n id addr).1 = true →
       roster (addPeer n id addr).2 = roster n ++ [(id, addr)]
       ∧ hasPeer (addPeer n id addr).2 id = true)
  ∧ ((addPeer n id addr).1 = false → (addPeer n id addr).2 = n)
  ∧ (removePeer n id).1 = hasPeer n id
  ∧ hasPeer (removePeer n id).2 id = false
  ∧ roster (removePeer n id).2 = filter (λ p, p.1 ≠ id) (roster n).
Proof.
  intros (Hnd & Hlen & Hmax). unfold hasPeer, getPeerCount, roster.
  split_and!.
  - rewrite bool_decide_eq_false.
    destruct (addPeer_cases n id addr) as [[Hc ->]|(Hin & Hlt & ->)]; simpl.
    + split; [done|]. intros [? ?]. destruct Hc; [done | lia].
    + done.
  - destruct (addPeer_cases n id addr) as [[Hc ->]|(Hin & Hlt & ->)]; simpl; [done|].
    intros _. split.
    + rewrite zip_with_app; [done | lia].
    + apply bool_decide_eq_true. set_solver.
  - destruct (addPeer_cases n id addr) as [[Hc ->]|(Hin & Hlt & ->)]; simpl; done.
  - unfold removePeer. destruct (find_index id (peerIDs_ n)) as [i|] eqn:E; simpl.
    + apply find_index_Some in E as [Hi _]. symmetry. apply bool_decide_eq_true.
      by eapply list_elem_of_lookup_2.
    + apply find_index_None in E. symmetry. by apply bool_decide_eq_false.
  - unfold removePeer. destruct (find_index id (peerIDs_ n)) as [i|] eqn:E; simpl.
    + apply find_index_Some in E as [Hi Hbefore]. apply bool_decide_eq_false.
      intros Hin. apply list_elem_of_lookup in Hin as [j Hj].
      destruct (decide (j < i)%nat) as [Hlt|Hge].
      * rewrite list_lookup_delete_lt in Hj by done.
        apply Hbefore. apply list_elem_of_lookup. exists j.
        rewrite lookup_take_lt; done.
      * rewrite list_lookup_delete_ge in Hj by lia.
        pose proof (NoDup_lookup _ _ _ _ Hnd Hi Hj). lia.
    + apply find_index_None in E. by apply bool_decide_eq_false.
  - unfold removePeer. destruct (find_index id (peerIDs_ n)) as [i|] eqn:E; simpl.
    + apply find_index_Some in E as [Hi _]. by apply filter_fst_delete.
    + apply find_index_None in E. symmetry. apply filter_all.
      apply Forall_forall. intros [x y] Hxy. simpl. intros ->. apply E.
      by apply elem_of_zip_l in Hxy.
Qed.
Lemma roster_ok_node_example : roster_ok node_example.
Proof.
  split_and!; [|done|done]. unfold node_example; simpl.
  apply NoDup_cons; split; [set_solver|]. apply NoDup_singleton.
Defined.

Lemma roster_add_remove_witness :
  (removePeer node_example 2).1 = hasPeer node_example 2
  ∧ hasPeer (removePeer node_example 2).2 2 = false.
Proof.
  pose proof (roster_add_remove node_example 2 default_address
                roster_ok_node_example) as (_ & _ & _ & H1 & H2 & _).
  exact (conj H1 H2).
Defined.

End node.


(** ** NetworkManager: messages as bytes *)

Section codec.
Import NetworkCodec.

Lemma memcpy_into_segment (pre mid post src : list byte) off :
  off = length pre → length src = length mid →
  memcpy_into (pre ++ mid ++ post) off src = pre ++ src ++ post.
Proof.
  intros -> Hlen. unfold memcpy_into.
  rewrite take_app_length. f_equal. f_equal.
  rewrite drop_app_ge by lia.
  replace (length pre + length src - length pre)%nat with (length mid) by lia.
  by rewrite drop_app_length.
Qed.

Lemma read_bytes_segment (pre mid post : list byte) off len :
  off = length pre → len = length mid →
  read_bytes (pre ++ mid ++ post) off len = Returns mid.
Proof.
  intros -> ->. rewrite read_bytes_in_bounds by (rewrite !length_app; lia).
  by rewrite drop_app_length, take_app_length.
Qed.

Lemma memcpy_into_head (mid post src : list byte) :
  length src = length mid → memcpy_into (mid ++ post) 0 src = src ++ post.
Proof. intros H. by apply (memcpy_into_segment [] mid post src). Qed.

Lemma read_bytes_head (mid post : list byte) len :
  len = length mid → read_bytes (mid ++ post) 0 len = Returns mid.
Proof. intros H. by apply (read_bytes_segment [] mid post). Qed.

Lemma serializeMessage_layout (msg : RawMessage) :
  N.of_nat (length (rawPayload msg)) < 2 ^ 32 →
  serializeMessage msg = (true, layout msg).
Proof.
  intros Hlen. unfold serializeMessage, layout, header_size, wrap32.
  rewrite (N.mod_small _ _ Hlen).
  replace (wrap64 (1 + 2 * 8 + 8 + 4 + N.of_nat (length (rawPayload msg))))
    with (29 + N.of_nat (length (rawPayload msg))) by (symmetry; within_64_bits).
  set (n := length (rawPayload msg)).
  set (z := λ k : nat, replicate k "000"%byte).
  assert (Hz : zeros (29 + N.of_nat n) = z 1%nat ++ z 8%nat ++ z 8%nat ++ z 8%nat ++ z 4%nat ++ z n).
  { unfold zeros, z. rewrite <- !replicate_add. f_equal. lia. }
  rewrite Hz. f_equal.
  rewrite (memcpy_into_head (z 1%nat)) by (by rewrite ?length_le_bytes).
  rewrite (memcpy_into_segment (le_bytes 1 _) (z 8%nat) _ _)
    by (by rewrite ?length_le_bytes).
  rewrite (app_assoc (le_bytes 1 _)).
  rewrite (memcpy_into_segment (le_bytes 1 _ ++ le_bytes 8 _) (z 8%nat) _ _)
    by (by rewrite ?length_app, ?length_le_bytes).
  rewrite (app_assoc (le_bytes 1 _ ++ le_bytes 8 _)).
  rewrite (memcpy_into_segment (_ ++ le_bytes 8 _) (z 8%nat) _ _)
    by (by rewrite ?length_app, ?length_le_bytes).
  rewrite (app_assoc ((le_bytes 1 _ ++ le_bytes 8 _) ++ le_bytes 8 _)).
  rewrite (memcpy_into_segment (_ ++ le_bytes 8 _) (z 4%nat) _ _)
    by (by rewrite ?length_app, ?length_le_bytes).
  rewrite (app_assoc (((le_bytes 1 _ ++ le_bytes 8 _) ++ le_bytes 8 _) ++ _)).
  case_bool_decide as Hnil.
  - subst n z. rewrite Hnil. cbn [length replicate]. by rewrite <- !app_assoc.
  - rewrite <- (app_nil_r (z n)).
    rewrite (memcpy_into_segment _ (z n) [] _).
    + rewrite <- !app_assoc. by rewrite app_nil_r.
    + by rewrite ?length_app, ?length_le_bytes.
    + unfold z. by rewrite length_replicate.
Qed.

Lemma length_layout msg :
  length (layout msg) = (29 + length (rawPayload msg))%nat.
Proof. unfold layout. rewrite !length_app, !length_le_bytes. lia. Qed.

Lemma deserializeMessage_layout (msg msg0 : RawMessage) :
  rawType msg < 2 ^ 8 → rawSenderID msg < 2 ^ 64 → rawReceiverID msg < 2 ^ 64 →
  rawTimestamp msg < 2 ^ 64 → N.of_nat (length (rawPayload msg)) < 2 ^ 32 →
  deserializeMessage (layout msg) msg0
  = Returns (true,
             mkRaw (rawType msg) (rawSenderID msg) (rawReceiverID msg)
               (if bool_decide (rawPayload msg = []) then rawPayload msg0
                else rawPayload msg)
               (rawTimestamp msg)).
Proof.
  intros Ht Hs Hr Hts Hlen. unfold deserializeMessage, header_size.
  rewrite bool_decide_eq_false_2 by (rewrite length_layout; lia).
  unfold layout.
  rewrite (read_bytes_head (le_bytes 1 _)) by (by rewrite ?length_le_bytes).
  cbn [obind].
  rewrite (read_bytes_segment (le_bytes 1 _) (le_bytes 8 _) _)
    by (by rewrite ?length_le_bytes).
  cbn [obind]. rewrite (app_assoc (le_bytes 1 _)).
  rewrite (read_bytes_segment (_ ++ le_bytes 8 _) (le_bytes 8 _) _)
    by (by rewrite ?length_app, ?length_le_bytes).
  cbn [obind]. rewrite (app_assoc (le_bytes 1 _ ++ le_bytes 8 _)).
  rewrite (read_bytes_segment (_ ++ le_bytes 8 _) (le_bytes 8 _) _)
    by (by rewrite ?length_app, ?length_le_bytes).
  cbn [obind]. rewrite (app_assoc ((le_bytes 1 _ ++ le_bytes 8 _) ++ le_bytes 8 _)).
  rewrite (read_bytes_segment (_ ++ le_bytes 8 _) (le_bytes 4 _) _)
    by (by rewrite ?length_app, ?length_le_bytes).
  cbn [obind].
  rewrite !le_value_le_bytes.
  change (256 ^ N.of_nat 1) with (2 ^ 8). change (256 ^ N.of_nat 8) with (2 ^ 64).
  change (256 ^ N.of_nat 4) with (2 ^ 32).
  rewrite !N.mod_small by done.
  replace (wrap64 (29 + N.of_nat (length (rawPayload msg))))
    with (29 + N.of_nat (length (rawPayload msg))) by (symmetry; within_64_bits).
  rewrite (bool_decide_eq_true_2 (_ ≤ _))
    by (rewrite !length_app, !length_le_bytes; lia).
  rewrite andb_true_r.
  case_bool_decide as Hpos.
  - rewrite bool_decide_eq_false_2 by (intros E; rewrite E in Hpos; simpl in Hpos; lia).
    rewrite (app_assoc (((le_bytes 1 _ ++ le_bytes 8 _) ++ le_bytes 8 _) ++ _)).
    rewrite <- (app_nil_r (rawPayload msg)) at 2.
    rewrite (read_bytes_segment _ (rawPayload msg) [])
      by (rewrite ?length_app, ?length_le_bytes; lia).
    done.
  - rewrite bool_decide_eq_true_2; [done|].
    destruct (rawPayload msg); [done | simpl in Hpos; lia].
Qed.

(** X3.  [deserializeMessage] undoes [serializeMessage]: for a message whose
    fields fit their types and whose payload is shorter than 2^32 bytes the
    buffer has 29 bytes of header plus the payload, and decoding it gives the
    message back.  A message without payload decodes to its header fields and
    leaves the payload of the object decoded into as it was. *)
Theorem message_round_trip (msg msg0 : RawMessage) :
  rawType msg < 2 ^ 8 → rawSenderID msg < 2 ^ 64 → rawReceiverID msg < 2 ^ 64 →
  rawTimestamp msg < 2 ^ 64 → N.of_nat (length (rawPayload msg)) < 2 ^ 32 →
  (serializeMessage msg).1 = true
  ∧ N.of_nat (length (serializeMessage msg).2)
    = header_size + N.of_nat (length (rawPayload msg))
  ∧ deserializeMessage (serializeMessage msg).2 msg0
    = Returns (true,
               if bool_decide (rawPayload msg = [])
               then mkRaw (rawType msg) (rawSenderID msg) (rawReceiverID msg)
                      (rawPayload msg0) (rawTimestamp msg)
               else msg).
Proof.
  intros Ht Hs Hr Hts Hlen. rewrite serializeMessage_layout by done. cbn [fst snd].
  split_and!; [done | rewrite length_layout; unfold header_size; lia |].
  rewrite deserializeMessage_layout by done.
  case_bool_decide; [done|]. by destruct msg.
Qed.

Lemma raw_bounds (m : Message) : rawType (raw m) < 2 ^ 8.
Proof. by destruct m as [[] ? ? ? ?]. Qed.

(** X4.  [deserializeMessage] never reads outside the buffer.  It rejects a
    buffer shorter than the 29-byte header and leaves the message alone; it
    accepts any longer buffer, and when the payload size in the header is 0
    or more than the buffer holds, the payload of the message is left as it
    was. *)
Theorem deserializeMessage_edges (buffer : list byte) (msg : RawMessage) :
  (∃ r, deserializeMessage buffer msg = Returns r)
  ∧ (N.of_nat (length buffer) < header_size →
       deserializeMessage buffer msg = Returns (false, msg))
  ∧ (header_size ≤ N.of_nat (length buffer) →
       ∃ msg', deserializeMessage buffer msg = Returns (true, msg')
               ∧ (N.of_nat (length buffer)
                    < header_size + le_value (take 4 (drop 25 buffer)) →
                  rawPayload msg' = rawPayload msg)
               ∧ (le_value (take 4 (drop 25 buffer)) = 0 →
                  rawPayload msg' = rawPayload msg)).
Proof.
  assert (Hshort : N.of_nat (length buffer) < header_size →
                   deserializeMessage buffer msg = Returns (false, msg)).
  { intros H. unfold deserializeMessage. by rewrite bool_decide_eq_true_2. }
  assert (Hlong : header_size ≤ N.of_nat (length buffer) →
       ∃ msg', deserializeMessage buffer msg = Returns (true, msg')
               ∧ (N.of_nat (length buffer)
                    < header_size + le_value (take 4 (drop 25 buffer)) →
                  rawPayload msg' = rawPayload msg)
               ∧ (le_value (take 4 (drop 25 buffer)) = 0 →
                  rawPayload msg' = rawPayload msg)).
  { unfold header_size. intros H. unfold deserializeMessage, header_size.
    rewrite bool_decide_eq_false_2 by lia.
    rewrite !read_bytes_in_bounds by lia. cbn [obind].
    set (size := le_value (take 4 (drop 25 buffer))).
    assert (Hsize : size < 2 ^ 32).
    { pose proof (le_value_bound (take 4 (drop 25 buffer))) as Hb.
      rewrite length_take, length_drop in Hb.
      replace (4 `min` (length buffer - 25))%nat with 4%nat in Hb by lia. exact Hb. }
    replace (wrap64 (29 + size)) with (29 + size) by (symmetry; within_64_bits).
    destruct (bool_decide (0 < size) && bool_decide (29 + size ≤ N.of_nat (length buffer)))
      eqn:E.
    - apply andb_true_iff in E as [E1%bool_decide_eq_true E2%bool_decide_eq_true].
      rewrite read_bytes_in_bounds by lia. cbn [obind].
      eexists. split; [done|]. simpl. split; intros; lia.
    - eexists. split; [done|]. simpl. done. }
  split_and!; [|done|done].
  destruct (decide (N.of_nat (length buffer) < header_size)) as [H|H].
  - rewrite Hshort by done. by eexists.
  - destruct Hlong as (msg' & -> & _); [lia|]. by eexists.
Qed.

Lemma split_header (array : list byte) :
  length array = 32%nat →
  ∃ a1 a2 a3 a4 a5 a6,
    array = a1 ++ a2 ++ a3 ++ a4 ++ a5 ++ a6
    ∧ length a1 = 1%nat ∧ length a2 = 8%nat ∧ length a3 = 8%nat
    ∧ length a4 = 8%nat ∧ length a5 = 4%nat ∧ length a6 = 3%nat.
Proof.
  intros H.
  exists (take 1 array), (take 8 (drop 1 array)), (take 8 (drop 9 array)),
    (take 8 (drop 17 array)), (take 4 (drop 25 array)), (drop 29 array).
  split.
  - rewrite <- (take_drop 1 array) at 1. f_equal.
    rewrite <- (take_drop 8 (drop 1 array)) at 1. f_equal. rewrite drop_drop.
    rewrite <- (take_drop 8 (drop (1 + 8) array)) at 1. f_equal. rewrite drop_drop.
    rewrite <- (take_drop 8 (drop (1 + 8 + 8) array)) at 1. f_equal. rewrite drop_drop.
    rewrite <- (take_drop 4 (drop (1 + 8 + 8 + 8) array)) at 1. f_equal.
    by rewrite drop_drop.
  - rewrite !length_take, !length_drop. lia.
Qed.

(** X5.  The 32-byte header that [sendMessageToPeer] fills is read back by
    the parsing of [PeerConnectionHandler::run] as the same type, sender,
    receiver and timestamp and the payload size modulo 2^32, whatever the
    array held before (its last three bytes are never written). *)
Theorem header_agreement (message : RawMessage) (array : list byte) :
  length array = 32%nat →
  rawType message < 2 ^ 8 → rawSenderID message < 2 ^ 64 →
  rawReceiverID message < 2 ^ 64 → rawTimestamp message < 2 ^ 64 →
  length (header_of message array) = 32%nat
  ∧ parse_header (header_of message array)
    = Returns (rawType message, rawSenderID message, rawReceiverID message,
               rawTimestamp message,
               wrap32 (N.of_nat (length (rawPayload message)))).
Proof.
  intros Harr Ht Hs Hr Hts.
  destruct (split_header array Harr)
    as (a1 & a2 & a3 & a4 & a5 & a6 & -> & H1 & H2 & H3 & H4 & H5 & H6).
  unfold header_of.
  rewrite (memcpy_into_head a1) by (by rewrite ?length_le_bytes).
  rewrite (memcpy_into_segment (le_bytes 1 _) a2 _ _)
    by (by rewrite ?length_le_bytes).
  rewrite (app_assoc (le_bytes 1 _)).
  rewrite (memcpy_into_segment (le_bytes 1 _ ++ le_bytes 8 _) a3 _ _)
    by (by rewrite ?length_app, ?length_le_bytes).
  rewrite (app_assoc (le_bytes 1 _ ++ le_bytes 8 _)).
  rewrite (memcpy_into_segment (_ ++ le_bytes 8 _) a4 _ _)
    by (by rewrite ?length_app, ?length_le_bytes).
  rewrite (app_assoc ((le_bytes 1 _ ++ le_bytes 8 _) ++ le_bytes 8 _)).
  rewrite (memcpy_into_segment (_ ++ le_bytes 8 _) a5 _ _)
    by (by rewrite ?length_app, ?length_le_bytes).
  split; [rewrite !length_app, !length_le_bytes; lia|].
  rewrite <- !app_assoc. unfold parse_header.
  rewrite (read_bytes_head (le_bytes 1 _)) by (by rewrite ?length_le_bytes).
  cbn [obind].
  rewrite (read_bytes_segment (le_bytes 1 _) (le_bytes 8 _) _)
    by (by rewrite ?length_le_bytes).
  cbn [obind]. rewrite (app_assoc (le_bytes 1 _)).
  rewrite (read_bytes_segment (_ ++ le_bytes 8 _) (le_bytes 8 _) _)
    by (by rewrite ?length_app, ?length_le_bytes).
  cbn [obind]. rewrite (app_assoc (le_bytes 1 _ ++ le_bytes 8 _)).
  rewrite (read_bytes_segment (_ ++ le_bytes 8 _) (le_bytes 8 _) _)
    by (by rewrite ?length_app, ?length_le_bytes).
  cbn [obind]. rewrite (app_assoc ((le_bytes 1 _ ++ le_bytes 8 _) ++ le_bytes 8 _)).
  rewrite (read_bytes_segment (_ ++ le_bytes 8 _) (le_bytes 4 _) _)
    by (by rewrite ?length_app, ?length_le_bytes).
  cbn [obind].
  rewrite !le_value_le_bytes.
  change (256 ^ N.of_nat 1) with (2 ^ 8). change (256 ^ N.of_nat 8) with (2 ^ 64).
  change (256 ^ N.of_nat 4) with (2 ^ 32).
  rewrite !(N.mod_small _ (2 ^ 8)), !(N.mod_small _ (2 ^ 64)) by done.
  unfold wrap32. by rewrite N.Div0.mod_mod.
Qed.

Lemma message_round_trip_witness :
  deserializeMessage (serializeMessage (raw data_message_example)).2 (raw ping)
  = Returns (true, raw data_message_example).
Proof.
  by destruct (message_round_trip (raw data_message_example) (raw ping))
    as (_ & _ & ->).
Defined.

Lemma deserializeMessage_edges_witness :
  deserializeMessage ["005"; "001"]%byte (raw ping) = Returns (false, raw ping).
Proof.
  destruct (deserializeMessage_edges ["005"; "001"]%byte (raw ping)) as (_ & H & _).
  by apply H.
Defined.

Lemma header_agreement_witness :
  parse_header (header_of (raw data_message_example) (zeros 32))
  = Returns (5, 1, 2, 5, 2).
Proof. by apply header_agreement. Defined.

End codec.


(** ** Peer discovery and the join handshake *)

Lemma StronglySorted_filter {A} (R : relation A) (P : A → Prop)
    `{!∀ x, Decision (P x)} (l : list A) :
  StronglySorted R l → StronglySorted R (filter P l).
Proof.
  induction 1 as [|x l Hl IH Hx]; [apply SSorted_nil|].
  rewrite filter_cons. destruct (decide (P x)); [|done].
  constructor; [done|]. apply Forall_forall. intros y [_ Hy]%list_elem_of_filter.
  rewrite Forall_forall in Hx. by apply Hx.
Qed.

Lemma StronglySorted_set_in_order (s : gset N) : StronglySorted N.le (set_in_order s).
Proof.
  apply StronglySorted_merge_sort.
  - intros x y z. apply N.le_trans.
  - intros x y. lia.
Qed.

Lemma length_set_in_order (s : gset N) : length (set_in_order s) = size s.
Proof. unfold set_in_order. by rewrite merge_sort_Permutation. Qed.

Lemma static_cast_int_small n : n < 2 ^ 31 → static_cast_int n = Z.of_N n.
Proof.
  intros H. unfold static_cast_int.
  assert (Z.of_N n < 2 ^ 31)%Z by (change (2 ^ 31)%Z with (Z.of_N (2 ^ 31)); lia).
  rewrite Z.mod_small; lia.
Qed.

Section discover.
Import TopologyManager.

Lemma discoverPeers_take (tm : t) (req : N) (maxPeers : Z) :
  N.of_nat (size (nodeRegistry_ tm)) < 2 ^ 31 →
  discoverPeers req maxPeers tm
  = if bool_decide (maxPeers < 0)%Z then None
    else Some (take (Z.to_nat maxPeers)
                 (filter (λ id, id ≠ req ∧ id ≠ localID tm)
                    (keys_in_order (nodeRegistry_ tm)))).
Proof.
  intros Hsize. unfold discoverPeers.
  set (cand := filter _ _).
  assert (Hlen : (length cand ≤ size (nodeRegistry_ tm))%nat).
  { unfold cand. etrans; [apply length_filter|].
    unfold keys_in_order. by rewrite length_set_in_order, size_dom. }
  rewrite static_cast_int_small by lia.
  repeat case_bool_decide; try done; try lia.
  rewrite take_ge; [done | lia].
Qed.

(** X6.  For a non-negative [maxPeers] (and fewer than 2^31 registered
    nodes) [discoverPeers] returns at most [maxPeers] ids, in ascending order
    and without repetition; each is registered and is neither the requesting
    node nor the local one; they are the smallest such ids, and all of them
    when fewer than [maxPeers] come back. *)
Theorem discoverPeers_bounded (tm : t) (req : N) (maxPeers : Z) :
  N.of_nat (size (nodeRegistry_ tm)) < 2 ^ 31 → (0 ≤ maxPeers)%Z →
  ∃ l, discoverPeers req maxPeers tm = Some l
       ∧ (Z.of_nat (length l) ≤ maxPeers)%Z
       ∧ NoDup l ∧ StronglySorted N.le l
       ∧ (∀ id, id ∈ l → candidate tm req id)
       ∧ (∀ id id', id ∈ l → candidate tm req id' → id' < id → id' ∈ l)
       ∧ ((Z.of_nat (length l) < maxPeers)%Z → ∀ id, candidate tm req id → id ∈ l).
Proof.
  intros Hsize Hmax. rewrite discoverPeers_take by done.
  rewrite bool_decide_eq_false_2 by lia.
  set (cand := filter _ _).
  assert (Hcand : ∀ id, id ∈ cand ↔ candidate tm req id).
  { intros id. unfold cand, candidate. rewrite list_elem_of_filter.
    rewrite elem_of_keys_in_order. naive_solver. }
  assert (Hsorted : StronglySorted N.le cand).
  { apply StronglySorted_filter, StronglySorted_set_in_order. }
  assert (Hnd : NoDup cand).
  { apply NoDup_filter, NoDup_set_in_order. }
  eexists. split; [done|].
  rewrite <- (take_drop (Z.to_nat maxPeers) cand) in Hsorted, Hnd, Hcand.
  split_and!.
  - rewrite length_take. lia.
  - by apply NoDup_app in Hnd as (? & _ & _).
  - by apply StronglySorted_app_1_l in Hsorted.
  - intros id Hid. apply Hcand. set_solver.
  - intros id id' Hid Hc Hlt. apply Hcand in Hc.
    apply elem_of_app in Hc as [Hc|Hc]; [done|].
    pose proof (StronglySorted_app_1_elem_of _ _ _ _ _ Hsorted Hid Hc). lia.
  - intros Hlt id Hc. apply Hcand in Hc.
    rewrite length_take in Hlt.
    rewrite drop_ge in Hc by lia. by rewrite app_nil_r in Hc.
Qed.

(** A negative [maxPeers] makes [resize] throw. *)
Lemma discoverPeers_negative_throws (tm : t) (req : N) (maxPeers : Z) :
  N.of_nat (size (nodeRegistry_ tm)) < 2 ^ 31 → (maxPeers < 0)%Z →
  discoverPeers req maxPeers tm = None.
Proof.
  intros Hsize Hneg. rewrite discoverPeers_take by done.
  by rewrite bool_decide_eq_true_2.
Qed.

Lemma discoverPeers_bounded_witness :
  ∃ l, discoverPeers 2 1 ring_example = Some l ∧ (Z.of_nat (length l) ≤ 1)%Z.
Proof.
  destruct (discoverPeers_bounded ring_example 2 1) as (l & H1 & H2 & _);
    [by vm_compute | lia |].
  by exists l.
Defined.

End discover.

Section handlers.
Import MessageHandler.

Lemma take_le_bytes k w n : (k ≤ w)%nat → take k (le_bytes w n) = le_bytes k n.
Proof.
  revert w n. induction k as [|k IH]; intros w n Hk; [by rewrite take_0|].
  destruct w as [|w]; [lia|]. cbn [le_bytes take]. f_equal. apply IH. lia.
Qed.

(** X7.  [createJoinResponse] puts the acceptance flag in front of the
    serialised peer list and [handleJoinResponse] decodes the payload from its
    first byte on: for every list of fewer than 2^24 peers the decoded list is
    empty, and the handler tries no connection. *)
Theorem join_response_peers_lost (h h' : t) (target : N) (accepted : bool)
    (peers : list N) (nowMs : N) :
  N.of_nat (length peers) < 2 ^ 24 →
  deserializeNodeList (payload (createJoinResponse target accepted peers nowMs h))
    = Returns []
  ∧ handleJoinResponse (createJoinResponse target accepted peers nowMs h) h'
    = Returns [].
Proof.
  intros Hlen.
  assert (Hdec : deserializeNodeList
                   (payload (createJoinResponse target accepted peers nowMs h))
                 = Returns []).
  { unfold createJoinResponse. cbn [payload].
    rewrite serializeNodeList_layout
      by (change (2 ^ 32) with 4294967296; change (2 ^ 24) with 16777216 in Hlen; lia).
    set (n := N.of_nat (length peers)) in *.
    set (flag := if accepted then 1 else 0).
    unfold deserializeNodeList.
    assert (Hl : length (byte_of_N flag :: le_bytes 4 n ++ bytes_of_words peers)
                 = (5 + 8 * length peers)%nat).
    { cbn [length]. rewrite length_app, length_le_bytes, length_bytes_of_words. lia. }
    rewrite Hl.
    rewrite bool_decide_eq_false_2 by lia.
    rewrite read_bytes_in_bounds by (rewrite Hl; lia). cbn [obind].
    rewrite drop_0. cbn [take].
    rewrite take_app_le by (rewrite length_le_bytes; lia).
    rewrite take_le_bytes by lia.
    cbn [le_value]. rewrite le_value_le_bytes, to_N_byte_of_N.
    change (256 ^ N.of_nat 3) with (2 ^ 24).
    rewrite (N.mod_small n) by done.
    assert (Hflag : flag mod 256 = flag) by (by destruct accepted).
    rewrite Hflag.
    assert (Hf : flag ≤ 1) by (destruct accepted; unfold flag; lia).
    change (2 ^ 24) with 16777216 in Hlen.
    replace (wrap64 (4 + (flag + 256 * n) * 8)) with (4 + (flag + 256 * n) * 8)
      by (symmetry; within_64_bits).
    case_bool_decide as Hsz; [done|].
    assert (n = 0 ∧ flag = 0) as [Hn Hfl] by lia.
    rewrite Hn, Hfl. by rewrite bool_decide_eq_false_2. }
  split; [done|]. unfold handleJoinResponse. by rewrite Hdec.
Qed.

Lemma int_of_int_bytes (i : Z) :
  (- 2 ^ 31 ≤ i < 2 ^ 31)%Z → int_of_bytes (int_bytes i) = i.
Proof.
  intros Hi. unfold int_of_bytes, int_bytes, static_cast_int.
  rewrite le_value_le_bytes. change (256 ^ N.of_nat 4) with (2 ^ 32).
  pose proof (Z.mod_pos_bound i (2 ^ 32) eq_refl) as Hm.
  rewrite N.mod_small
    by (apply N2Z.inj_lt; rewrite Z2N.id by lia; change (Z.of_N (2 ^ 32)) with (2 ^ 32)%Z; lia).
  rewrite Z2N.id by lia.
  destruct (decide (0 ≤ i)%Z).
  - rewrite (Z.mod_small i) by lia. rewrite Z.mod_small; lia.
  - replace (i mod 2 ^ 32)%Z with (i + 2 ^ 32)%Z.
    + replace (i + 2 ^ 32 + 2 ^ 31)%Z with (i + 2 ^ 31 + 1 * 2 ^ 32)%Z by lia.
      rewrite Z.mod_add by lia. rewrite Z.mod_small; lia.
    + apply Z.mod_unique with (-1)%Z; lia.
Qed.

(** X8.  [handlePeerDiscovery] reads back the [maxPeers] that
    [createPeerDiscoveryRequest] wrote, for every 32-bit [int], and answers
    the sender with the join response built from [discoverPeers]; for a
    negative [maxPeers] [discoverPeers] throws and no answer is sent. *)
Theorem peer_discovery_round_trip (h h' : t) (target : N) (maxPeers : Z)
    (nowMs nowMs' : N) :
  (- 2 ^ 31 ≤ maxPeers < 2 ^ 31)%Z →
  N.of_nat (size (TopologyManager.nodeRegistry_ (topologyManager_ h'))) < 2 ^ 31 →
  let request := createPeerDiscoveryRequest target maxPeers nowMs h in
  handlePeerDiscovery request nowMs' h'
  = (peers ← TopologyManager.discoverPeers (Node.getID (node_ h)) maxPeers
               (topologyManager_ h');
     Some (reply (Node.getID (node_ h))
             (createJoinResponse (Node.getID (node_ h)) true peers nowMs' h') h'))
  ∧ ((maxPeers < 0)%Z → handlePeerDiscovery request nowMs' h' = None).
Proof.
  intros Hi Hsize request.
  assert (Hpay : payload request = int_bytes maxPeers).
  { unfold request, createPeerDiscoveryRequest. cbn [payload].
    rewrite <- (app_nil_r (zeros 4)).
    rewrite (memcpy_into_head (zeros 4) []) by (unfold int_bytes; by rewrite length_le_bytes).
    by rewrite app_nil_r. }
  assert (Heq : handlePeerDiscovery request nowMs' h'
    = (peers ← TopologyManager.discoverPeers (Node.getID (node_ h)) maxPeers
               (topologyManager_ h');
     Some (reply (Node.getID (node_ h))
             (createJoinResponse (Node.getID (node_ h)) true peers nowMs' h') h'))).
  { unfold handlePeerDiscovery. rewrite Hpay.
    rewrite bool_decide_eq_true_2 by (unfold int_bytes; by rewrite length_le_bytes).
    rewrite take_ge by (unfold int_bytes; by rewrite length_le_bytes).
    by rewrite int_of_int_bytes. }
  split; [done|]. intros Hneg. rewrite Heq.
  by rewrite discoverPeers_negative_throws.
Qed.

Lemma join_response_peers_lost_witness :
  deserializeNodeList
    (payload (createJoinResponse 4 true [2; 3] 0 handler_example)) = Returns []
  ∧ handleJoinResponse (createJoinResponse 4 true [2; 3] 0 handler_example)
      handler_example = Returns [].
Proof. by apply join_response_peers_lost. Defined.

Lemma peer_discovery_round_trip_witness :
  handlePeerDiscovery (createPeerDiscoveryRequest 1 (-1) 0 handler_example) 0
    handler_example = None.
Proof.
  destruct (peer_discovery_round_trip handler_example handler_example 1 (-1) 0 0)
    as [_ H]; [lia | by vm_compute |].
  by apply H.
Defined.

End handlers.


(** ** TopologyManager: connectivity check and edges *)

Section topology_more.
Import TopologyManager.

Lemma validate_loop_registered (keys : list N) (tm : t) :
  Forall (λ k, is_Some (nodeRegistry_ tm !! k)) keys →
  validate_loop keys tm = Returns tm.
Proof.
  induction 1 as [|k keys Hk _ IH]; [done|].
  cbn [validate_loop]. by rewrite bool_decide_eq_true_2.
Qed.

Lemma validateTopology_registered (tm : t) :
  keys_registered tm → validateTopology false tm = Returns tm.
Proof.
  intros Hk. unfold validateTopology, lock_guard.
  apply validate_loop_registered, Forall_forall.
  intros k Hin. apply Hk. by apply elem_of_keys_in_order.
Qed.

Lemma checkNetworkIntegrity_registered (tm : t) :
  keys_registered tm →
  checkNetworkIntegrity tm
  = Returns (bool_decide (size (nodeRegistry_ tm) ≤ 1)%nat, tm).
Proof.
  intros Hk.
  unfold checkNetworkIntegrity. rewrite validateTopology_registered by done.
  cbn [obind]. by rewrite isTopologyConnected_counts_nodes.
Qed.

(** X9.  [isTopologyConnected] starts [hasPathDFS] with the first node as
    both ends, so the search stops at once: the topology counts as connected
    exactly when at most one node is registered, whatever its edges.  On a
    state whose adjacency keys are registered [checkNetworkIntegrity] returns
    that answer and changes nothing. *)
Theorem integrity_check_counts_nodes (tm : t) :
  keys_registered tm →
  isTopologyConnected false tm
    = Returns (bool_decide (size (nodeRegistry_ tm) ≤ 1)%nat)
  ∧ checkNetworkIntegrity tm
    = Returns (bool_decide (size (nodeRegistry_ tm) ≤ 1)%nat, tm).
Proof.
  intros Hk. split; [apply isTopologyConnected_counts_nodes|].
  by apply checkNetworkIntegrity_registered.
Qed.

Lemma keys_registered_addNode (tm : t) id addr :
  keys_registered tm → keys_registered (addNode id addr tm).2.
Proof.
  intros Hk. unfold addNode. case_bool_decide; [done|]. simpl.
  intros a. unfold keys_registered in Hk. simpl.
  destruct (decide (a = id)) as [->|Hne].
  - rewrite !lookup_insert_eq. by eauto.
  - rewrite !lookup_insert_ne by done. apply Hk.
Qed.

Lemma edgeless_addNode (tm : t) id addr :
  keys_registered tm → edgeless tm → edgeless (addNode id addr tm).2.
Proof.
  intros Hk He. unfold addNode. case_bool_decide as Hreg; [done|]. simpl.
  intros a b (s & Hs & Hb). simpl in Hs.
  destruct (decide (a = id)) as [->|Hne].
  - rewrite lookup_insert_eq in Hs. set_solver.
  - rewrite lookup_insert_ne in Hs by done. apply (He a b). by exists s.
Qed.

Lemma edgeless_removeNode (tm : t) id :
  edgeless tm → edgeless (removeNode id tm).2.
Proof.
  intros He. unfold removeNode. case_bool_decide; [|done]. simpl.
  intros a b Hab. apply edge_removeNodeFromGraph in Hab as [Hab _].
  by apply He in Hab.
Qed.

Lemma keys_registered_removeNode (tm : t) id :
  keys_registered tm → keys_registered (removeNode id tm).2.
Proof.
  intros Hk. unfold removeNode. case_bool_decide; [|done]. simpl.
  by apply keys_registered_removeNodeFromGraph.
Qed.

Lemma keys_registered_updateNodeAddress (tm : t) id addr :
  keys_registered tm → keys_registered (updateNodeAddress id addr tm).2.
Proof.
  intros Hk. unfold updateNodeAddress. case_bool_decide; [|done]. simpl.
  intros a Ha. simpl in *. destruct (decide (a = id)) as [->|Hne].
  - rewrite lookup_insert_eq. by eauto.
  - rewrite lookup_insert_ne by done. by apply Hk.
Qed.

Lemma topology_step_inv (tm tm' : t) (c : topology_call) :
  keys_registered tm → edgeless tm → topology_step tm c = Returns tm' →
  keys_registered tm' ∧ edgeless tm' ∧ localID tm' = localID tm
  ∧ c ≠ CallRepairTopology.
Proof.
  intros Hk He. destruct c; cbn [topology_step]; intros Hstep.
  - injection Hstep as <-. split_and!; [by apply keys_registered_addNode
      | by apply edgeless_addNode | | done].
    unfold addNode. by case_bool_decide.
  - injection Hstep as <-. split_and!; [by apply keys_registered_addNode
      | by apply edgeless_addNode | | done].
    unfold registerNode, addNode. by case_bool_decide.
  - injection Hstep as <-. split_and!; [by apply keys_registered_removeNode
      | by apply edgeless_removeNode | | done].
    unfold removeNode. by case_bool_decide.
  - injection Hstep as <-. split_and!; [by apply keys_registered_updateNodeAddress
      | | | done]; unfold updateNodeAddress; by case_bool_decide.
  - by injection Hstep as <-.
  - rewrite validateTopology_registered in Hstep by done. by injection Hstep as <-.
  - rewrite checkNetworkIntegrity_registered in Hstep by done.
    cbn [obind] in Hstep. by injection Hstep as <-.
  - by rewrite repairTopology_relocks in Hstep.
  - by injection Hstep as <-.
Qed.

Lemma topology_run_snoc calls c tm :
  topology_run (calls ++ [c]) tm
  = (tm' ←! topology_run calls tm; topology_step tm' c).
Proof. unfold topology_run. by rewrite foldl_app. Qed.

Lemma keys_registered_new_topology local : keys_registered (new_topology local).
Proof. intros a [x Hx]. simpl in Hx. by rewrite lookup_empty in Hx. Qed.

Lemma edgeless_new_topology local : edgeless (new_topology local).
Proof. intros a b (s & Hs & _). simpl in Hs. by rewrite lookup_empty in Hs. Qed.

Lemma topology_run_inv (calls : list topology_call) (local : N) (tm : t) :
  topology_run calls (new_topology local) = Returns tm →
  keys_registered tm ∧ edgeless tm ∧ localID tm = local
  ∧ CallRepairTopology ∉ calls.
Proof.
  revert tm. induction calls as [|c calls IH] using rev_ind; intros tm Hrun.
  - injection Hrun as <-.
    split_and!; [apply keys_registered_new_topology
                | apply edgeless_new_topology | done | apply not_elem_of_nil].
  - rewrite topology_run_snoc in Hrun.
    destruct (topology_run calls (new_topology local)) as [tm0|f] eqn:E; [|done].
    cbn [obind] in Hrun.
    destruct (IH tm0 eq_refl) as (Hk & He & Hl & Hnot).
    destruct (topology_step_inv _ _ _ Hk He Hrun) as (Hk' & He' & Hl' & Hc).
    split_and!; [done | done | congruence |].
    rewrite elem_of_app, list_elem_of_singleton. naive_solver.
Qed.

Lemma findPath_edgeless (tm : t) (from to : N) :
  edgeless tm → from ≠ to → findPath tm from to = [].
Proof.
  intros He Hne. unfold findPath. rewrite bool_decide_eq_false_2 by done.
  destruct (findPath_run_spec tm from to Hne) as (p & -> & Hpost). simpl.
  destruct Hpost as [[-> _]|[(Hpath & Hhead & Hlast) _]]; [done|].
  destruct p as [|a [|b p]]; simpl in *; simplify_eq.
  destruct Hpath as [Hedge _]. by apply He in Hedge.
Qed.

(** X10.  No sequence of calls of the public operations that returns ever
    adds an edge: [addEdge] is private and only [repairTopology] calls it,
    and [repairTopology] never returns.  So from the state a manager is
    constructed with, every adjacency set stays empty, [findPath] between two
    different nodes is empty and no node has a neighbour. *)
Theorem edges_are_never_added (calls : list topology_call) (local : N) (tm : t) :
  topology_run calls (new_topology local) = Returns tm →
  ¬ CallRepairTopology ∈ calls
  ∧ edgeless tm
  ∧ (∀ from to, from ≠ to → findPath tm from to = [])
  ∧ (∀ id, getNeighbors id tm = []).
Proof.
  intros Hrun. destruct (topology_run_inv _ _ _ Hrun) as (Hk & He & _ & Hnot).
  split_and!; [done | done | by intros; apply findPath_edgeless |].
  intros id. unfold getNeighbors.
  destruct (adjacencyList_ tm !! id) as [s|] eqn:Hs; [|done].
  assert (s = ∅) as ->.
  { apply set_eq. intros b. split; [|set_solver]. intros Hb.
    exfalso. apply (He id b). by exists s. }
  apply set_in_order_empty.
Qed.

Lemma removeNode_after_addNode (tm : t) (id : N) (addr : NetworkAddress) :
  keys_registered tm → nodeRegistry_ tm !! id = None →
  (∀ a, ¬ edge (adjacencyList_ tm) a id) →
  addNode id addr tm
  = (true, mk (localID tm) (<[id := addr]> (nodeRegistry_ tm))
              (<[id := ∅]> (adjacencyList_ tm)) (bootstrapNodes_ tm))
  ∧ removeNode id (addNode id addr tm).2 = (true, tm).
Proof.
  intros Hk Hreg Hno.
  assert (Hadj : adjacencyList_ tm !! id = None).
  { destruct (adjacencyList_ tm !! id) eqn:E; [|done].
    destruct (Hk id) as [x Hx]; [by eexists | congruence]. }
  assert (Hadd : addNode id addr tm
                 = (true, mk (localID tm) (<[id := addr]> (nodeRegistry_ tm))
                             (<[id := ∅]> (adjacencyList_ tm)) (bootstrapNodes_ tm))).
  { unfold addNode. rewrite bool_decide_eq_false_2; [done|].
    rewrite Hreg. by intros [? ?]. }
  split; [done|]. rewrite Hadd. cbn [snd].
  unfold removeNode. simpl. rewrite bool_decide_eq_true_2
    by (rewrite lookup_insert_eq; by eauto).
  unfold removeNodeFromGraph. simpl. destruct tm as [l reg adj boot]. simpl in *.
  f_equal. f_equal.
  - by apply delete_insert_id.
  - rewrite delete_insert_id by done.
    apply map_eq. intros a. rewrite lookup_fmap.
    destruct (adj !! a) as [s|] eqn:Hs; simpl; [|done]. f_equal.
    apply set_eq. intros b. rewrite elem_of_difference, elem_of_singleton.
    split; [naive_solver|]. intros Hb. split; [done|]. intros ->.
    apply (Hno a). by exists s.
Qed.

(** X11.  Registering a node that is unknown, on a state whose adjacency
    keys are registered and where no set mentions the node, succeeds; the
    node then exists with the address given and without neighbours, a second
    [addNode] is refused and changes nothing, and [removeNode] gives back
    exactly the state before. *)
Theorem addNode_then_removeNode (tm : t) (id : N) (addr : NetworkAddress) :
  keys_registered tm → nodeRegistry_ tm !! id = None →
  (∀ a, ¬ edge (adjacencyList_ tm) a id) →
  (addNode id addr tm).1 = true
  ∧ nodeExists id (addNode id addr tm).2 = true
  ∧ getNodeAddress id (addNode id addr tm).2 = addr
  ∧ getNeighbors id (addNode id addr tm).2 = []
  ∧ addNode id addr (addNode id addr tm).2 = (false, (addNode id addr tm).2)
  ∧ removeNode id (addNode id addr tm).2 = (true, tm).
Proof.
  intros Hk Hreg Hno.
  destruct (removeNode_after_addNode tm id addr Hk Hreg Hno) as [Hadd Hback].
  split_and!; [| | | | |exact Hback]; rewrite Hadd; cbn [fst snd].
  - done.
  - unfold nodeExists. simpl. rewrite lookup_insert_eq. by apply bool_decide_eq_true_2.
  - unfold getNodeAddress. simpl. by rewrite lookup_insert_eq.
  - unfold getNeighbors. simpl. rewrite lookup_insert_eq. apply set_in_order_empty.
  - unfold addNode. simpl. rewrite bool_decide_eq_true_2; [done|].
    rewrite lookup_insert_eq. by eauto.
Qed.

Lemma integrity_check_counts_nodes_witness :
  checkNetworkIntegrity two_nodes_example = Returns (false, two_nodes_example).
Proof.
  destruct (integrity_check_counts_nodes two_nodes_example) as [_ H].
  - do 2 apply keys_registered_addNode. apply keys_registered_new_topology.
  - exact H.
Defined.

Lemma edges_are_never_added_witness :
  findPath two_nodes_example 1 2 = [].
Proof.
  destruct (edges_are_never_added
              [CallAddNode 1 (mkAddress "10.0.0.1" 8888);
               CallAddNode 2 (mkAddress "10.0.0.2" 8888);
               CallCheckNetworkIntegrity] 1 two_nodes_example)
    as (_ & _ & H & _); [reflexivity|].
  by apply H.
Defined.

Lemma addNode_then_removeNode_witness :
  removeNode 2 (addNode 2 (mkAddress "10.0.0.2" 8888) (new_topology 1)).2
  = (true, new_topology 1).
Proof.
  apply addNode_then_removeNode.
  - apply keys_registered_new_topology.
  - reflexivity.
  - intros a. apply edgeless_new_topology.
Defined.

End topology_more.


(** ** Broadcast and flooding *)

Section broadcast.
Import NetworkManager.

Lemma sendMessageToPeer_spec peer message nm :
  (sendMessageToPeer peer message nm).1 = bool_decide (deliverable nm peer)
  ∧ connectable (sendMessageToPeer peer message nm).2 = connectable nm
  ∧ activeConnections_ (sendMessageToPeer peer message nm).2 = activeConnections_ nm
  ∧ socketThrows (sendMessageToPeer peer message nm).2 = socketThrows nm
  ∧ handedOver (sendMessageToPeer peer message nm).2
    = handedOver nm ++ [(peer, message)]
  ∧ wire (sendMessageToPeer peer message nm).2
    = wire nm ++ (if bool_decide (deliverable nm peer) then [(peer, message)] else []).
Proof.
  unfold sendMessageToPeer, deliverable.
  destruct (decide (peer ∈ activeConnections_ nm)) as [Ha|Ha];
    destruct (decide (peer ∈ socketThrows nm)) as [Ht|Ht];
    rewrite ?(bool_decide_eq_true_2 _ Ha), ?(bool_decide_eq_false_2 _ Ha),
      ?(bool_decide_eq_true_2 _ Ht), ?(bool_decide_eq_false_2 _ Ht); simpl;
    first [ rewrite (bool_decide_eq_true_2 (_ ∧ _)) by done
          | rewrite (bool_decide_eq_false_2 (_ ∧ _)) by naive_solver ];
    by rewrite ?app_nil_r.
Qed.

Lemma broadcast_round_skip message exclude b nm :
  broadcast_round message exclude (b, nm) exclude = (b, nm).
Proof. unfold broadcast_round. by rewrite bool_decide_eq_false_2 by naive_solver. Qed.

Lemma broadcast_round_send message exclude b nm p :
  p ≠ exclude →
  broadcast_round message exclude (b, nm) p
  = (b && (sendMessageToPeer p message nm).1, (sendMessageToPeer p message nm).2).
Proof.
  intros H. unfold broadcast_round. rewrite bool_decide_eq_true_2 by done.
  by destruct (sendMessageToPeer p message nm).
Qed.

Lemma broadcast_fold_spec message exclude (peers : list N) (b : bool) (nm : t) :
  let res := foldl (broadcast_round message exclude) (b, nm) peers in
  let targets := filter (λ p, p ≠ exclude) peers in
  res.1 = b && bool_decide (Forall (deliverable nm) targets)
  ∧ connectable res.2 = connectable nm
  ∧ activeConnections_ res.2 = activeConnections_ nm
  ∧ socketThrows res.2 = socketThrows nm
  ∧ handedOver res.2 = handedOver nm ++ copies message targets
  ∧ wire res.2 = wire nm ++ copies message (filter (deliverable nm) targets).
Proof.
  revert b nm. induction peers as [|p peers IH]; intros b nm; cbn zeta.
  - simpl. by rewrite ?andb_true_r, !app_nil_r.
  - cbn [foldl].
    destruct (decide (p = exclude)) as [->|Hne].
    + rewrite broadcast_round_skip.
      rewrite filter_cons_False by naive_solver. apply IH.
    + rewrite broadcast_round_send by done.
      rewrite filter_cons_True by done.
      destruct (sendMessageToPeer p message nm) as [ok nm'] eqn:E.
      cbn [fst snd].
      pose proof (sendMessageToPeer_spec p message nm) as (H1 & H2 & H3 & H4 & H5 & H6).
      rewrite E in H1, H2, H3, H4, H5, H6. simpl in H1, H2, H3, H4, H5, H6.
      specialize (IH (b && ok) nm'). cbn zeta in IH.
      destruct IH as (I1 & I2 & I3 & I4 & I5 & I6).
      assert (Hsame : ∀ q, deliverable nm' q ↔ deliverable nm q).
      { intros q. unfold deliverable. by rewrite H3, H4. }
      split_and!.
      * rewrite I1, H1. rewrite <- andb_assoc. f_equal.
        rewrite (bool_decide_ext (Forall (deliverable nm') _)
                   (Forall (deliverable nm) (filter (λ p0, p0 ≠ exclude) peers)))
          by (by apply Forall_proper).
        rewrite <- bool_decide_and. apply bool_decide_ext.
        by rewrite Forall_cons.
      * congruence.
      * congruence.
      * congruence.
      * rewrite I5, H5. unfold copies. rewrite fmap_cons.
        by rewrite <- app_assoc.
      * rewrite I6, H6. unfold copies. rewrite <- app_assoc. f_equal.
        rewrite (list_filter_iff _ _ _ Hsame).
        rewrite (filter_cons (deliverable nm)).
        case_bool_decide; destruct (decide (deliverable nm p)); try done.
Qed.

Lemma broadcastMessage_fold peers message exclude nm :
  broadcastMessage peers message exclude nm
  = foldl (broadcast_round message exclude) (true, nm) peers.
Proof.
  reflexivity.
Qed.

Lemma broadcastMessage_spec (peers : list N) (message : Message)
    (exclude : N) (nm : t) :
  let res := broadcastMessage peers message exclude nm in
  let targets := filter (λ p, p ≠ exclude) peers in
  res.1 = bool_decide (Forall (deliverable nm) targets)
  ∧ handedOver res.2 = handedOver nm ++ copies message targets
  ∧ wire res.2 = wire nm ++ copies message (filter (deliverable nm) targets)
  ∧ activeConnections_ res.2 = activeConnections_ nm.
Proof.
  cbn zeta. rewrite broadcastMessage_fold.
  pose proof (broadcast_fold_spec message exclude peers true nm) as H.
  cbn zeta in H. by destruct H as (H1 & _ & H3 & _ & H5 & H6).
Qed.

(** X12.  [broadcastMessage] hands the message to every roster peer other
    than [excludeID], once each and in roster order, whether or not the peer
    is connected; it writes to those that are connected and whose socket does
    not throw, keeps going after a failure, and returns true exactly when
    every one of them could be written to (so also on an empty roster). *)
Theorem broadcast_reaches_every_other_peer (peers : list N) (message : Message)
    (exclude : N) (nm : t) :
  let res := broadcastMessage peers message exclude nm in
  let targets := filter (λ p, p ≠ exclude) peers in
  (res.1 = true ↔ ∀ p, p ∈ peers → p ≠ exclude → deliverable nm p)
  ∧ (peers = [] → res.1 = true)
  ∧ handedOver res.2 = handedOver nm ++ copies message targets
  ∧ wire res.2 = wire nm ++ copies message (filter (deliverable nm) targets)
  ∧ activeConnections_ res.2 = activeConnections_ nm.
Proof.
  cbn zeta.
  pose proof (broadcastMessage_spec peers message exclude nm) as H.
  cbn zeta in H. destruct H as (H1 & H2 & H3 & H4).
  split_and!; try done.
  - rewrite H1, bool_decide_eq_true, Forall_forall.
    setoid_rewrite list_elem_of_filter. naive_solver.
  - by intros ->.
Qed.

End broadcast.

Section flood.
Import MessageRouter.

Lemma flood_loop_network (message : Message) (peers : list N) (b : bool) (r : t) :
  foldl (λ '(success, r) peerID,
           if bool_decide (peerID ≠ senderID message) then
             let '(ok, r) := send peerID message r in
             (success && ok, r)
           else (success, r))
        (b, r) peers
  = let res := foldl (broadcast_round message (senderID message))
                 (b, networkManager_ r) peers in
    (res.1, with_network res.2 r).
Proof.
  revert b r. induction peers as [|p peers IH]; intros b r.
  - by destruct r.
  - cbn [foldl]. destruct (decide (p = senderID message)) as [->|Hne].
    + rewrite broadcast_round_skip.
      rewrite bool_decide_eq_false_2 by naive_solver. apply IH.
    + rewrite broadcast_round_send by done.
      rewrite bool_decide_eq_true_2 by done. unfold send.
      destruct (NetworkManager.sendMessageToPeer p message (networkManager_ r))
        as [ok nm] eqn:E.
      rewrite IH. by destruct r.
Qed.

Lemma floodMessage_unseen (message : Message) (now : Z) (r : t) :
  isMessageSeen (generateMessageID message) r = false →
  floodMessage message now r
  = let res := NetworkManager.broadcastMessage (Node.getPeerIDs (node_ r)) message
                 (senderID message) (networkManager_ r) in
    (res.1,
     mk (node_ r) res.2 (topologyManager_ r)
        (<[generateMessageID message := now]> (seenMessages_ r))
        (routedMessageCount_ r) (wrap64 (forwardedMessageCount_ r + 1))
        (totalHopCount_ r)).
Proof.
  intros Hseen. unfold floodMessage. unfold isMessageSeen in Hseen. rewrite Hseen.
  rewrite flood_loop_network. cbn zeta. cbn [node_ networkManager_].
  rewrite broadcastMessage_fold.
  by destruct (foldl _ _ _).
Qed.

Lemma floodMessage_seen (message : Message) (now : Z) (r : t) :
  isMessageSeen (generateMessageID message) r = true →
  floodMessage message now r = (false, r).
Proof.
  intros Hseen. unfold floodMessage. unfold isMessageSeen in Hseen. by rewrite Hseen.
Qed.

(** X13.  [floodMessage] of a message whose id is not yet seen marks the id
    as seen, hands the message to every roster peer except the message's
    sender, in roster order, counts one forwarded message and leaves roster
    and topology alone; it returns true exactly when each of those peers
    could be written to. *)
Theorem flood_fan_out (message : Message) (now : Z) (r : t) :
  isMessageSeen (generateMessageID message) r = false →
  let res := floodMessage message now r in
  let targets := filter (λ p, p ≠ senderID message) (Node.getPeerIDs (node_ r)) in
  NetworkManager.handedOver (networkManager_ res.2)
    = NetworkManager.handedOver (networkManager_ r) ++ copies message targets
  ∧ (res.1 = true ↔ ∀ p, p ∈ targets → deliverable (networkManager_ r) p)
  ∧ isMessageSeen (generateMessageID message) res.2 = true
  ∧ forwardedMessageCount_ res.2 = wrap64 (forwardedMessageCount_ r + 1)
  ∧ node_ res.2 = node_ r ∧ topologyManager_ res.2 = topologyManager_ r.
Proof.
  intros Hseen. cbn zeta. rewrite floodMessage_unseen by done. cbn zeta.
  pose proof (broadcastMessage_spec (Node.getPeerIDs (node_ r)) message
                (senderID message) (networkManager_ r)) as H.
  cbn zeta in H. destruct H as (H1 & H2 & _).
  cbn [fst snd networkManager_ node_ topologyManager_ forwardedMessageCount_].
  split_and!; try done.
  - by rewrite H1, bool_decide_eq_true, Forall_forall.
  - unfold isMessageSeen. cbn [seenMessages_]. rewrite lookup_insert_eq.
    by apply bool_decide_eq_true_2.
Qed.
Lemma floodMessage_marks_seen (message : Message) (now : Z) (r : t) :
  isMessageSeen (generateMessageID message) (floodMessage message now r).2 = true.
Proof.
  destruct (isMessageSeen (generateMessageID message) r) eqn:Hseen.
  - by rewrite floodMessage_seen.
  - rewrite floodMessage_unseen by done. cbn zeta. cbn [snd].
    unfold isMessageSeen. cbn [seenMessages_]. rewrite lookup_insert_eq.
    by apply bool_decide_eq_true_2.
Qed.

Lemma generateMessageID_reversed (m : Message) :
  generateMessageID (reversed m) = generateMessageID m.
Proof.
  unfold generateMessageID, reversed. cbn [senderID receiverID timestamp].
  by rewrite (N.lxor_comm (receiverID m)).
Qed.

(** X14.  Once a message has been flooded, [floodMessage] drops every message
    with the same id, that is the same [senderID xor receiverID xor
    timestamp]: it returns false, sends nothing and changes nothing.  The
    message with sender and receiver exchanged is such a message. *)
Theorem flood_duplicate_suppressed (m m' : Message) (now now' : Z) (r : t) :
  (generateMessageID m' = generateMessageID m →
   floodMessage m' now' (floodMessage m now r).2
   = (false, (floodMessage m now r).2))
  ∧ floodMessage (reversed m) now' (floodMessage m now r).2
    = (false, (floodMessage m now r).2).
Proof.
  assert (H : ∀ m', generateMessageID m' = generateMessageID m →
                    floodMessage m' now' (floodMessage m now r).2
                    = (false, (floodMessage m now r).2)).
  { intros m0 Hid. apply floodMessage_seen. rewrite Hid.
    apply floodMessage_marks_seen. }
  split; [apply H | apply H, generateMessageID_reversed].
Qed.

(** X15.  The flood record of a message expires: after
    [cleanupSeenMessages] the message is still dropped while at most
    [timeoutSeconds] whole seconds have passed since it was flooded, and is
    flooded to the peers again once more have passed. *)
Theorem flood_again_after_cleanup (m : Message) (now now' now'' timeout : Z) (r : t) :
  isMessageSeen (generateMessageID m) r = false →
  let r1 := (floodMessage m now r).2 in
  let r2 := cleanupSeenMessages now' timeout r1 in
  ((elapsed_seconds now' now ≤ timeout)%Z →
     floodMessage m now'' r2 = (false, r2))
  ∧ ((timeout < elapsed_seconds now' now)%Z →
     NetworkManager.handedOver (networkManager_ (floodMessage m now'' r2).2)
     = NetworkManager.handedOver (networkManager_ r1)
       ++ copies m (filter (λ p, p ≠ senderID m) (Node.getPeerIDs (node_ r)))).
Proof.
  intros Hseen. cbn zeta.
  rewrite (floodMessage_unseen m now r) by done. cbn zeta. cbn [snd].
  set (r1 := mk _ _ _ _ _ _ _).
  assert (Hlook : seenMessages_ (cleanupSeenMessages now' timeout r1)
                    !! generateMessageID m
                  = if bool_decide (timeout < elapsed_seconds now' now)%Z
                    then None else Some now).
  { unfold cleanupSeenMessages, r1. cbn [seenMessages_].
    case_bool_decide as Hold.
    - apply map_lookup_filter_None. right. intros t Ht.
      rewrite lookup_insert_eq in Ht. injection Ht as <-. simpl. by intros H; apply H.
    - apply map_lookup_filter_Some. split; [apply lookup_insert_eq | done]. }
  split; intros Ht.
  - apply floodMessage_seen. unfold isMessageSeen. rewrite Hlook.
    rewrite (bool_decide_eq_false_2 (timeout < _)%Z) by lia.
    by apply bool_decide_eq_true_2.
  - rewrite floodMessage_unseen.
    2:{ unfold isMessageSeen. rewrite Hlook.
        rewrite (bool_decide_eq_true_2 (timeout < _)%Z) by done.
        apply bool_decide_eq_false_2. by intros [? ?]. }
    cbn zeta. cbn [snd networkManager_].
    pose proof (broadcastMessage_spec
                  (Node.getPeerIDs (node_ (cleanupSeenMessages now' timeout r1))) m
                  (senderID m) (networkManager_ (cleanupSeenMessages now' timeout r1)))
      as H.
    cbn zeta in H. destruct H as (_ & H2 & _). exact H2.
Qed.
Lemma flood_fan_out_witness :
  NetworkManager.handedOver (networkManager_ (floodMessage ping 0 roster_example).2)
  = [(2, ping)].
Proof.
  by destruct (flood_fan_out ping 0 roster_example) as (H & _).
Defined.

Lemma flood_duplicate_suppressed_witness :
  floodMessage (mkMessage DATA_MESSAGE 3 0 [] 5) 9
    (floodMessage data_message_example 0 roster_example).2
  = (false, (floodMessage data_message_example 0 roster_example).2).
Proof.
  destruct (flood_duplicate_suppressed data_message_example
              (mkMessage DATA_MESSAGE 3 0 [] 5) 0 9 roster_example) as [H _].
  by apply H.
Defined.

Lemma flood_again_after_cleanup_witness :
  NetworkManager.handedOver
    (networkManager_
       (floodMessage ping (seconds 500)
          (cleanupSeenMessages (seconds 400) 300
             (floodMessage ping 0 roster_example).2)).2)
  = [(2, ping); (2, ping)].
Proof.
  destruct (flood_again_after_cleanup ping 0 (seconds 400) (seconds 500) 300
              roster_example) as [_ H]; [done|].
  by rewrite H.
Defined.

End flood.


(** ** ReliableMessaging: first transmission and cleanup *)

Section reliable_more.
Import ReliableMessaging.

(** X16.  [sendReliableMessage] stores a Pending record under the id drawn
    and hands the message to the transport once.  When the transport can
    write to the target it returns the id and counts one sent message.  When
    it cannot, the record is erased at once: the call returns 0, counts one
    failed message, fires the failure callback if one is installed, and no
    later [retryPendingMessages] retries the message.  Records under other
    ids are untouched. *)
Theorem reliable_send_outcome (st : t) (target : N) (msg : Message) (id : N)
    (now : Z) :
  let res := sendReliableMessage target msg id now st in
  NetworkManager.handedOver (networkManager_ res.2)
    = NetworkManager.handedOver (networkManager_ st) ++ [(target, msg)]
  ∧ (∀ k, k ≠ id → pendingMessages_ res.2 !! k = pendingMessages_ st !! k)
  ∧ (deliverable (networkManager_ st) target →
       res.1 = id
       ∧ pendingMessages_ res.2 !! id = Some (mkReliable id msg target PENDING 0 now now)
       ∧ sentMessages_ res.2 = wrap64 (sentMessages_ st + 1)
       ∧ fired res.2 = fired st)
  ∧ (¬ deliverable (networkManager_ st) target →
       res.1 = 0
       ∧ pendingMessages_ res.2 !! id = None
       ∧ sentMessages_ res.2 = sentMessages_ st
       ∧ failedMessages_ res.2 = wrap64 (failedMessages_ st + 1)
       ∧ fired res.2
         = fired st ++ (if onMessageFailed_ st then [Failed id target] else [])
       ∧ ∀ now' timeoutSeconds maxRetries,
           id ∉ (retry_selection now' timeoutSeconds maxRetries res.2).1).
Proof.
  cbn zeta. unfold sendReliableMessage.
  pose proof (sendMessageToPeer_spec target msg (networkManager_ st))
    as (H1 & _ & _ & _ & H5 & _).
  destruct (NetworkManager.sendMessageToPeer target msg (networkManager_ st))
    as [ok nm] eqn:E.
  cbn [fst snd] in H1, H5. cbn [networkManager_ pendingMessages_ onMessageDelivered_
    onMessageFailed_ sentMessages_ acknowledgedMessages_ failedMessages_ fired].
  destruct ok.
  - symmetry in H1. apply bool_decide_eq_true in H1.
    cbn [fst snd networkManager_ pendingMessages_ sentMessages_ fired].
    split_and!; [done | by intros k Hk; rewrite lookup_insert_ne | | done].
    intros _. by rewrite lookup_insert_eq.
  - symmetry in H1. apply bool_decide_eq_false in H1.
    unfold markMessageFailed.
    cbn [pendingMessages_ networkManager_ onMessageDelivered_ onMessageFailed_
         sentMessages_ acknowledgedMessages_ failedMessages_ fired].
    rewrite lookup_insert_eq.
    cbn [fst snd networkManager_ pendingMessages_ sentMessages_ failedMessages_ fired
         destinationID].
    split_and!; [done | | done |].
    + intros k Hk. by rewrite lookup_delete_ne, lookup_insert_ne.
    + intros _. rewrite lookup_delete_eq. split_and!; try done.
      intros now' timeout maxRetries Hin.
      apply retry_selection_spec in Hin as (m & Hm & _).
      cbn [pendingMessages_] in Hm. by rewrite lookup_delete_eq in Hm.
Qed.

(** X17.  An acknowledged record is reported by [isMessageAcknowledged]
    until [cleanupAcknowledgedMessages] erases it, which it does once more
    than [timeoutSeconds] whole seconds have passed since the message was
    first sent; from then on the id is unknown, so it is no longer reported
    as acknowledged and a further acknowledgement is refused.  Records that
    are not acknowledged are never erased by the cleanup. *)
Theorem cleanup_forgets_acknowledged (st : t) (id sender : N) (m : ReliableMessage)
    (now timeoutSeconds : Z) :
  pendingMessages_ st !! id = Some m →
  let st1 := (acknowledgeMessage id sender st).2 in
  let st2 := cleanupAcknowledgedMessages now timeoutSeconds st1 in
  isMessageAcknowledged id st1 = true
  ∧ ((timeoutSeconds < elapsed_seconds now (sendTime m))%Z →
       pendingMessages_ st2 !! id = None
       ∧ isMessageAcknowledged id st2 = false
       ∧ (acknowledgeMessage id sender st2).1 = false)
  ∧ ((elapsed_seconds now (sendTime m) ≤ timeoutSeconds)%Z →
       isMessageAcknowledged id st2 = true)
  ∧ (∀ k m', k ≠ id → pendingMessages_ st !! k = Some m' →
       ackStatus m' ≠ ACKNOWLEDGED → pendingMessages_ st2 !! k = Some m').
Proof.
  intros Hm. cbn zeta. unfold acknowledgeMessage. rewrite Hm. cbn [snd].
  unfold cleanupAcknowledgedMessages, isMessageAcknowledged.
  cbn [pendingMessages_]. rewrite lookup_insert_eq.
  split_and!.
  - by apply bool_decide_eq_true_2.
  - intros Hold.
    assert (Hnone : filter (λ kv : N * ReliableMessage,
                       ¬ (ackStatus kv.2 = ACKNOWLEDGED
                          ∧ (timeoutSeconds < elapsed_seconds now (sendTime kv.2))%Z))
                      (<[id := with_status ACKNOWLEDGED m]> (pendingMessages_ st))
                    !! id = None).
    { apply map_lookup_filter_None. right. intros x Hx.
      rewrite lookup_insert_eq in Hx. injection Hx as <-. simpl. naive_solver. }
    rewrite Hnone. by split_and!.
  - intros Hyoung.
    erewrite (proj2 (map_lookup_filter_Some _ _ id (with_status ACKNOWLEDGED m)));
      [by apply bool_decide_eq_true_2|].
    split; [apply lookup_insert_eq|]. simpl. lia.
  - intros k m' Hk Hm' Hst. apply map_lookup_filter_Some.
    split; [by rewrite lookup_insert_ne|]. simpl. naive_solver.
Qed.

Lemma reliable_send_outcome_witness :
  (sendReliableMessage 2 ping 9 0 ack_example).1 = 0
  ∧ pendingMessages_ (sendReliableMessage 2 ping 9 0 ack_example).2 !! 9 = None.
Proof.
  destruct (reliable_send_outcome ack_example 2 ping 9 0) as (_ & _ & _ & H).
  destruct H as (H1 & H2 & _); [|done].
  intros [H _]. by apply not_elem_of_empty in H.
Defined.

Lemma cleanup_forgets_acknowledged_witness :
  isMessageAcknowledged 7
    (cleanupAcknowledgedMessages (seconds 301) 300
       (acknowledgeMessage 7 2 ack_example).2) = false.
Proof.
  destruct (cleanup_forgets_acknowledged ack_example 7 2
              (mkReliable 7 (mkMessage DATA_MESSAGE 1 2 [] 0) 2 PENDING 0 0 0)
              (seconds 301) 300 eq_refl) as (_ & H & _).
  by destruct H as (_ & H & _).
Defined.

End reliable_more.


(** ** DataExchange: chunks in any order *)

Section any_order.
Context (cs : N) (B : list byte) (transfer count : N) (k : nat).
Hypothesis Hcount : count = N.of_nat k.

Local Abbreviation ideal := (ideal_chunk cs B transfer count).
Local Abbreviation table := (chunk_table (ideal <$> (N.of_nat <$> seq 0 k)) ∅).

Lemma arrival_table_lookup (idx : list N) (m : gmap N DataExchange.DataChunk) j :
  chunk_table (ideal <$> idx) m !! j
  = if bool_decide (j ∈ idx) then Some (ideal j) else m !! j.
Proof.
  revert m. induction idx as [|i idx IH]; intros m.
  - unfold chunk_table. cbn [fmap list_fmap foldl].
    by rewrite bool_decide_eq_false_2 by apply not_elem_of_nil.
  - unfold chunk_table. cbn [fmap list_fmap foldl].
    fold (chunk_table (ideal <$> idx)
            (<[DataExchange.sequenceNumber (ideal i) := ideal i]> m)).
    rewrite IH. cbn [ideal_chunk DataExchange.sequenceNumber].
    destruct (decide (j ∈ idx)) as [Hin|Hin].
    + rewrite !bool_decide_eq_true_2; [done | by right | done].
    + rewrite (bool_decide_eq_false_2 (j ∈ idx)) by done.
      destruct (decide (j = i)) as [->|Hne].
      * rewrite lookup_insert_eq. by rewrite bool_decide_eq_true_2 by left.
      * rewrite lookup_insert_ne by done.
        rewrite bool_decide_eq_false_2; [done|]. rewrite elem_of_cons. naive_solver.
Qed.

Lemma arrival_table_full (idx : list N) :
  (∀ j, j ∈ idx → j < count) → (∀ j, j < count → j ∈ idx) →
  chunk_table (ideal <$> idx) ∅ = table.
Proof.
  intros Hlt Hall. apply map_eq. intros j.
  rewrite arrival_table_lookup, chunk_table_lookup, lookup_empty.
  apply option_eq. intros c. repeat case_bool_decide; try done.
  - exfalso. apply Hlt in H. lia.
  - exfalso. apply H, Hall. lia.
Qed.

Lemma arrival_table_short (idx : list N) j0 :
  (∀ j, j ∈ idx → j < count) → j0 < count → j0 ∉ idx →
  N.of_nat (size (chunk_table (ideal <$> idx) ∅)) < count.
Proof.
  intros Hlt Hj0 Hnot.
  assert (Hsub : chunk_table (ideal <$> idx) ∅ ⊆ delete j0 table).
  { apply map_subseteq_spec. intros j c Hj.
    rewrite arrival_table_lookup, lookup_empty in Hj.
    case_bool_decide as Hin; [|done]. simplify_eq.
    rewrite lookup_delete_ne by (by intros ->).
    rewrite chunk_table_lookup. apply Hlt in Hin.
    by rewrite bool_decide_eq_true_2 by lia. }
  apply map_subseteq_size in Hsub.
  assert (Hj : table !! j0 = Some (ideal j0)).
  { rewrite chunk_table_lookup. by rewrite bool_decide_eq_true_2 by lia. }
  pose proof (map_size_delete_Some j0 table (ltac:(by eexists))) as Hd.
  rewrite chunk_table_size in Hd. lia.
Qed.

Lemma reassembleData_incomplete (T : gmap N DataExchange.DataChunk) st :
  DataExchange.receivedChunks_ st !! transfer = Some T →
  (∀ i c, T !! i = Some c → DataExchange.totalChunks c = count) →
  N.of_nat (size T) < count →
  DataExchange.reassembleData transfer st = (false, st).
Proof.
  intros HT Htot Hsz. unfold DataExchange.reassembleData. rewrite HT.
  destruct (keys_in_order T) as [|first rest] eqn:Hkeys; [done|].
  assert (first ∈ keys_in_order T) as Hin by (rewrite Hkeys; left).
  apply elem_of_keys_in_order in Hin as [c Hc]. rewrite Hc.
  rewrite (Htot _ _ Hc). by rewrite bool_decide_eq_true_2.
Qed.

Lemma handleDataChunk_incomplete (T : gmap N DataExchange.DataChunk) c source now st :
  DataExchange.chunkID c = transfer →
  DataExchange.store_chunk c (DataExchange.receivedChunks_ st) !! transfer = Some T →
  (∀ i c', T !! i = Some c' → DataExchange.totalChunks c' = count) →
  N.of_nat (size T) < count →
  DataExchange.completedData_ (DataExchange.handleDataChunk c source now st)
  = DataExchange.completedData_ st.
Proof.
  intros Hid HT Htot Hsz. unfold DataExchange.handleDataChunk. rewrite Hid.
  match goal with |- context [DataExchange.reassembleData ?a ?b] =>
    rewrite (reassembleData_incomplete T b HT Htot Hsz) end.
  cbn iota. repeat case_match; done.
Qed.

Lemma complete_arrival_spec idx : complete_arrival k idx ↔ ∀ j, j < count → j ∈ idx.
Proof.
  unfold complete_arrival. rewrite Forall_forall. split.
  - intros H j Hj. apply H. apply list_elem_of_fmap. exists (N.to_nat j).
    split; [lia|]. apply elem_of_seq. lia.
  - intros H j (i & -> & Hi%elem_of_seq)%list_elem_of_fmap. apply H. lia.
Qed.

Lemma receive_any_order (idx : list N) source now st :
  (∀ j, j ∈ idx → j < count) →
  DataExchange.receivedChunks_ st !! transfer = None →
  DataExchange.completedData_ st !! transfer = None →
  DataExchange.completedData_
    (DataExchange.receive_chunks (ideal <$> idx) source now st) !! transfer
  = if decide (complete_arrival k idx ∧ idx ≠ [])
    then Some (take (k * N.to_nat cs) B) else None.
Proof.
  intros Hlt Hrecv Hdone. induction idx as [|j idx IH] using rev_ind.
  - simpl. rewrite Hdone. by rewrite decide_False by naive_solver.
  - assert (Hlt' : ∀ j, j ∈ idx → j < count) by (intros; apply Hlt; set_solver).
    specialize (IH Hlt').
    rewrite fmap_app. cbn [fmap list_fmap].
    unfold DataExchange.receive_chunks. rewrite foldl_snoc.
    fold (DataExchange.receive_chunks (ideal <$> idx) source now st).
    set (st' := DataExchange.receive_chunks (ideal <$> idx) source now st) in *.
    assert (Hst' : default ∅ (DataExchange.receivedChunks_ st' !! transfer)
                   = chunk_table (ideal <$> idx) ∅).
    { destruct idx as [|i idx'].
      - unfold st'. simpl. by rewrite Hrecv.
      - unfold st'. rewrite (receive_chunks_table transfer); [by rewrite Hrecv | |done].
        apply Forall_fmap, Forall_forall. done. }
    assert (Hstore : DataExchange.store_chunk (ideal j)
                       (DataExchange.receivedChunks_ st') !! transfer
                     = Some (chunk_table (ideal <$> (idx ++ [j])) ∅)).
    { unfold DataExchange.store_chunk. cbn [ideal_chunk DataExchange.chunkID
        DataExchange.sequenceNumber]. rewrite lookup_insert_eq. f_equal.
      rewrite Hst'. unfold chunk_table. rewrite fmap_app. cbn [fmap list_fmap].
      by rewrite foldl_snoc. }
    assert (Hjlt : j < count) by (apply Hlt; set_solver).
    destruct (decide (complete_arrival k (idx ++ [j]))) as [Hfull|Hpart].
    + rewrite decide_True by (split; [done | by destruct idx]).
      rewrite arrival_table_full in Hstore
        by (done || by apply complete_arrival_spec).
      apply (handleDataChunk_completes cs B count k (ideal j) source now st');
        [exact Hstore | done | lia].
    + rewrite decide_False by naive_solver.
      assert (∃ j0, j0 < count ∧ j0 ∉ idx ++ [j]) as (j0 & Hj0 & Hnot).
      { unfold complete_arrival in Hpart. apply not_Forall_Exists in Hpart; [|apply _].
        apply Exists_exists in Hpart as (j0 & Hin & Hnot).
        exists j0. split; [|done].
        apply list_elem_of_fmap in Hin as (i & -> & Hi%elem_of_seq). lia. }
      rewrite (handleDataChunk_incomplete _ (ideal j) source now st'
                 (eq_refl : DataExchange.chunkID (ideal j) = transfer) Hstore).
      * rewrite IH. rewrite decide_False; [done|]. intros [Hc _].
        apply Hnot. apply elem_of_app. left.
        rewrite complete_arrival_spec in Hc. by apply Hc.
      * intros i c Hc. rewrite arrival_table_lookup, lookup_empty in Hc.
        case_bool_decide; by simplify_eq.
      * by eapply arrival_table_short.
Qed.

End any_order.

(** X18.  The receiver does not depend on the order of arrival.  When the
    chunks that [splitData] produced (under the bounds of C2) are handed to
    [handleDataChunk] in any order, with or without repetitions, the received
    data of the transfer is exactly the payload as soon as every chunk has
    arrived; as long as one chunk is missing nothing is recorded as
    received. *)
Theorem chunks_in_any_order (B : list byte) (cs transfer : N)
    (chunks arrival : list DataExchange.DataChunk) (source : N) (now : Z)
    (st : DataExchange.t) :
  0 < cs →
  N.of_nat (length B) + cs - 1 < 2 ^ 64 →
  ceil_div (N.of_nat (length B)) cs < 2 ^ 32 →
  DataExchange.splitData cs B transfer = Returns chunks →
  (∀ c, c ∈ arrival → c ∈ chunks) →
  DataExchange.receivedChunks_ st !! transfer = None →
  DataExchange.completedData_ st !! transfer = None →
  ((∀ c, c ∈ chunks → c ∈ arrival) →
     DataExchange.getReceivedData transfer
       (DataExchange.receive_chunks arrival source now st) = B)
  ∧ (∀ c, c ∈ chunks → c ∉ arrival →
       DataExchange.completedData_
         (DataExchange.receive_chunks arrival source now st) !! transfer = None).
Proof.
  intros Hcs H64 H32 Hsplit Hsub Hrecv Hdone.
  rewrite splitData_ideal in Hsplit by done. injection Hsplit as <-.
  set (count := ceil_div (N.of_nat (length B)) cs) in *.
  set (k := N.to_nat count).
  assert (Hcount : count = N.of_nat k) by lia.
  pose proof (ceil_div_bounds (N.of_nat (length B)) cs Hcs) as (Hlo & Hhi & Hzero & Hpos).
  fold count in Hlo, Hhi, Hzero, Hpos.
  set (idx := DataExchange.sequenceNumber <$> arrival).
  assert (Hchunk : ∀ c, c ∈ ideal_chunk cs B transfer count <$> (N.of_nat <$> seq 0 k)
                        ↔ ∃ j, j < count ∧ c = ideal_chunk cs B transfer count j).
  { intros c. rewrite list_elem_of_fmap. split.
    - intros (j & -> & (i & -> & Hi%elem_of_seq)%list_elem_of_fmap).
      exists (N.of_nat i). split; [lia | done].
    - intros (j & Hj & ->). exists j. split; [done|].
      apply list_elem_of_fmap. exists (N.to_nat j). split; [lia|].
      apply elem_of_seq. lia. }
  assert (Harr : arrival = ideal_chunk cs B transfer count <$> idx).
  { unfold idx. rewrite <- list_fmap_compose.
    rewrite <- (list_fmap_id arrival) at 1. apply list_fmap_ext.
    intros i c Hc. simpl.
    destruct (proj1 (Hchunk c)) as (j & _ & ->); [|done].
    apply Hsub. by eapply list_elem_of_lookup_2. }
  assert (Hlt : ∀ j, j ∈ idx → j < count).
  { intros j (c & -> & Hc)%list_elem_of_fmap.
    destruct (proj1 (Hchunk c) (Hsub c Hc)) as (j & Hj & ->). done. }
  pose proof (receive_any_order cs B transfer count k Hcount idx source now st
                Hlt Hrecv Hdone) as Hfin.
  rewrite <- Harr in Hfin.
  split.
  - intros Hall. unfold DataExchange.getReceivedData. rewrite Hfin.
    destruct (decide (idx = [])) as [Hnil|Hne].
    + rewrite decide_False by naive_solver. simpl.
      destruct (decide (count = 0)) as [H0|H0].
      * destruct B; [done|]. simpl in Hpos. lia.
      * exfalso. assert (ideal_chunk cs B transfer count 0 ∈ arrival) as Hin.
        { apply Hall, Hchunk. exists 0. split; [lia | done]. }
        rewrite Harr, Hnil in Hin. by apply elem_of_nil in Hin.
    + rewrite decide_True.
      * simpl. apply take_ge. lia.
      * split; [|done]. apply (complete_arrival_spec count k Hcount).
        intros j Hj. unfold idx. apply list_elem_of_fmap.
        exists (ideal_chunk cs B transfer count j). split; [done|].
        apply Hall, Hchunk. by exists j.
  - intros c Hc Hnot. rewrite Hfin. rewrite decide_False; [done|].
    intros [Hfull _]. apply Hnot.
    apply Hchunk in Hc as (j & Hj & ->).
    rewrite (complete_arrival_spec count k Hcount) in Hfull.
    specialize (Hfull j Hj). rewrite Harr. by apply list_elem_of_fmap_2.
Qed.

Lemma chunks_in_any_order_witness :
  DataExchange.getReceivedData 9
    (DataExchange.receive_chunks
       [DataExchange.mkChunk 9 1 2 ["003"]%byte true;
        DataExchange.mkChunk 9 0 2 ["001"; "002"]%byte false;
        DataExchange.mkChunk 9 1 2 ["003"]%byte true] 1 0 receiver_example)
  = ["001"; "002"; "003"]%byte.
Proof.
  apply (chunks_in_any_order ["001"; "002"; "003"]%byte 2 9
           [DataExchange.mkChunk 9 0 2 ["001"; "002"]%byte false;
            DataExchange.mkChunk 9 1 2 ["003"]%byte true]);
    try reflexivity;
    intros c; rewrite !elem_of_cons, !elem_of_nil; naive_solver.
Defined.

(** ** DynamicNodeManager: additions, removals and maintenance *)

Section membership_more.
Import DynamicNodeManager.

Ltac simpl_dm :=
  cbn [with_registry with_node with_network with_topology fire node_
       networkManager_ topologyManager_ nodeRegistry_ onNodeAdded_ onNodeRemoved_
       onNodeFailed_ onNetworkRepaired_ fired obind].

Lemma validateNodeAddition_true id addr dm :
  validateNodeAddition id addr dm = true
  ↔ id ≠ 0 ∧ port addr ≠ 0 ∧ host addr ≠ ""%string ∧ id ≠ Node.getID (node_ dm).
Proof.
  unfold validateNodeAddition. repeat case_bool_decide; naive_solver.
Qed.

(** X19.  [DynamicNodeManager::addNode] succeeds exactly for a non-zero id
    other than the local one, with a non-empty host and a non-zero port,
    that neither the manager nor the topology knows.  It then records the
    node as Active with [lastSeen = joinTime] and no failure, registers it in
    the topology without any edge, adds it to the roster when fewer than
    [MAX_PEERS] peers are known, and fires the added callback.  A refused
    call changes nothing. *)
Theorem membership_addNode (id : N) (addr : NetworkAddress) (now : Z) (dm : t) :
  let res := addNode id addr now dm in
  (res.1 = true
     ↔ id ≠ 0 ∧ port addr ≠ 0 ∧ host addr ≠ ""%string
       ∧ id ≠ Node.getID (node_ dm)
       ∧ nodeRegistry_ dm !! id = None
       ∧ TopologyManager.nodeRegistry_ (topologyManager_ dm) !! id = None)
  ∧ (res.1 = false → res.2 = dm)
  ∧ (res.1 = true →
       nodeRegistry_ res.2 = <[id := mkInfo id addr ACTIVE now now 0]> (nodeRegistry_ dm)
       ∧ TopologyManager.nodeRegistry_ (topologyManager_ res.2)
         = <[id := addr]> (TopologyManager.nodeRegistry_ (topologyManager_ dm))
       ∧ TopologyManager.adjacencyList_ (topologyManager_ res.2)
         = <[id := ∅]> (TopologyManager.adjacencyList_ (topologyManager_ dm))
       ∧ node_ res.2
         = (if bool_decide (Node.getPeerCount (node_ dm) < MAX_PEERS)
            then (Node.addPeer (node_ dm) id addr).2 else node_ dm)
       ∧ networkManager_ res.2 = networkManager_ dm
       ∧ fired res.2
         = fired dm ++ (if onNodeAdded_ dm then [NodeAdded id addr] else [])).
Proof.
  cbn zeta. unfold addNode.
  destruct (validateNodeAddition id addr dm) eqn:Hv; cbn [negb].
  2:{ split_and!; try done. split; [done|]. intros (? & ? & ? & ? & _).
      assert (validateNodeAddition id addr dm = true)
        by (by apply validateNodeAddition_true). congruence. }
  apply validateNodeAddition_true in Hv as (H0 & Hp & Hh & Hs).
  case_bool_decide as Hreg.
  { split_and!; try done. split; [done|]. intros (_ & _ & _ & _ & Hn & _).
    rewrite Hn in Hreg. by destruct Hreg. }
  unfold TopologyManager.addNode.
  case_bool_decide as Htop; cbn [negb].
  { split_and!; try done. split; [done|]. intros (_ & _ & _ & _ & _ & Hn).
    rewrite Hn in Htop. by destruct Htop. }
  cbn [fst snd with_topology node_].
  assert (Hn1 : nodeRegistry_ dm !! id = None) by (by apply eq_None_not_Some).
  assert (Hn2 : TopologyManager.nodeRegistry_ (topologyManager_ dm) !! id = None)
    by (by apply eq_None_not_Some).
  destruct (bool_decide (Node.getPeerCount (node_ dm) < MAX_PEERS)) eqn:Hcap;
    (split_and!; [by split | done | intros _; by split_and!]).
Qed.

(** X20.  [updateNodeLastSeen] never refreshes a record: for a registered
    node it calls [resetFailureCount] while it owns [nodesMutex_], which asks
    for the mutex again, and for an unknown node it does nothing; so whenever
    it returns, the manager is as before. *)
Theorem updateNodeLastSeen_relocks (now : Z) (id : N) (dm : t) :
  (is_Some (nodeRegistry_ dm !! id) →
     updateNodeLastSeen now id dm = Faults relock_owned_mutex)
  ∧ (∀ dm', updateNodeLastSeen now id dm = Returns dm' → dm' = dm).
Proof.
  unfold updateNodeLastSeen, lock_guard. split.
  - intros [info ->]. done.
  - intros dm'. destruct (nodeRegistry_ dm !! id); [done|]. congruence.
Qed.

Lemma detectFailedNodes_active (dm : t) (now timeoutSeconds : Z) :
  (∃ id info, nodeRegistry_ dm !! id = Some info ∧ state info = ACTIVE) →
  detectFailedNodes now timeoutSeconds dm = Faults relock_owned_mutex.
Proof.
  intros (id & info & Hreg & Hact). unfold detectFailedNodes, sweep.
  rewrite sweep_fold_relocks; [done|].
  exists id, info. split; [|done].
  apply elem_of_keys_in_order. by eexists.
Qed.

(** X21.  [maintainNetworkIntegrity] does not get through when two or more
    nodes are registered in the topology (the connectivity check then fails
    and [repairTopology] re-locks its mutex) or when the manager holds an
    Active record (the sweep of [detectFailedNodes] re-locks [nodesMutex_]). *)
Theorem maintenance_blocks (now : Z) (dm : t) :
  keys_registered (topologyManager_ dm) →
  (2 ≤ size (TopologyManager.nodeRegistry_ (topologyManager_ dm)))%nat
  ∨ (∃ id info, nodeRegistry_ dm !! id = Some info ∧ state info = ACTIVE) →
  maintainNetworkIntegrity now dm = Faults relock_owned_mutex.
Proof.
  intros Hk Hcase. unfold maintainNetworkIntegrity.
  rewrite validateTopology_registered by done. cbn [obind].
  rewrite isTopologyConnected_counts_nodes. cbn [obind].
  case_bool_decide as Hsize; cbn [negb obind].
  - destruct Hcase as [Htwo|Hact]; [lia|].
    rewrite detectFailedNodes_active; [done|].
    destruct Hact as (id & info & ? & ?). by exists id, info.
  - by rewrite repairTopology_relocks.
Qed.

Lemma establishReplacementConnections_keeps (replacements : list N) (b : bool) (dm : t) :
  let dm' := (establishReplacementConnections replacements b dm).2 in
  topologyManager_ dm' = topologyManager_ dm
  ∧ nodeRegistry_ dm' = nodeRegistry_ dm
  ∧ networkManager_ dm' = networkManager_ dm
  ∧ fired dm' = fired dm
  ∧ onNetworkRepaired_ dm' = onNetworkRepaired_ dm.
Proof.
  revert b dm. induction replacements as [|id rest IH]; intros b dm; [done|].
  cbn [establishReplacementConnections]. case_bool_decide; [done|].
  case_bool_decide; [|apply IH].
  destruct (Node.addPeer (node_ dm) id _) as [added n].
  specialize (IH (if added && NetworkManager.connectToPeer
                        (TopologyManager.getNodeAddress id (topologyManager_ dm))
                        (networkManager_ dm) then true else b)
                 (with_node n dm)).
  cbn zeta in *. by destruct IH as (-> & -> & -> & -> & ->).
Qed.

Lemma repairNetworkAfterNodeRemoval_cases (removed : N) (dm : t) :
  keys_registered (topologyManager_ dm) →
  ((2 ≤ size (TopologyManager.nodeRegistry_ (topologyManager_ dm)))%nat →
     repairNetworkAfterNodeRemoval removed dm = Faults relock_owned_mutex)
  ∧ ((size (TopologyManager.nodeRegistry_ (topologyManager_ dm)) ≤ 1)%nat →
     ∃ dm', repairNetworkAfterNodeRemoval removed dm = Returns (true, dm')
            ∧ topologyManager_ dm' = topologyManager_ dm
            ∧ nodeRegistry_ dm' = nodeRegistry_ dm
            ∧ networkManager_ dm' = networkManager_ dm
            ∧ fired dm'
              = fired dm ++ (if onNetworkRepaired_ dm then [NetworkRepaired] else [])).
Proof.
  intros Hk. unfold repairNetworkAfterNodeRemoval.
  rewrite isTopologyConnected_counts_nodes. simpl_dm. split.
  - intros Htwo. rewrite bool_decide_eq_false_2 by lia. cbn [negb].
    by rewrite repairTopology_relocks.
  - intros Hone. rewrite bool_decide_eq_true_2 by done. cbn [negb]. simpl_dm.
    assert (Hsame : with_topology (topologyManager_ dm) dm = dm) by (by destruct dm).
    rewrite Hsame.
    unfold findReplacementConnections, TopologyManager.getAllNodeIDs, lock_guard.
    simpl_dm.
    match goal with |- context [match ?l with [] => dm | _ :: _ => ?b end] =>
      set (dm1 := match l with [] => dm | _ :: _ => b end) end.
    assert (Hdm1 : topologyManager_ dm1 = topologyManager_ dm
                   ∧ nodeRegistry_ dm1 = nodeRegistry_ dm
                   ∧ networkManager_ dm1 = networkManager_ dm
                   ∧ fired dm1 = fired dm
                   ∧ onNetworkRepaired_ dm1 = onNetworkRepaired_ dm).
    { unfold dm1. destruct (filter _ _) as [|x l]; [done|].
      apply establishReplacementConnections_keeps. }
    destruct Hdm1 as (Ht & Hr & Hn & Hf & Hcb).
    rewrite Ht, checkNetworkIntegrity_registered by done.
    rewrite bool_decide_eq_true_2 by done. simpl_dm.
    eexists. split; [done|]. simpl_dm. by rewrite Hr, Hn, Hf, Hcb.
Qed.

(** X22.  Removing a registered node, gracefully or forced, gets through
    only when at most one node is left in the topology: the record, the
    topology entry and the connection are then gone.  With two or more nodes
    left the connectivity check fails, [repairTopology] is called and re-locks
    its mutex. *)
Theorem removal_blocks_when_two_remain (id : N) (info : NodeInfo) (graceful : bool)
    (dm : t) :
  nodeRegistry_ dm !! id = Some info →
  keys_registered (topologyManager_ dm) →
  let remaining :=
    TopologyManager.nodeRegistry_
      (TopologyManager.removeNode id (topologyManager_ dm)).2 in
  ((2 ≤ size remaining)%nat →
     removeNode id graceful dm = Faults relock_owned_mutex)
  ∧ ((size remaining ≤ 1)%nat →
     ∃ dm', removeNode id graceful dm = Returns (true, dm')
            ∧ nodeRegistry_ dm' = delete id (nodeRegistry_ dm)
            ∧ topologyManager_ dm'
              = (TopologyManager.removeNode id (topologyManager_ dm)).2
            ∧ NetworkManager.activeConnections_ (networkManager_ dm')
              = NetworkManager.activeConnections_ (networkManager_ dm) ∖ {[id]}).
Proof.
  intros Hreg Hk. cbn zeta.
  set (tm' := (TopologyManager.removeNode id (topologyManager_ dm)).2).
  assert (Hk' : keys_registered tm') by (by apply keys_registered_removeNode).
  assert (Hconn : NetworkManager.activeConnections_
                    (NetworkManager.disconnectFromPeer id (networkManager_ dm)).2
                  = NetworkManager.activeConnections_ (networkManager_ dm) ∖ {[id]}).
  { unfold NetworkManager.disconnectFromPeer. case_bool_decide; [done|]. simpl.
    apply set_eq. intros x. set_solver. }
  assert (Hboth : ∀ final notify e,
    ((2 ≤ size (TopologyManager.nodeRegistry_ tm'))%nat →
       remove_with final notify e false id dm = Faults relock_owned_mutex)
    ∧ ((size (TopologyManager.nodeRegistry_ tm') ≤ 1)%nat →
       ∃ dm', remove_with final notify e false id dm = Returns (true, dm')
              ∧ nodeRegistry_ dm' = delete id (nodeRegistry_ dm)
              ∧ topologyManager_ dm' = tm'
              ∧ NetworkManager.activeConnections_ (networkManager_ dm')
                = NetworkManager.activeConnections_ (networkManager_ dm) ∖ {[id]})).
  { intros final notify e. unfold remove_with, lock_guard. rewrite Hreg.
    simpl_dm. fold tm'.
    match goal with |- context [repairNetworkAfterNodeRemoval id ?d] =>
      set (dm0 := d) end.
    destruct (repairNetworkAfterNodeRemoval_cases id dm0 Hk') as [Htwo Hone].
    split.
    - intros H. change (topologyManager_ dm0) with tm' in Htwo.
      by rewrite Htwo.
    - intros H. change (topologyManager_ dm0) with tm' in Hone.
      destruct (Hone H) as (dm' & -> & Ht & Hr & Hn & _). simpl_dm.
      exists dm'. split_and!; [done | | done |].
      + rewrite Hr. unfold dm0. simpl_dm. by rewrite delete_insert_eq.
      + rewrite Hn. unfold dm0. simpl_dm. exact Hconn. }
  destruct graceful; apply Hboth.
Qed.

Lemma membership_addNode_witness :
  nodeRegistry_ sweep_example
  = {[ 2 := mkInfo 2 (mkAddress "10.0.0.2" 8888) ACTIVE 0 0 0 ]}.
Proof.
  destruct (membership_addNode 2 (mkAddress "10.0.0.2" 8888) 0
              (mk (Node.mk 1 (mkAddress "10.0.0.1" 8888) [] [] 0)
                  (NetworkManager.mk (λ _, true) ∅ ∅ [] [] 0)
                  (TopologyManager.mk 1 ∅ ∅ []) ∅ true true true true []))
    as (_ & _ & H).
  destruct (H eq_refl) as (Hr & _). exact Hr.
Defined.

Lemma updateNodeLastSeen_relocks_witness :
  updateNodeLastSeen (seconds 100) 2 sweep_example = Faults relock_owned_mutex.
Proof.
  destruct (updateNodeLastSeen_relocks (seconds 100) 2 sweep_example) as [H _].
  apply H. by eexists.
Defined.

Lemma maintenance_blocks_witness :
  maintainNetworkIntegrity (seconds 100) sweep_example = Faults relock_owned_mutex.
Proof.
  apply maintenance_blocks.
  - exact (keys_registered_addNode (new_topology 1) 2 (mkAddress "10.0.0.2" 8888)
             (keys_registered_new_topology 1)).
  - right. by exists 2, (mkInfo 2 (mkAddress "10.0.0.2" 8888) ACTIVE 0 0 0).
Defined.

Lemma removal_blocks_when_two_remain_witness :
  ∃ dm', removeNode 2 false sweep_example = Returns (true, dm')
         ∧ nodeRegistry_ dm' = delete 2 (nodeRegistry_ sweep_example).
Proof.
  destruct (removal_blocks_when_two_remain 2
              (mkInfo 2 (mkAddress "10.0.0.2" 8888) ACTIVE 0 0 0) false
              sweep_example eq_refl) as [_ H].
  - exact (keys_registered_addNode (new_topology 1) 2 (mkAddress "10.0.0.2" 8888)
             (keys_registered_new_topology 1)).
  - destruct H as (dm' & H1 & H2 & _); [vm_compute; lia|]. by exists dm'.
Defined.

End membership_more.


(** ** The roster invariant across the components *)

Section roster_writers.

Lemma roster_ok_establish (replacements : list N) (b : bool) (dm : DynamicNodeManager.t) :
  roster_ok (DynamicNodeManager.node_ dm) →
  roster_ok (DynamicNodeManager.node_
               (DynamicNodeManager.establishReplacementConnections replacements b dm).2).
Proof.
  revert b dm. induction replacements as [|id rest IH]; intros b dm Hok; [done|].
  cbn [DynamicNodeManager.establishReplacementConnections].
  case_bool_decide; [done|]. case_bool_decide; [|by apply IH].
  pose proof (roster_ok_addPeer (DynamicNodeManager.node_ dm) id
                (TopologyManager.getNodeAddress id (DynamicNodeManager.topologyManager_ dm))
                Hok) as Hadd.
  destruct (Node.addPeer _ id _) as [added n]. by apply IH.
Qed.

Lemma roster_ok_repair (removed : N) (dm : DynamicNodeManager.t)
    (res : bool * DynamicNodeManager.t) :
  roster_ok (DynamicNodeManager.node_ dm) →
  DynamicNodeManager.repairNetworkAfterNodeRemoval removed dm = Returns res →
  roster_ok (DynamicNodeManager.node_ res.2).
Proof.
  intros Hok. unfold DynamicNodeManager.repairNetworkAfterNodeRemoval.
  destruct (TopologyManager.isTopologyConnected false _) as [connected|]; [|done].
  cbn [obind].
  destruct (if negb connected then _ else _) as [tm|]; [|done].
  cbn [obind]. unfold DynamicNodeManager.findReplacementConnections.
  unfold TopologyManager.getAllNodeIDs, lock_guard. cbn [obind].
  match goal with
  | |- context [TopologyManager.checkNetworkIntegrity
                  (DynamicNodeManager.topologyManager_ ?d)] => set (dm1 := d)
  end.
  assert (Hdm1 : roster_ok (DynamicNodeManager.node_ dm1)).
  { unfold dm1. destruct (filter _ _) as [|x l]; [done|].
    by apply roster_ok_establish. }
  destruct (TopologyManager.checkNetworkIntegrity _) as [[ok tm2]|]; [|done].
  cbn [obind]. intros [= <-]. simpl. by destruct ok.
Qed.

Lemma roster_ok_connect_more (allNodes : list N) (dm : DynamicNodeManager.t) :
  roster_ok (DynamicNodeManager.node_ dm) →
  roster_ok (DynamicNodeManager.node_ (DynamicNodeManager.connect_more allNodes dm)).
Proof.
  revert dm. induction allNodes as [|id rest IH]; intros dm Hok; [done|].
  cbn [DynamicNodeManager.connect_more].
  case_bool_decide; [by apply IH|].
  destruct (Node.hasPeer _ id); [by apply IH|].
  case_bool_decide; [done|]. case_bool_decide; [|by apply IH].
  apply IH. by apply roster_ok_addPeer.
Qed.

Lemma roster_ok_fold_removePeer (f : Node.t → N → bool) (l : list N) (n : Node.t) :
  roster_ok n →
  roster_ok (foldl (λ n id, if f n id then n else (Node.removePeer n id).2) n l).
Proof.
  revert n. induction l as [|id l IH]; intros n Hok; [done|].
  cbn [foldl]. apply IH. destruct (f n id); [done|]. by apply roster_ok_removePeer.
Qed.

(** X1.  The roster stays well formed (no peer twice, as many addresses as
    peers, at most [MAX_PEERS] peers) under [addPeer] and [removePeer] and
    under every operation that writes it through them: adding and removing
    a node in the membership manager, [ensureConnectivity], the handlers of
    leave notifications and topology updates, and [acceptRegistration]. *)
Theorem roster_invariant_kept :
  (∀ n id addr, roster_ok n →
     roster_ok (Node.addPeer n id addr).2 ∧ roster_ok (Node.removePeer n id).2)
  ∧ (∀ dm id addr now, roster_ok (DynamicNodeManager.node_ dm) →
       roster_ok (DynamicNodeManager.node_ (DynamicNodeManager.addNode id addr now dm).2))
  ∧ (∀ dm id graceful res, roster_ok (DynamicNodeManager.node_ dm) →
       DynamicNodeManager.removeNode id graceful dm = Returns res →
       roster_ok (DynamicNodeManager.node_ res.2))
  ∧ (∀ dm res, roster_ok (DynamicNodeManager.node_ dm) →
       DynamicNodeManager.ensureConnectivity dm = Returns res →
       roster_ok (DynamicNodeManager.node_ res.2))
  ∧ (∀ h message nowMs, roster_ok (MessageHandler.node_ h) →
       roster_ok (MessageHandler.node_
                    (MessageHandler.handleLeaveNotification message nowMs h)))
  ∧ (∀ h message h', roster_ok (MessageHandler.node_ h) →
       MessageHandler.handleTopologyUpdate message h = Returns h' →
       roster_ok (MessageHandler.node_ h'))
  ∧ (∀ nr id addr, roster_ok (NodeRegistration.node_ nr) →
       roster_ok (NodeRegistration.node_ (NodeRegistration.acceptRegistration id addr nr).2)).
Proof.
  split_and!.
  - intros n id addr Hok. split; [by apply roster_ok_addPeer | by apply roster_ok_removePeer].
  - intros dm id addr now Hok. unfold DynamicNodeManager.addNode.
    destruct (DynamicNodeManager.validateNodeAddition id addr dm); [|done].
    cbn [negb]. case_bool_decide; [done|].
    destruct (TopologyManager.addNode id addr _) as [[] tm]; [|done]. cbn [negb].
    cbn [DynamicNodeManager.with_topology DynamicNodeManager.node_].
    case_bool_decide; simpl; [by apply roster_ok_addPeer | done].
  - intros dm id graceful res Hok Hrun.
    assert (Hboth : ∀ final notify e,
      DynamicNodeManager.remove_with final notify e false id dm = Returns res →
      roster_ok (DynamicNodeManager.node_ res.2)).
    { intros final notify e. unfold DynamicNodeManager.remove_with, lock_guard.
      destruct (DynamicNodeManager.nodeRegistry_ dm !! id) as [info|];
        [|by intros [= <-]].
      match goal with |- context [DynamicNodeManager.repairNetworkAfterNodeRemoval id ?d] =>
        set (dm0 := d) end.
      destruct (DynamicNodeManager.repairNetworkAfterNodeRemoval id dm0)
        as [repaired|] eqn:E; [|done].
      cbn [obind]. intros [= <-]. cbn [snd].
      eapply roster_ok_repair; [|exact E].
      unfold dm0. simpl. by apply roster_ok_removePeer. }
    unfold DynamicNodeManager.removeNode in Hrun. destruct graceful; by eapply Hboth.
  - intros dm res Hok. unfold DynamicNodeManager.ensureConnectivity.
    case_bool_decide.
    + unfold TopologyManager.getAllNodeIDs, lock_guard. cbn [obind].
      destruct (TopologyManager.isTopologyConnected false _) as [c|]; [|done].
      cbn [obind]. intros [= <-]. simpl. by apply roster_ok_connect_more.
    + cbn [obind].
      destruct (TopologyManager.isTopologyConnected false _) as [c|]; [|done].
      cbn [obind]. by intros [= <-].
  - intros h message nowMs Hok. unfold MessageHandler.handleLeaveNotification.
    simpl. by apply roster_ok_removePeer.
  - intros h message h' Hok. unfold MessageHandler.handleTopologyUpdate.
    destruct (MessageHandler.deserializeNodeList _) as [updated|]; [|done].
    cbn [obind].
    destruct (TopologyManager.checkNetworkIntegrity _) as [[ok tm]|]; [|done].
    cbn [obind]. intros [= <-]. simpl.
    apply (roster_ok_fold_removePeer
             (λ _ id, TopologyManager.nodeExists id (MessageHandler.topologyManager_ h))).
    done.
  - intros nr id addr Hok. unfold NodeRegistration.acceptRegistration.
    destruct (TopologyManager.addNode id addr _) as [[] tm]; [|done]. cbn [negb].
    pose proof (roster_ok_addPeer (NodeRegistration.node_ nr) id addr Hok) as Hadd.
    destruct (Node.addPeer _ id addr) as [[] n]; cbn [negb]; done.
Qed.

Lemma roster_invariant_kept_witness :
  roster_ok (Node.addPeer node_example 4 (mkAddress "10.0.0.4" 8888)).2
  ∧ roster_ok (Node.removePeer node_example 4).2.
Proof.
  destruct roster_invariant_kept as (H & _).
  apply H, roster_ok_node_example.
Defined.

End roster_writers.


(** ** NodeRegistration: accepting a node *)

Section registration.
Import NodeRegistration.

(** X23.  [acceptRegistration] is all or nothing when no edge points at the
    new node: it succeeds exactly when the node is unregistered in the
    topology, absent from the roster, and the roster has room; then the node
    is registered with its address, appended to the roster, and its pending
    request is marked REGISTERED.  When it fails - also when [addPeer]
    refuses after [addNode] succeeded - the whole state is as before. *)
Theorem acceptRegistration_all_or_nothing (id : N) (addr : NetworkAddress) (nr : t) :
  keys_registered (topologyManager_ nr) →
  (∀ a, ¬ edge (TopologyManager.adjacencyList_ (topologyManager_ nr)) a id) →
  roster_ok (node_ nr) →
  let res := acceptRegistration id addr nr in
  (res.1 = true
     ↔ TopologyManager.nodeRegistry_ (topologyManager_ nr) !! id = None
       ∧ Node.hasPeer (node_ nr) id = false
       ∧ Node.getPeerCount (node_ nr) < MAX_PEERS)
  ∧ (res.1 = false → res.2 = nr)
  ∧ (res.1 = true →
       TopologyManager.nodeExists id (topologyManager_ res.2) = true
       ∧ TopologyManager.getNodeAddress id (topologyManager_ res.2) = addr
       ∧ Node.hasPeer (node_ res.2) id = true
       ∧ roster (node_ res.2) = roster (node_ nr) ++ [(id, addr)]
       ∧ pendingRegistrations_ res.2
         = alter (with_status REGISTERED) id (pendingRegistrations_ nr)).
Proof.
  intros Hk Hno (Hnd & Hlen & Hmax). cbn zeta. unfold acceptRegistration.
  destruct (TopologyManager.nodeRegistry_ (topologyManager_ nr) !! id) as [known|] eqn:Hreg.
  - unfold TopologyManager.addNode. rewrite Hreg.
    rewrite bool_decide_eq_true_2 by (by eexists). cbn [negb fst snd].
    split_and!; try done. split; [done | by intros [? _]].
  - destruct (removeNode_after_addNode _ id addr Hk Hreg Hno) as [Hadd Hback].
    rewrite Hadd in Hback. rewrite Hadd. cbn [negb fst snd] in *.
    unfold Node.hasPeer, Node.getPeerCount.
    destruct (addPeer_cases (node_ nr) id addr) as [[Hc ->]|(Hin & Hlt & ->)];
      cbn [negb fst snd].
    + rewrite Hback. cbn [snd]. split_and!; try done.
      * split; [done|]. intros (_ & Hp%bool_decide_eq_false & Hcount).
        destruct Hc; [done | lia].
      * intros _. by destruct nr.
    + split_and!; try done.
      * split; [|done]. intros _. split_and!; try done.
        by apply bool_decide_eq_false_2.
      * intros _. cbn [topologyManager_ node_ pendingRegistrations_].
        split_and!; try done.
        -- unfold TopologyManager.nodeExists. simpl. rewrite lookup_insert_eq.
           by apply bool_decide_eq_true_2.
        -- unfold TopologyManager.getNodeAddress. simpl. by rewrite lookup_insert_eq.
        -- apply bool_decide_eq_true_2. simpl. set_solver.
        -- unfold roster. simpl. rewrite zip_with_app; [done | lia].
Qed.

Lemma acceptRegistration_all_or_nothing_witness :
  TopologyManager.nodeExists 4
    (topologyManager_
       (acceptRegistration 4 (mkAddress "10.0.0.4" 8888) registrar_example).2)
  = true.
Proof.
  destruct (acceptRegistration_all_or_nothing 4 (mkAddress "10.0.0.4" 8888)
              registrar_example) as (_ & _ & H).
  - apply keys_registered_new_topology.
  - intros a. apply edgeless_new_topology.
  - apply roster_ok_node_example.
  - destruct (H eq_refl) as (Hr & _). exact Hr.
Defined.

End registration.


(** ** NodeDiscovery: finding peers in the topology *)

Section discovery.
Import NodeDiscovery.

Lemma record_discovery_keeps nowAt nd id :
  node_ (record_discovery nowAt nd id) = node_ nd
  ∧ topologyManager_ (record_discovery nowAt nd id) = topologyManager_ nd
  ∧ onPeerDiscovered_ (record_discovery nowAt nd id) = onPeerDiscovered_ nd.
Proof. done. Qed.

Lemma discoverable_record nowAt nd id x :
  discoverable (record_discovery nowAt nd id) x ↔ discoverable nd x.
Proof. done. Qed.

Lemma discover_loop_spec (known : list N) (maxPeers : Z) (nowAt : N → Z)
    (acc : list N) (nd : t) :
  N.of_nat (length acc + length known) < 2 ^ 31 →
  acc = [] ∨ (Z.of_nat (length acc) < maxPeers)%Z →
  discover_loop known maxPeers nowAt acc nd
  = let found :=
      take (Z.to_nat (Z.max 1 (maxPeers - Z.of_nat (length acc))))
        (filter (discoverable nd) known) in
    (acc ++ found, foldl (record_discovery nowAt) nd found).
Proof.
  revert acc nd. induction known as [|id known IH]; intros acc nd Hsize Hacc.
  - cbn zeta. cbn [discover_loop]. rewrite filter_nil, take_nil, app_nil_r. done.
  - cbn [discover_loop]. cbn [length] in Hsize.
    assert (Hneed : ∃ need, Z.to_nat (Z.max 1 (maxPeers - Z.of_nat (length acc)))
                            = S need).
    { exists (Nat.pred (Z.to_nat (Z.max 1 (maxPeers - Z.of_nat (length acc))))). lia. }
    destruct Hneed as [need Hneed].
    destruct (decide (discoverable nd id)) as [Hd|Hd].
    + destruct Hd as (H1 & H2 & H3).
      rewrite (bool_decide_eq_false_2 (id = _)) by done.
      rewrite (bool_decide_eq_false_2 (id ∈ _)) by done.
      rewrite (bool_decide_eq_true_2 (port _ ≠ 0)) by done.
      rewrite filter_cons_True by done. cbn zeta.
      rewrite Hneed. cbn [take foldl].
      fold (record_discovery nowAt nd id).
      rewrite length_app. cbn [length].
      rewrite static_cast_int_small by lia.
      case_bool_decide as Hcap.
      * assert (need = O) as -> by lia. rewrite take_0. done.
      * rewrite IH; [|rewrite length_app; simpl; lia|right; rewrite length_app; simpl; lia].
        cbn zeta. rewrite length_app. cbn [length].
        replace (Z.to_nat (Z.max 1 (maxPeers - Z.of_nat (length acc + 1)))) with need
          by lia.
        rewrite <- app_assoc. cbn [app].
        rewrite (list_filter_iff _ _ _ (discoverable_record nowAt nd id)). done.
    + rewrite filter_cons_False by done.
      unfold discoverable in Hd.
      repeat case_bool_decide; try (exfalso; naive_solver);
        (rewrite IH; [done | lia | done]).
Qed.


Lemma foldl_record_fields nowAt (l : list N) nd :
  let nd' := foldl (record_discovery nowAt) nd l in
  node_ nd' = node_ nd ∧ topologyManager_ nd' = topologyManager_ nd
  ∧ networkManager_ nd' = networkManager_ nd
  ∧ fired nd' = fired nd ++
      (if onPeerDiscovered_ nd
       then (λ id, PeerDiscovered id
                     (TopologyManager.getNodeAddress id (topologyManager_ nd))) <$> l
       else [])
  ∧ (∀ id, discoveredNodes_ nd' !! id
           = if bool_decide (id ∈ l)
             then Some (TopologyManager.getNodeAddress id (topologyManager_ nd))
             else discoveredNodes_ nd !! id)
  ∧ (∀ id, discoveryTimestamps_ nd' !! id
           = if bool_decide (id ∈ l) then Some (nowAt id)
             else discoveryTimestamps_ nd !! id).
Proof.
  cbn zeta. induction l as [|x l IH] using rev_ind.
  - simpl. split_and!; try done. destruct (onPeerDiscovered_ nd); by rewrite app_nil_r.
  - rewrite foldl_app. cbn [foldl].
    destruct IH as (H1 & H2 & H3 & H4 & H5 & H6).
    set (mid := foldl (record_discovery nowAt) nd l) in *.
    unfold record_discovery, notify, addDiscoveredNode.
    cbn [node_ topologyManager_ networkManager_ fired discoveredNodes_
         discoveryTimestamps_ onPeerDiscovered_].
    rewrite H2, H4.
    assert (Hon : onPeerDiscovered_ mid = onPeerDiscovered_ nd).
    { unfold mid. clear. induction l as [|y l IH] using rev_ind; [done|].
      rewrite foldl_app. simpl. exact IH. }
    rewrite Hon.
    split_and!; try done.
    + destruct (onPeerDiscovered_ nd).
      * by rewrite fmap_app, app_assoc.
      * by rewrite !app_nil_r.
    + intros id. destruct (decide (id = x)) as [->|Hne].
      * rewrite lookup_insert_eq, bool_decide_eq_true_2; [done | set_solver].
      * rewrite lookup_insert_ne, H5 by done.
        apply (f_equal (λ b : bool, if b then _ else _)).
        apply bool_decide_ext. set_solver.
    + intros id. destruct (decide (id = x)) as [->|Hne].
      * rewrite lookup_insert_eq, bool_decide_eq_true_2; [done | set_solver].
      * rewrite lookup_insert_ne, H6 by done.
        apply (f_equal (λ b : bool, if b then _ else _)).
        apply bool_decide_ext. set_solver.
Qed.

Lemma discoverPeers_run (maxPeers : Z) (nowAt : N → Z) (nd : t) :
  N.of_nat (size (TopologyManager.nodeRegistry_ (topologyManager_ nd))) < 2 ^ 31 →
  discoverPeers maxPeers nowAt nd
  = let found :=
      take (Z.to_nat (Z.max 1 maxPeers))
        (filter (discoverable nd)
           (keys_in_order (TopologyManager.nodeRegistry_ (topologyManager_ nd)))) in
    Returns (found, foldl (record_discovery nowAt) nd found).
Proof.
  intros Hsize. unfold discoverPeers, TopologyManager.getAllNodeIDs, lock_guard.
  cbn [obind]. rewrite discover_loop_spec.
  - cbn zeta. cbn [length app]. by rewrite Z.sub_0_r.
  - cbn [length]. unfold keys_in_order.
    rewrite length_set_in_order, size_dom. simpl. lia.
  - by left.
Qed.

(** X24.  [discoverPeers] of [NodeDiscovery] returns, in ascending order of
    id, the first [max 1 maxPeers] registered nodes that are not the local
    node, not yet peers, and have a non-zero port: the cap is tested only
    after a node has been taken, so a cap of zero or less still yields one
    node.  Each returned node is recorded with its address and the time of
    its discovery and reported once to the callback, if one is installed;
    other entries, the roster and the topology are untouched. *)
Theorem discovery_takes_new_peers (maxPeers : Z) (nowAt : N → Z) (nd : t) :
  N.of_nat (size (TopologyManager.nodeRegistry_ (topologyManager_ nd))) < 2 ^ 31 →
  ∃ found nd',
    discoverPeers maxPeers nowAt nd = Returns (found, nd')
    ∧ found
      = take (Z.to_nat (Z.max 1 maxPeers))
          (filter (discoverable nd)
             (keys_in_order (TopologyManager.nodeRegistry_ (topologyManager_ nd))))
    ∧ NoDup found
    ∧ (Z.of_nat (length found) ≤ Z.max 1 maxPeers)%Z
    ∧ (∀ id, id ∈ found →
         TopologyManager.nodeExists id (topologyManager_ nd) = true
         ∧ discoverable nd id)
    ∧ ((Z.of_nat (length found) < Z.max 1 maxPeers)%Z →
       ∀ id, TopologyManager.nodeExists id (topologyManager_ nd) = true →
             discoverable nd id → id ∈ found)
    ∧ (found = [] →
       ∀ id, TopologyManager.nodeExists id (topologyManager_ nd) = true →
             ¬ discoverable nd id)
    ∧ (∀ id, id ∈ found →
         discoveredNodes_ nd' !! id
         = Some (TopologyManager.getNodeAddress id (topologyManager_ nd))
         ∧ discoveryTimestamps_ nd' !! id = Some (nowAt id))
    ∧ (∀ id, id ∉ found →
         discoveredNodes_ nd' !! id = discoveredNodes_ nd !! id
         ∧ discoveryTimestamps_ nd' !! id = discoveryTimestamps_ nd !! id)
    ∧ fired nd' = fired nd ++
        (if onPeerDiscovered_ nd
         then (λ id, PeerDiscovered id
                       (TopologyManager.getNodeAddress id (topologyManager_ nd)))
              <$> found
         else [])
    ∧ node_ nd' = node_ nd ∧ topologyManager_ nd' = topologyManager_ nd
    ∧ networkManager_ nd' = networkManager_ nd.
Proof.
  intros Hsize. rewrite discoverPeers_run by done. cbn zeta.
  set (reg := TopologyManager.nodeRegistry_ (topologyManager_ nd)) in *.
  set (all := filter (discoverable nd) (keys_in_order reg)).
  set (found := take (Z.to_nat (Z.max 1 maxPeers)) all).
  destruct (foldl_record_fields nowAt found nd) as (H1 & H2 & H3 & H4 & H5 & H6).
  assert (Hall : ∀ id, id ∈ all ↔ discoverable nd id ∧ is_Some (reg !! id)).
  { intros id. unfold all. rewrite list_elem_of_filter, elem_of_keys_in_order. done. }
  assert (Hnd : NoDup all).
  { apply NoDup_filter, NoDup_set_in_order. }
  assert (Hex : ∀ id, TopologyManager.nodeExists id (topologyManager_ nd) = true
                      ↔ is_Some (reg !! id)).
  { intros id. unfold TopologyManager.nodeExists. by rewrite bool_decide_eq_true. }
  exists found, (foldl (record_discovery nowAt) nd found).
  split_and!; try done.
  - eapply sublist_NoDup; [exact Hnd | apply sublist_take].
  - unfold found. rewrite length_take. lia.
  - intros id Hin. apply (subseteq_take _ all), Hall in Hin. rewrite Hex. tauto.
  - intros Hlt id Hreg Hd. unfold found in *. rewrite length_take in Hlt.
    rewrite take_ge by lia. apply Hall. rewrite <- Hex. done.
  - intros Hnil id Hreg Hd.
    assert (id ∈ all) as Hin by (apply Hall; rewrite <- Hex; done).
    unfold found in Hnil. destruct all as [|a all']; [by apply elem_of_nil in Hin|].
    replace (Z.to_nat (Z.max 1 maxPeers)) with (S (Nat.pred (Z.to_nat (Z.max 1 maxPeers))))
      in Hnil by lia.
    done.
  - intros id Hin. rewrite H5, H6, !bool_decide_eq_true_2 by done. done.
  - intros id Hin. rewrite H5, H6, !bool_decide_eq_false_2 by done. done.
Qed.

Lemma discovery_takes_new_peers_witness :
  ∃ found nd',
    discoverPeers 0 (λ _, 0%Z) discovery_example = Returns (found, nd')
    ∧ NoDup found.
Proof.
  destruct (discovery_takes_new_peers 0 (λ _, 0%Z) discovery_example)
    as (found & nd' & H1 & _ & H2 & _).
  - vm_compute. reflexivity.
  - exists found, nd'. exact (conj H1 H2).
Defined.

End discovery.


(** ** MessageRouter: the routing table *)

Section routing_table.
Import MessageRouter.

Lemma route_of_step nowAt r table x :
  (if bool_decide (x = Node.getID (node_ r)) then table
   else
     let path := TopologyManager.findPath (topologyManager_ r) (Node.getID (node_ r)) x in
     match path with
     | _ :: nextHop :: _ =>
         mkTable (<[x := nextHop]> (routingTable_ table))
           (<[x := (static_cast_int (N.of_nat (length path)) - 1)%Z]> (hopCounts_ table))
           (<[x := nowAt x]> (routeTimestamps_ table))
     | _ => table
     end)
  = match route_of r x with
    | Some (hop, path) =>
        mkTable (<[x := hop]> (routingTable_ table))
          (<[x := (static_cast_int (N.of_nat (length path)) - 1)%Z]> (hopCounts_ table))
          (<[x := nowAt x]> (routeTimestamps_ table))
    | None => table
    end.
Proof.
  unfold route_of, computeShortestPath. case_bool_decide; [done|]. cbn zeta.
  by destruct (TopologyManager.findPath _ _ _) as [|a [|b p]].
Qed.

Lemma updateRoutingTable_run nowAt r table :
  ∃ table', updateRoutingTable nowAt r table = Returns table' ∧
    ∀ target,
      let known := TopologyManager.nodeExists target (topologyManager_ r) in
      routingTable_ table' !! target
        = (if known then fst <$> route_of r target else None)
      ∧ hopCounts_ table' !! target
        = (if known
           then (λ e, static_cast_int (N.of_nat (length e.2)) - 1)%Z <$> route_of r target
           else None)
      ∧ routeTimestamps_ table' !! target
        = (if known && bool_decide (is_Some (route_of r target))
           then Some (nowAt target) else routeTimestamps_ table !! target).
Proof.
  unfold updateRoutingTable, TopologyManager.getAllNodeIDs, lock_guard. cbn [obind].
  eexists. split; [done|]. intros target. cbn zeta.
  unfold TopologyManager.nodeExists.
  set (reg := TopologyManager.nodeRegistry_ (topologyManager_ r)).
  assert (Hk : ∀ b : bool, bool_decide (is_Some (reg !! target)) = b
               → bool_decide (target ∈ keys_in_order reg) = b).
  { intros b <-. apply bool_decide_ext. apply elem_of_keys_in_order. }
  rewrite <- (Hk _ eq_refl). clear Hk.
  set (init := mkTable ∅ ∅ (routeTimestamps_ table)).
  match goal with |- context [foldl ?f] => set (F := f) end.
  assert (HF : ∀ tb x, F tb x
                = match route_of r x with
                  | Some (hop, path) =>
                      mkTable (<[x := hop]> (routingTable_ tb))
                        (<[x := (static_cast_int (N.of_nat (length path)) - 1)%Z]>
                           (hopCounts_ tb))
                        (<[x := nowAt x]> (routeTimestamps_ tb))
                  | None => tb
                  end).
  { intros tb x. apply route_of_step. }
  clearbody F.
  assert (Hi : routingTable_ init !! target = None ∧ hopCounts_ init !! target = None
               ∧ routeTimestamps_ init !! target = routeTimestamps_ table !! target).
  { unfold init. cbn [routingTable_ hopCounts_ routeTimestamps_].
    by rewrite !lookup_empty. }
  generalize dependent init. generalize (keys_in_order reg) as l.
  induction l as [|x l IH] using rev_ind; intros init (I1 & I2 & I3).
  - cbn [foldl]. rewrite bool_decide_eq_false_2 by apply not_elem_of_nil. done.
  - rewrite foldl_app. cbn [foldl].
    specialize (IH init (conj I1 (conj I2 I3))).
    set (mid := foldl F init l) in *.
    rewrite HF.
    destruct IH as (H1 & H2 & H3).
    destruct (decide (target = x)) as [->|Hne].
    + rewrite (bool_decide_eq_true_2 (x ∈ l ++ [x])) by set_solver.
      destruct (route_of r x) as [[hop path]|] eqn:Hroute.
      * cbn [routingTable_ hopCounts_ routeTimestamps_].
        rewrite !lookup_insert_eq. done.
      * rewrite H1, H2, H3. by destruct (bool_decide (x ∈ l)).
    + assert (He : bool_decide (target ∈ l ++ [x]) = bool_decide (target ∈ l)).
      { apply bool_decide_ext. set_solver. }
      rewrite He.
      destruct (route_of r x) as [[hop path]|]; [|done].
      cbn [routingTable_ hopCounts_ routeTimestamps_].
      rewrite !lookup_insert_ne by done. done.
Qed.

Lemma route_of_reach r target hop path :
  route_of r target = Some (hop, path) →
  target ≠ Node.getID (node_ r)
  ∧ path = computeShortestPath r target
  ∧ path !! 1%nat = Some hop
  ∧ edge (TopologyManager.adjacencyList_ (topologyManager_ r)) (Node.getID (node_ r)) hop
  ∧ path_between (TopologyManager.adjacencyList_ (topologyManager_ r))
      (Node.getID (node_ r)) target path
  ∧ ∀ m, reach (TopologyManager.adjacencyList_ (topologyManager_ r))
           (Node.getID (node_ r)) m target → (length path ≤ S m)%nat.
Proof.
  unfold route_of, computeShortestPath, TopologyManager.findPath.
  case_bool_decide as Hself; [done|].
  rewrite bool_decide_eq_false_2 by done. cbn zeta.
  destruct (findPath_run_spec (topologyManager_ r) (Node.getID (node_ r)) target)
    as (p & -> & Hpost); [done|]. cbn [default].
  destruct Hpost as [[-> _]|[Hpath Hmin]]; [done|].
  destruct p as [|a [|b p]]; [done|done|]. cbn [lookup list_lookup mbind option_bind].
  intros [= <- <-]. split_and!; try done.
  destruct Hpath as ((He & _) & Hh & _). simpl in Hh. by simplify_eq.
Qed.

Lemma route_of_None r target :
  target ≠ Node.getID (node_ r) → route_of r target = None →
  ∀ m, ¬ reach (TopologyManager.adjacencyList_ (topologyManager_ r))
           (Node.getID (node_ r)) m target.
Proof.
  unfold route_of, computeShortestPath, TopologyManager.findPath. intros Hself.
  rewrite bool_decide_eq_false_2 by done.
  rewrite bool_decide_eq_false_2 by done. cbn zeta.
  destruct (findPath_run_spec (topologyManager_ r) (Node.getID (node_ r)) target)
    as (p & -> & Hpost); [done|]. cbn [default].
  destruct Hpost as [[-> Hno]|[(Hp & Hh & Hl) Hmin]]; [done|].
  destruct p as [|a [|b p]]; [done| |done].
  simpl in *. by simplify_eq.
Qed.

(** X25.  After [updateRoutingTable] a target has a routing entry exactly
    when it is registered, is not the local node, and can be reached from the
    local node through the adjacency relation.  The entry is the second node
    of the breadth-first path, a neighbour of the local node, and it is what
    [getNextHop] answers; the hop count is the length of that path less one,
    which no walk to the target undercuts.  Route timestamps of targets
    without an entry are not cleared. *)
Theorem routing_table_after_update (nowAt : N → Z) (r : t) (table : RoutingTable) :
  let adj := TopologyManager.adjacencyList_ (topologyManager_ r) in
  let self := Node.getID (node_ r) in
  ∃ table',
    updateRoutingTable nowAt r table = Returns table'
    ∧ ∀ target,
        (is_Some (routingTable_ table' !! target)
         ↔ TopologyManager.nodeExists target (topologyManager_ r) = true
           ∧ target ≠ self ∧ ∃ m, reach adj self m target)
        ∧ (∀ hop, routingTable_ table' !! target = Some hop →
             edge adj self hop
             ∧ computeShortestPath r target !! 1%nat = Some hop
             ∧ getNextHop r table' target = hop
             ∧ hopCounts_ table' !! target
               = Some (static_cast_int
                         (N.of_nat (length (computeShortestPath r target))) - 1)%Z
             ∧ (∀ m, reach adj self m target →
                     (length (computeShortestPath r target) - 1 ≤ m)%nat)
             ∧ routeTimestamps_ table' !! target = Some (nowAt target))
        ∧ (routingTable_ table' !! target = None →
             hopCounts_ table' !! target = None
             ∧ routeTimestamps_ table' !! target = routeTimestamps_ table !! target).
Proof.
  cbn zeta. destruct (updateRoutingTable_run nowAt r table) as (table' & Hrun & Hspec).
  exists table'. split; [done|]. intros target.
  destruct (Hspec target) as (H1 & H2 & H3). cbn zeta in *.
  destruct (TopologyManager.nodeExists target (topologyManager_ r)) eqn:Hknown.
  - destruct (route_of r target) as [[hop path]|] eqn:Hroute.
    + destruct (route_of_reach _ _ _ _ Hroute) as (Hself & -> & Hhop & Hedge & Hpath & Hmin).
      cbn [fmap option_fmap option_map fst snd] in *.
      rewrite bool_decide_eq_true_2 in H3 by (by eexists). cbn [andb] in H3.
      split_and!.
      * split; [|by rewrite H1]. intros _. split_and!; try done.
        eexists. by eapply path_reach.
      * rewrite H1. intros ? [= <-]. unfold getNextHop. rewrite H1.
        split_and!; try done. intros m Hm. apply Hmin in Hm. lia.
      * by rewrite H1.
    + cbn [fmap option_fmap option_map] in *.
      rewrite bool_decide_eq_false_2 in H3 by (by intros [? ?]). cbn [andb] in H3.
      split_and!.
      * rewrite H1. split; [by intros [? ?]|]. intros (_ & Hself & m & Hm).
        exfalso. by eapply route_of_None.
      * by rewrite H1.
      * done.
  - cbn [andb] in H3. split_and!.
    + rewrite H1. split; [by intros [? ?] | by intros [? _]].
    + by rewrite H1.
    + done.
Qed.

End routing_table.


(** ** MessageHandler: departures *)

Section departures.
Import MessageHandler.

Lemma delete_filter_NoDup (l : list N) i id :
  NoDup l → l !! i = Some id → delete i l = filter (λ p, p ≠ id) l.
Proof.
  revert i. induction l as [|a l IH]; intros i Hnd Hi; [done|].
  apply NoDup_cons in Hnd as [Ha Hnd]. destruct i as [|i]; simplify_eq/=.
  - rewrite filter_cons_False by naive_solver.
    symmetry. apply filter_all, Forall_forall. intros x Hx ->. done.
  - rewrite filter_cons_True.
    + f_equal. by apply IH.
    + intros ->. apply Ha. by eapply list_elem_of_lookup_2.
Qed.

Lemma removePeer_filter (n : Node.t) (id : N) :
  roster_ok n →
  Node.peerIDs_ (Node.removePeer n id).2 = filter (λ p, p ≠ id) (Node.peerIDs_ n)
  ∧ roster (Node.removePeer n id).2 = filter (λ p, p.1 ≠ id) (roster n)
  ∧ Node.nodeID_ (Node.removePeer n id).2 = Node.nodeID_ n.
Proof.
  intros (Hnd & Hlen & Hmax). unfold Node.removePeer, roster.
  destruct (Node.find_index id (Node.peerIDs_ n)) as [i|] eqn:E; simpl.
  - apply find_index_Some in E as [Hi _]. split_and!; [|by apply filter_fst_delete|done].
    by apply delete_filter_NoDup.
  - apply find_index_None in E. split_and!; [| |done].
    + symmetry. apply filter_all, Forall_forall. intros x Hx ->. done.
    + symmetry. apply filter_all.
      apply Forall_forall. intros [x y] Hxy. simpl. intros ->. apply E.
      by apply elem_of_zip_l in Hxy.
Qed.

Lemma node_list_decodes (L : list N) :
  N.of_nat (length L) < 2 ^ 32 →
  Forall (λ id, id < 2 ^ 64) L →
  deserializeNodeList (serializeNodeList L) = Returns L.
Proof.
  intros Hlen Hids.
  rewrite serializeNodeList_layout by exact Hlen.
  unfold deserializeNodeList.
  set (hdr := le_bytes 4 (N.of_nat (length L))).
  assert (Hhdr : length hdr = 4%nat) by (unfold hdr; apply length_le_bytes).
  rewrite bool_decide_eq_false_2 by (rewrite length_app, Hhdr; lia).
  rewrite read_bytes_in_bounds by (rewrite length_app, Hhdr; lia).
  assert (Hv : le_value hdr = N.of_nat (length L)).
  { unfold hdr. rewrite le_value_le_bytes.
    change (256 ^ N.of_nat 4) with (2 ^ 32). by apply N.mod_small. }
  cbn [obind]. rewrite drop_0, take_app_length' by (by rewrite Hhdr).
  rewrite Hv.
  assert (Hw : ∀ k, k ≤ 4 → wrap64 (k + N.of_nat (length L) * 8)
                            = k + N.of_nat (length L) * 8).
  { intros k Hk. within_64_bits. }
  rewrite (Hw 4) by lia. pose proof (Hw 0 ltac:(lia)) as Hw0.
  rewrite N.add_0_l in Hw0. rewrite Hw0.
  rewrite bool_decide_eq_false_2
    by (rewrite length_app, Hhdr, length_bytes_of_words; lia).
  case_bool_decide as Hpos.
  - rewrite read_bytes_in_bounds
      by (rewrite length_app, Hhdr, length_bytes_of_words; lia).
    cbn [obind]. f_equal.
    rewrite drop_app_length' by (by rewrite Hhdr).
    rewrite take_ge by (rewrite length_bytes_of_words; lia).
    rewrite Nat2N.id.
    rewrite <- (app_nil_r (bytes_of_words _)). by apply words_of_bytes_of_words.
  - destruct L; [done|]. simpl in Hpos. lia.
Qed.

(** X26.  [handleLeaveNotification] removes the sender from the roster and
    from the topology registry, leaving every other peer and registration as
    it was, and hands one TOPOLOGY_UPDATE to each remaining peer in roster
    order; the payload of that update decodes to the list holding just the
    sender. *)
Theorem leave_notification_effect (message : Message) (nowMs : N) (h : t) :
  roster_ok (node_ h) →
  senderID message < 2 ^ 64 →
  let sender := senderID message in
  let h' := handleLeaveNotification message nowMs h in
  let remaining := filter (λ p, p ≠ sender) (Node.getPeerIDs (node_ h)) in
  let update := mkMessage TOPOLOGY_UPDATE (Node.getID (node_ h)) 0
                  (serializeNodeList [sender]) nowMs in
  Node.getPeerIDs (node_ h') = remaining
  ∧ roster (node_ h') = filter (λ p, p.1 ≠ sender) (roster (node_ h))
  ∧ TopologyManager.nodeExists sender (topologyManager_ h') = false
  ∧ (∀ id, id ≠ sender →
       TopologyManager.nodeRegistry_ (topologyManager_ h') !! id
       = TopologyManager.nodeRegistry_ (topologyManager_ h) !! id)
  ∧ NetworkManager.handedOver (networkManager_ h')
    = NetworkManager.handedOver (networkManager_ h) ++ copies update remaining
  ∧ deserializeNodeList (payload update) = Returns [sender].
Proof.
  intros Hok H64. cbn zeta. unfold handleLeaveNotification. cbn zeta.
  cbn [node_ networkManager_ topologyManager_].
  destruct (removePeer_filter (node_ h) (senderID message) Hok) as (Hp & Hr & Hid).
  unfold Node.getPeerIDs, createTopologyUpdate, Node.getID.
  cbn [node_ networkManager_ topologyManager_]. rewrite Hp, Hid.
  pose proof (broadcastMessage_spec
    (filter (λ p, p ≠ senderID message) (Node.peerIDs_ (node_ h)))
    (mkMessage TOPOLOGY_UPDATE (Node.nodeID_ (node_ h)) 0
       (serializeNodeList [senderID message]) nowMs)
    (senderID message) (networkManager_ h)) as Hb.
  cbn zeta in Hb. destruct Hb as (_ & Hb & _).
  rewrite list_filter_filter in Hb.
  rewrite (list_filter_iff (λ a, a ≠ senderID message ∧ a ≠ senderID message)
             (λ p, p ≠ senderID message)) in Hb by naive_solver.
  split_and!; try done.
  - unfold TopologyManager.nodeExists. apply bool_decide_eq_false_2.
    unfold TopologyManager.removeNode.
    destruct (decide (is_Some (TopologyManager.nodeRegistry_ (topologyManager_ h)
                                 !! senderID message))) as [Hreg|Hreg].
    + rewrite bool_decide_eq_true_2 by done. cbn [snd].
      unfold TopologyManager.removeNodeFromGraph.
      cbn [TopologyManager.nodeRegistry_]. rewrite lookup_delete_eq. by intros [? ?].
    + by rewrite bool_decide_eq_false_2.
  - intros id Hne. unfold TopologyManager.removeNode.
    case_bool_decide as Hreg; cbn [snd]; [|done].
    unfold TopologyManager.removeNodeFromGraph.
    cbn [TopologyManager.nodeRegistry_]. by rewrite lookup_delete_ne.
  - apply node_list_decodes; [simpl; lia|]. by apply Forall_singleton.
Qed.

Lemma removePeer_frame (n : Node.t) (id : N) :
  Node.nodeID_ (Node.removePeer n id).2 = Node.nodeID_ n
  ∧ Node.address_ (Node.removePeer n id).2 = Node.address_ n
  ∧ Node.lastSeen_ (Node.removePeer n id).2 = Node.lastSeen_ n.
Proof.
  unfold Node.removePeer. by destruct (Node.find_index id (Node.peerIDs_ n)).
Qed.

Lemma fold_removePeer_filter (known : N → bool) (l : list N) (n : Node.t) :
  roster_ok n →
  let n' := foldl (λ n id, if known id then n else (Node.removePeer n id).2) n l in
  roster n' = filter (λ p, ¬ (p.1 ∈ l ∧ known p.1 = false)) (roster n)
  ∧ Node.peerIDs_ n'
    = filter (λ id, ¬ (id ∈ l ∧ known id = false)) (Node.peerIDs_ n)
  ∧ Node.nodeID_ n' = Node.nodeID_ n
  ∧ Node.address_ n' = Node.address_ n
  ∧ Node.lastSeen_ n' = Node.lastSeen_ n
  ∧ roster_ok n'.
Proof.
  cbn zeta. revert n. induction l as [|id l IH]; intros n Hok.
  - cbn [foldl]. split_and!; try done.
    + symmetry. apply filter_all, Forall_forall.
      intros p _ [Hin _]. by apply elem_of_nil in Hin.
    + symmetry. apply filter_all, Forall_forall.
      intros p _ [Hin _]. by apply elem_of_nil in Hin.
  - cbn [foldl]. destruct (known id) eqn:Hk.
    + destruct (IH n Hok) as (H1 & H2 & H3 & H4 & H5 & H6).
      rewrite H1, H2. split_and!; try done.
      * apply list_filter_iff. intros p.
        rewrite elem_of_cons. split; intros Hp [Hin Hf]; apply Hp.
        -- split; [|done]. destruct Hin as [Heq|Hin]; [congruence | done].
        -- split; [by right | done].
      * apply list_filter_iff. intros p.
        rewrite elem_of_cons. split; intros Hp [Hin Hf]; apply Hp.
        -- split; [|done]. destruct Hin as [Heq|Hin]; [congruence | done].
        -- split; [by right | done].
    + destruct (IH (Node.removePeer n id).2 (roster_ok_removePeer n id Hok))
        as (H1 & H2 & H3 & H4 & H5 & H6).
      destruct (removePeer_filter n id Hok) as (Hp & Hr & _).
      destruct (removePeer_frame n id) as (F1 & F2 & F3).
      rewrite H1, H2, H3, H4, H5, Hp, Hr, F1, F2, F3.
      rewrite !list_filter_filter. split_and!; try done.
      * apply list_filter_iff. intros p.
        rewrite elem_of_cons. split.
        -- intros [Hq Hne] [[Heq|Hin] Hf]; [done|]. by apply Hq.
        -- intros Hq. split.
           ++ intros [Hin Hf]. apply Hq. by split; [right|].
           ++ intros Heq. apply Hq. split; [by left|]. by rewrite Heq.
      * apply list_filter_iff. intros p.
        rewrite elem_of_cons. split.
        -- intros [Hq Hne] [[Heq|Hin] Hf]; [done|]. by apply Hq.
        -- intros Hq. split.
           ++ intros [Hin Hf]. apply Hq. by split; [right|].
           ++ intros Heq. apply Hq. split; [by left|]. by rewrite Heq.
Qed.

(** X27.  On a topology whose adjacency keys are registered,
    [handleTopologyUpdate] returns and changes only the roster: it drops
    exactly the peers that the update names and that the local topology does
    not register, each with its address, and keeps the others in order.  A
    named peer that is still registered locally stays.  The id, the address
    and the last-seen time of the node, the topology and the network manager
    are as before. *)
Theorem topology_update_effect (message : Message) (h : t) :
  keys_registered (topologyManager_ h) →
  roster_ok (node_ h) →
  ∃ updated h',
    deserializeNodeList (payload message) = Returns updated
    ∧ handleTopologyUpdate message h = Returns h'
    ∧ topologyManager_ h' = topologyManager_ h
    ∧ networkManager_ h' = networkManager_ h
    ∧ roster (node_ h')
      = filter (λ p, ¬ (p.1 ∈ updated
                        ∧ TopologyManager.nodeExists p.1 (topologyManager_ h) = false))
          (roster (node_ h))
    ∧ Node.peerIDs_ (node_ h')
      = filter (λ id, ¬ (id ∈ updated
                         ∧ TopologyManager.nodeExists id (topologyManager_ h) = false))
          (Node.peerIDs_ (node_ h))
    ∧ Node.nodeID_ (node_ h') = Node.nodeID_ (node_ h)
    ∧ Node.address_ (node_ h') = Node.address_ (node_ h)
    ∧ Node.lastSeen_ (node_ h') = Node.lastSeen_ (node_ h)
    ∧ roster_ok (node_ h').
Proof.
  intros Hk Hok. destruct (deserializeNodeList_returns (payload message)) as [updated Hd].
  unfold handleTopologyUpdate. rewrite Hd. cbn [obind].
  rewrite checkNetworkIntegrity_registered by done. cbn [obind snd].
  eexists updated, _. split; [done|]. split; [done|].
  cbn [node_ topologyManager_ networkManager_].
  split; [done|]. split; [done|].
  exact (fold_removePeer_filter
           (λ id, TopologyManager.nodeExists id (topologyManager_ h))
           updated (node_ h) Hok).
Qed.

Lemma leave_notification_effect_witness :
  Node.getPeerIDs (node_ (handleLeaveNotification leave_example 9 handler_example))
  = filter (λ p, p ≠ 3) (Node.getPeerIDs (node_ handler_example)).
Proof.
  destruct (leave_notification_effect leave_example 9 handler_example) as (H & _).
  - apply roster_ok_node_example.
  - reflexivity.
  - exact H.
Defined.

Lemma topology_update_effect_witness :
  ∃ h', handleTopologyUpdate update_example small_handler_example = Returns h'
        ∧ Node.peerIDs_ (node_ h') = [2].
Proof.
  destruct (topology_update_effect update_example small_handler_example)
    as (updated & h' & H1 & H2 & _ & _ & _ & H6 & _).
  - do 2 apply keys_registered_addNode. apply keys_registered_new_topology.
  - apply roster_ok_node_example.
  - exists h'. split; [exact H2|].
    assert (updated = [3]) as -> by (vm_compute in H1; congruence).
    rewrite H6. vm_compute. reflexivity.
Defined.

End departures.
